(** * langlaoch: the message-orchestration pipeline of [chat.service.ts]

    A shallow embedding of the service that answers a chat message: the
    retry wrapper, the knowledge search, the two product extractors, the
    tool invoker and [addMessage], followed by the properties the
    specification states about them.

    JavaScript strings are sequences of UTF-16 code units; regular
    expressions are kept as syntax trees and run by a backtracking matcher
    that follows the ECMAScript matching rules for the constructs the
    service uses. Remote collaborators (completion provider, embedding
    provider, vector backend, relational store) are a record of state
    transformers over an arbitrary world; every call the service makes to
    them is recorded in a trace. *)

From Stdlib Require Import String Ascii DecimalString.
From Stdlib Require Import List Bool Arith NArith ZArith Lia.
Import ListNotations.

Set Implicit Arguments.
Set Warnings "-register-all".

(* ================================================================= *)
(** ** Strings *)

(** A string is its list of UTF-16 code units. *)
Definition jsstring := list N.

Definition js (s : string) : jsstring :=
  List.map N_of_ascii (list_ascii_of_string s).

Arguments js s%_string.

Fixpoint str_eqb (a b : jsstring) : bool :=
  match a, b with
  | [], [] => true
  | x :: a', y :: b' => N.eqb x y && str_eqb a' b'
  | _, _ => false
  end.

Infix "===" := str_eqb (at level 68, no associativity).

(** [String.prototype.trim] strips WhiteSpace and LineTerminator code
    points; the same set is the regular expression class [\s]. *)
Definition isWhiteSpace (c : N) : bool :=
  ((9 <=? c) && (c <=? 13) || (c =? 32) || (c =? 160) || (c =? 5760)
   || (8192 <=? c) && (c <=? 8202) || (c =? 8232) || (c =? 8233)
   || (c =? 8239) || (c =? 8287) || (c =? 12288) || (c =? 65279))%N.

Fixpoint trimStart (s : jsstring) : jsstring :=
  match s with
  | c :: s' => if isWhiteSpace c then trimStart s' else s
  | [] => []
  end.

Definition trimEnd (s : jsstring) : jsstring := rev (trimStart (rev s)).

Definition trim (s : jsstring) : jsstring := trimEnd (trimStart s).

Fixpoint startsWith (p s : jsstring) : bool :=
  match p, s with
  | [], _ => true
  | x :: p', y :: s' => N.eqb x y && startsWith p' s'
  | _ :: _, [] => false
  end.

(** [s.includes(p)] *)
Fixpoint includes (s p : jsstring) : bool :=
  startsWith p s ||
  match s with
  | [] => false
  | _ :: s' => includes s' p
  end.

(** [s.substring(start, end)]: the two indices are swapped when they come
    in the wrong order. *)
Definition substring (s : jsstring) (start finish : nat) : jsstring :=
  firstn (Nat.max start finish - Nat.min start finish)
    (skipn (Nat.min start finish) s).

(** [s.substring(start)] *)
Definition substringFrom (s : jsstring) (start : nat) : jsstring :=
  skipn start s.

(** [s.indexOf(p, from)]; [None] stands for -1. *)
Fixpoint indexOf_aux (s p : jsstring) (i : nat) : option nat :=
  if startsWith p s then Some i
  else match s with
       | [] => None
       | _ :: s' => indexOf_aux s' p (S i)
       end.

Definition indexOf (s p : jsstring) (from : nat) : option nat :=
  if length s <? from then (if startsWith p [] then Some (length s) else None)
  else indexOf_aux (skipn from s) p from.

(** [s.split('\n')] *)
Fixpoint splitOn (sep : N) (s : jsstring) (cur : jsstring) : list jsstring :=
  match s with
  | [] => [rev cur]
  | c :: s' =>
      if N.eqb c sep then rev cur :: splitOn sep s' []
      else splitOn sep s' (c :: cur)
  end.

Definition splitLines (s : jsstring) : list jsstring := splitOn 10%N s [].

(** [s.toLowerCase()] on the letters A-Z. The other code units are left as
    they are: the service only looks for the ASCII word [description] in
    the result, and no code unit outside A-Z lowers to a string in which
    that word can start or continue. *)
Definition lowerUnit (c : N) : N :=
  if ((65 <=? c) && (c <=? 90))%N then (c + 32)%N else c.

Definition toLowerCase (s : jsstring) : jsstring := List.map lowerUnit s.

(** Decimal rendering of an integer, as [String(n)] and template literals
    give it for integers below 10^21. *)
Definition decimalZ (z : Z) : jsstring :=
  js (NilEmpty.string_of_int (Z.to_int z)).

Definition decimal (n : nat) : jsstring := decimalZ (Z.of_nat n).

(* ================================================================= *)
(** ** Products *)

Record Product := mkProduct {
  name : jsstring;
  productId : jsstring;
  description : jsstring
}.

(** The template literal [`Product ${productId}`]. *)
Definition placeholderName (productId : jsstring) : jsstring :=
  js "Product " ++ productId.

Definition NO_DESCRIPTION : jsstring := js "No description available".

(** [a || b] on strings: the empty string is falsy. *)
Definition orDefault (a b : jsstring) : jsstring :=
  match a with [] => b | _ => a end.

(** *** Arrays *)

(** [array.findIndex(pred)], -1 when no element satisfies [pred]. *)
Fixpoint findIndex_from {A} (pred : A -> bool) (l : list A) (i : Z) : Z :=
  match l with
  | [] => (-1)%Z
  | x :: l' => if pred x then i else findIndex_from pred l' (i + 1)%Z
  end.

Definition findIndex {A} (pred : A -> bool) (l : list A) : Z :=
  findIndex_from pred l 0%Z.

(** [array.filter((element, index, self) => ...)] *)
Fixpoint filter_from {A} (pred : A -> Z -> bool) (l : list A) (i : Z)
  : list A :=
  match l with
  | [] => []
  | x :: l' =>
      if pred x i then x :: filter_from pred l' (i + 1)%Z
      else filter_from pred l' (i + 1)%Z
  end.

Definition filterIndexed {A} (pred : A -> Z -> list A -> bool)
  (self : list A) : list A :=
  filter_from (fun x i => pred x i self) self 0%Z.

(** The duplicate removal at the end of [extractProductsFromDocuments] and
    after the tool loop of [addMessage]:
    [products.filter((product, index, self) =>
       index === self.findIndex((p) => p.productId === product.productId))] *)
Definition uniqueByProductId (products : list Product) : list Product :=
  filterIndexed
    (fun product index self =>
       Z.eqb index
         (findIndex (fun p => productId p === productId product) self))
    products.

(** The enrichment step of [addMessage]: [uniqueProducts.map(product => ...)]
    against the products read from the assistant's text. *)
Definition enrichProduct (assistantProducts : list Product)
  (product : Product) : Product :=
  match find (fun ap => productId ap === productId product)
             assistantProducts with
  | Some assistantProduct =>
      {| productId := productId product;
         name :=
           if (name product === placeholderName (productId product))
              && negb (name assistantProduct
                       === placeholderName (productId product))
           then name assistantProduct
           else name product;
         description :=
           if (description product === NO_DESCRIPTION)
              && negb (description assistantProduct === NO_DESCRIPTION)
           then description assistantProduct
           else description product |}
  | None => product
  end.

Definition enrichProducts (uniqueProducts assistantProducts : list Product)
  : list Product :=
  List.map (enrichProduct assistantProducts) uniqueProducts.

(* ================================================================= *)
(** ** Regular expressions *)

(** The syntax of the expressions the service uses: literals, classes,
    [.], sequence, alternation, greedy and lazy repetition, capture
    groups, lookahead, and the assertions [^] and [$]. Where a comment
    quotes an expression of the source in which a star is followed by a
    closing parenthesis, a space separates the two. *)
Inductive citem : Type :=
| CChar (c : N)            (* a literal member *)
| CRange (lo hi : N)       (* lo-hi *)
| CSpace                   (* \s *)
| CNotSpace                (* \S *)
| CDigit.                  (* \d *)

Inductive regex : Type :=
| REmpty
| RChar (c : N)
| RAny                                     (* . *)
| RSet (negated : bool) (items : list citem)
| RSeq (r1 r2 : regex)
| RAlt (r1 r2 : regex)
| RStar (greedy : bool) (r : regex)        (* r* and r*? *)
| RGroup (n : nat) (r : regex)             (* the n-th ( ) *)
| RLook (positive : bool) (r : regex)      (* (?=r) and (?!r) *)
| RBol                                     (* ^ *)
| REol.                                    (* $ *)

Record flags := mkFlags { ignoreCase : bool; multiline : bool }.

Definition RPlus (greedy : bool) (r : regex) : regex :=
  RSeq r (RStar greedy r).

Definition ROpt (r : regex) : regex := RAlt r REmpty.

Fixpoint RLit_units (s : jsstring) : regex :=
  match s with
  | [] => REmpty
  | [c] => RChar c
  | c :: s' => RSeq (RChar c) (RLit_units s')
  end.

Definition RLit (s : string) : regex := RLit_units (js s).

Arguments RLit s%_string.

Fixpoint RSeqs (rs : list regex) : regex :=
  match rs with
  | [] => REmpty
  | [r] => r
  | r :: rs' => RSeq r (RSeqs rs')
  end.

Fixpoint RAlts (rs : list regex) : regex :=
  match rs with
  | [] => REmpty
  | [r] => r
  | r :: rs' => RAlt r (RAlts rs')
  end.

Definition isLineTerminator (c : N) : bool :=
  ((c =? 10) || (c =? 13) || (c =? 8232) || (c =? 8233))%N.

Definition isDigit (c : N) : bool := ((48 <=? c) && (c <=? 57))%N.

Definition isAsciiLetter (c : N) : bool :=
  ((65 <=? c) && (c <=? 90) || (97 <=? c) && (c <=? 122))%N.

(** Canonicalize of the [i] flag (no [u] flag): the upper case of a code
    unit. The members of every class and every literal of the service's
    expressions are ASCII or have no case, and a code unit above 127 never
    canonicalizes to an ASCII one, so folding a-z is all that matters. *)
Definition canonicalize (c : N) : N :=
  if ((97 <=? c) && (c <=? 122))%N then (c - 32)%N else c.

Definition unit_matches (ic : bool) (c x : N) : bool :=
  if ic then N.eqb (canonicalize c) (canonicalize x) else N.eqb c x.

Definition in_range (lo hi x : N) : bool := ((lo <=? x) && (x <=? hi))%N.

Definition citem_matches (ic : bool) (it : citem) (x : N) : bool :=
  match it with
  | CChar c => unit_matches ic c x
  | CRange lo hi =>
      in_range lo hi x
      || (ic && isAsciiLetter x
          && (in_range lo hi (canonicalize x)
              || in_range lo hi (canonicalize x + 32)%N))
  | CSpace => isWhiteSpace x
  | CNotSpace => negb (isWhiteSpace x)
  | CDigit => isDigit x
  end.

Definition set_matches (ic negated : bool) (items : list citem) (x : N)
  : bool :=
  xorb negated (existsb (fun it => citem_matches ic it x) items).

(** The matcher state: the input split at the current position (the part
    already read is kept reversed) and the captures made so far. *)
Record mstate := mkMstate {
  before : list N;
  after : list N;
  caps : list (nat * jsstring)
}.

Definition step_unit (ok : N -> bool) (s : mstate)
  (k : mstate -> option mstate) : option mstate :=
  match after s with
  | x :: rest =>
      if ok x then k (mkMstate (x :: before s) rest (caps s)) else None
  | [] => None
  end.

Definition captured (s0 s1 : mstate) : jsstring :=
  rev (firstn (length (before s1) - length (before s0)) (before s1)).

Definition at_bol (multi : bool) (s : mstate) : bool :=
  match before s with
  | [] => true
  | c :: _ => multi && isLineTerminator c
  end.

Definition at_eol (multi : bool) (s : mstate) : bool :=
  match after s with
  | [] => true
  | c :: _ => multi && isLineTerminator c
  end.

(** Backtracking matcher in continuation-passing style: [rx fl r s k]
    matches [r] at the position of [s] and hands every way of doing so,
    in ECMAScript's priority order, to [k], until [k] accepts one. A
    repetition refuses an iteration that reads nothing, so it iterates at
    most once per remaining code unit. *)
Fixpoint rx (fl : flags) (r : regex) (s : mstate)
  (k : mstate -> option mstate) {struct r} : option mstate :=
  match r with
  | REmpty => k s
  | RChar c => step_unit (unit_matches (ignoreCase fl) c) s k
  | RAny => step_unit (fun x => negb (isLineTerminator x)) s k
  | RSet negated items =>
      step_unit (set_matches (ignoreCase fl) negated items) s k
  | RSeq r1 r2 => rx fl r1 s (fun s1 => rx fl r2 s1 k)
  | RAlt r1 r2 =>
      match rx fl r1 s k with
      | Some res => Some res
      | None => rx fl r2 s k
      end
  | RStar greedy r1 =>
      (fix loop (fuel : nat) (s : mstate) {struct fuel} : option mstate :=
         match fuel with
         | O => k s
         | S fuel' =>
             let again (_ : unit) :=
               rx fl r1 s
                 (fun s1 =>
                    if length (after s1) <? length (after s)
                    then loop fuel' s1 else None) in
             if greedy then
               match again tt with
               | Some res => Some res
               | None => k s
               end
             else
               match k s with
               | Some res => Some res
               | None => again tt
               end
         end) (S (length (after s))) s
  | RGroup n r1 =>
      rx fl r1 s
        (fun s1 =>
           k (mkMstate (before s1) (after s1)
                ((n, captured s s1) :: caps s1)))
  | RLook positive r1 =>
      match rx fl r1 s (fun s1 => Some s1) with
      | Some s1 =>
          if positive then k (mkMstate (before s) (after s) (caps s1))
          else None
      | None => if positive then None else k s
      end
  | RBol => if at_bol (multiline fl) s then k s else None
  | REol => if at_eol (multiline fl) s then k s else None
  end.

(** A match: where it starts and ends, the text matched and the groups. *)
Record rmatch := mkRmatch {
  index : nat;
  lastIndex : nat;
  matched : jsstring;
  groups : list (nat * jsstring)
}.

Fixpoint assoc_nat (n : nat) (l : list (nat * jsstring)) : option jsstring :=
  match l with
  | [] => None
  | (m, v) :: l' => if Nat.eqb n m then Some v else assoc_nat n l'
  end.

(** [match[n]]. Every group of the service's expressions takes part in
    every match of its expression, so the value is always there; the empty
    string stands for a missing one. *)
Definition group (n : nat) (m : rmatch) : jsstring :=
  match assoc_nat n (groups m) with
  | Some v => v
  | None => []
  end.

Definition start_state (bef aft : list N) : mstate := mkMstate bef aft [].

Definition to_rmatch (s0 s1 : mstate) : rmatch :=
  mkRmatch (length (before s0)) (length (before s1)) (captured s0 s1)
    (caps s1).

(** The first match at or after the current position, with the state in
    which the match ended. *)
Fixpoint search (fl : flags) (r : regex) (bef aft : list N)
  : option (rmatch * mstate) :=
  match rx fl r (start_state bef aft) (fun s1 => Some s1) with
  | Some s1 => Some (to_rmatch (start_state bef aft) s1, s1)
  | None =>
      match aft with
      | [] => None
      | c :: aft' => search fl r (c :: bef) aft'
      end
  end.

(** [s.match(re)] for an expression without the [g] flag. *)
Definition rx_match (fl : flags) (r : regex) (s : jsstring) : option rmatch :=
  option_map fst (search fl r [] s).

(** [re.test(s)] *)
Definition rx_test (fl : flags) (r : regex) (s : jsstring) : bool :=
  match rx_match fl r s with Some _ => true | None => false end.

(** After a match the next search starts where it ended, one code unit
    further when the match was empty. *)
Definition advance (m : rmatch) (s1 : mstate) : option (list N * list N) :=
  if Nat.eqb (lastIndex m) (index m) then
    match after s1 with
    | [] => None
    | c :: aft' => Some (c :: before s1, aft')
    end
  else Some (before s1, after s1).

(** [Array.from(s.matchAll(re))] for an expression with the [g] flag. *)
Fixpoint matchAll_from (fl : flags) (r : regex) (fuel : nat)
  (bef aft : list N) : list rmatch :=
  match fuel with
  | O => []
  | S fuel' =>
      match search fl r bef aft with
      | None => []
      | Some (m, s1) =>
          m :: match advance m s1 with
               | None => []
               | Some (bef', aft') => matchAll_from fl r fuel' bef' aft'
               end
      end
  end.

Definition matchAll (fl : flags) (r : regex) (s : jsstring) : list rmatch :=
  matchAll_from fl r (S (length s)) [] s.

(** [s.replace(re, by)] without the [g] flag; [by] has no [$] pattern. *)
Definition replaceFirst (fl : flags) (r : regex) (s by_ : jsstring)
  : jsstring :=
  match rx_match fl r s with
  | None => s
  | Some m => firstn (index m) s ++ by_ ++ skipn (lastIndex m) s
  end.

(** [s.replace(re, by)] with the [g] flag. *)
Fixpoint replaceAll_from (s by_ : jsstring) (ms : list rmatch) (pos : nat)
  : jsstring :=
  match ms with
  | [] => skipn pos s
  | m :: ms' =>
      substring s pos (index m) ++ by_ ++ replaceAll_from s by_ ms' (lastIndex m)
  end.

Definition replaceAll (fl : flags) (r : regex) (s by_ : jsstring)
  : jsstring :=
  replaceAll_from s by_ (matchAll fl r s) 0.

(** [s.split(re)] for an expression without groups: the pieces between
    the matches, where a match that would end where the current piece
    starts is passed over. *)
Fixpoint split_loop (fl : flags) (r : regex) (fuel : nat)
  (piece bef aft : list N) : list jsstring :=
  match fuel with
  | O => [rev piece ++ aft]
  | S fuel' =>
      match aft with
      | [] => [rev piece]
      | c :: aft' =>
          match rx fl r (start_state bef aft) (fun s1 => Some s1) with
          | Some s1 =>
              if (length (before s1) =? length bef - length piece)%nat
              then split_loop fl r fuel' (c :: piece) (c :: bef) aft'
              else rev piece
                   :: split_loop fl r fuel' [] (before s1) (after s1)
          | None => split_loop fl r fuel' (c :: piece) (c :: bef) aft'
          end
      end
  end.

Definition rx_split (fl : flags) (r : regex) (s : jsstring) : list jsstring :=
  match s with
  | [] =>
      match rx fl r (start_state [] []) (fun s1 => Some s1) with
      | Some _ => []
      | None => [[]]
      end
  | _ => split_loop fl r (2 * length s + 1) [] [] s
  end.

(* ================================================================= *)
(** ** JSON values *)

(** A JSON number: an integer, or any other number given by the text
    [String] renders it as. *)
Inductive number : Type :=
| Int (z : Z)
| Real (text : jsstring).

(** The values [JSON.parse] yields. An object lists each key once. *)
Inductive json : Type :=
| JNull
| JBool (b : bool)
| JNum (n : number)
| JStr (s : jsstring)
| JArr (items : list json)
| JObj (fields : list (jsstring * json)).

(** A value read from a property: [None] is [undefined]. *)
Definition jsval := option json.

Definition truthy_json (v : json) : bool :=
  match v with
  | JNull => false
  | JBool b => b
  | JNum (Int z) => negb (Z.eqb z 0)
  | JNum (Real _) => true
  | JStr s => match s with [] => false | _ => true end
  | JArr _ => true
  | JObj _ => true
  end.

Definition truthy (v : jsval) : bool :=
  match v with
  | None => false
  | Some j => truthy_json j
  end.

(** [a || b] *)
Definition or_else (a b : jsval) : jsval := if truthy a then a else b.

(** A number is a double. The double nearest to a natural number, ties
    to the even mantissa: below 2^53 the number itself. *)
Definition nearestDouble (z : Z) : Z :=
  if (z <? 2 ^ 53)%Z then z
  else
    let e := (Z.log2 z - 52)%Z in
    let q := Z.shiftr z e in
    let r := (z - Z.shiftl q e)%Z in
    let half := Z.shiftl 1 (e - 1) in
    Z.shiftl
      (if (half <? r)%Z || ((r =? half)%Z && Z.odd q) then (q + 1)%Z else q)
      e.

(** Number::toString picks the decimal with the fewest digits that reads
    back as the double [x], the nearest to [x] when there are two:
    [shortest_from x n k] looks for it with [k] digits and more, among the
    two multiples of [10^(n-k)] around [x], where [n] is the number of
    digits of [x]. Seventeen digits always do. *)
Fixpoint shortest_from (x n : Z) (k : nat) (fuel : nat) : Z :=
  match fuel with
  | O => x
  | S fuel' =>
      let p := (10 ^ (n - Z.of_nat k))%Z in
      let lo := (x / p * p)%Z in
      let hi := (lo + p)%Z in
      let okLo := (nearestDouble lo =? x)%Z in
      let okHi := (nearestDouble hi =? x)%Z in
      if okLo && okHi then
        if (x - lo <? hi - x)%Z then lo
        else if (hi - x <? x - lo)%Z then hi
        else if Z.even (x / p) then lo else hi
      else if okLo then lo
      else if okHi then hi
      else shortest_from x n (S k) fuel'
  end.

Definition shortestDecimal (x : Z) : Z :=
  shortest_from x (Z.of_nat (length (decimalZ x))) 1 17.

Fixpoint dropZeros (s : jsstring) : jsstring :=
  match s with
  | 48%N :: s' => dropZeros s'
  | _ => s
  end.

(** [String(x)] for a double [x] that is an integer from 2^53 on: the
    digits of the shortest decimal and its zeros up to 21 digits, the
    exponent form from 1e21 on, [Infinity] from 2^1024 on. *)
Definition doubleText (x : Z) : jsstring :=
  if (2 ^ 1024 <=? x)%Z then js "Infinity"
  else
    let ds := decimalZ (shortestDecimal x) in
    if length ds <=? 21 then ds
    else
      match rev (dropZeros (rev ds)) with
      | [] => ds
      | d :: more =>
          d :: match more with [] => [] | _ => 46%N :: more end
            ++ js "e+" ++ decimal (length ds - 1)
      end.

(** [String(n)]: an integer below 2^53 in size is its decimal digits; a
    larger one is first the double nearest to it. *)
Definition number_text (n : number) : jsstring :=
  match n with
  | Int z =>
      if (Z.abs z <? 2 ^ 53)%Z then decimalZ z
      else (if (z <? 0)%Z then js "-" else [])
           ++ doubleText (nearestDouble (Z.abs z))
  | Real text => text
  end.

(** [String(v)], where it returns: an array is its elements joined by
    commas, [null] among them rendered empty; an object is
    [[object Object]]. [String_throws] below tells where it throws
    instead. *)
Fixpoint String_json (v : json) : jsstring :=
  match v with
  | JNull => js "null"
  | JBool true => js "true"
  | JBool false => js "false"
  | JNum n => number_text n
  | JStr s => s
  | JArr items =>
      (fix join (l : list json) : jsstring :=
         match l with
         | [] => []
         | [x] => match x with JNull => [] | _ => String_json x end
         | x :: l' =>
             match x with JNull => [] | _ => String_json x end
             ++ js "," ++ join l'
         end) items
  | JObj _ => js "[object Object]"
  end.

Definition String_ (v : jsval) : jsstring :=
  match v with
  | None => js "undefined"
  | Some j => String_json j
  end.

(** [String(v)] throws a TypeError on an object that has a key [toString]
    of its own: no value of a parsed JSON text is a function, so the
    conversion finds neither in that property nor, after it, in [valueOf]
    a method that gives a primitive. Without that key the inherited
    [toString] answers. An array throws when one of its elements other
    than [null] does. *)
Fixpoint String_throws_json (v : json) : bool :=
  match v with
  | JObj fields => existsb (fun kv => fst kv === js "toString") fields
  | JArr items =>
      existsb (fun x => match x with JNull => false
                                   | _ => String_throws_json x end) items
  | _ => false
  end.

Definition String_throws (v : jsval) : bool :=
  match v with
  | None => false
  | Some j => String_throws_json j
  end.

Fixpoint assoc_str (key : jsstring) (fields : list (jsstring * json))
  : jsval :=
  match fields with
  | [] => None
  | (k, v) :: fields' => if k === key then Some v else assoc_str key fields'
  end.

(** [v.key] on a value that is not [null]: only an object has the keys the
    service asks for. *)
Definition prop (v : json) (key : string) : jsval :=
  match v with
  | JObj fields => assoc_str (js key) fields
  | _ => None
  end.

Arguments prop v key%_string.

(* ================================================================= *)
(** ** Matched documents and the document extractor *)

Record SupabaseDocument := mkDocument {
  doc_id : jsstring;
  doc_content : jsstring;
  doc_metadata : json;
  doc_similarity : number
}.

Definition NL : N := 10%N.
Definition BULLET : N := 8226%N.

Definition spaces : regex := RStar true (RSet false [CSpace]).
Definition digits : regex := RPlus true (RSet false [CDigit]).
Definition colonOrSpaces : regex :=
  RStar true (RSet false [CChar 58; CSpace]).
Definition anyUnit : regex := RSet false [CSpace; CNotSpace].
Definition dashOrBullet : regex := RSet false [CChar 45; CChar BULLET].
Definition optionalStar : regex := ROpt (RChar 42).

Definition plain : flags := mkFlags false false.
Definition caseless : flags := mkFlags true false.
Definition caselessMultiline : flags := mkFlags true true.

(** [/Product ID[:\s]*(\d+)/gi] *)
Definition productIdMarker : regex :=
  RSeqs [RLit "Product ID"; colonOrSpaces; RGroup 1 digits].

(** [/^\d+\.\s*/] *)
Definition leadingNumber : regex := RSeqs [RBol; digits; RChar 46; spaces].

(** [/\*\*/g] *)
Definition boldMarker : regex := RLit "**".

(** [/^[-•]\s*/] *)
Definition leadingBullet : regex := RSeqs [RBol; dashOrBullet; spaces].

(** [/Description[:\s]*([\s\S]*?)(?=\n\n|\n\s*[-•]|\nProduct ID|$)/i] *)
Definition descriptionLabel : regex :=
  RSeqs [RLit "Description"; colonOrSpaces;
         RGroup 1 (RStar false anyUnit);
         RLook true
           (RAlts [RSeq (RChar NL) (RChar NL);
                   RSeqs [RChar NL; spaces; dashOrBullet];
                   RSeq (RChar NL) (RLit "Product ID");
                   REol])].

(** [/^\s*[-•]?\s*(.+?)(?=\n\n|\n\s*[-•]|$)/] *)
Definition nextParagraphPattern : regex :=
  RSeqs [RBol; spaces; ROpt dashOrBullet; spaces;
         RGroup 1 (RPlus false RAny);
         RLook true
           (RAlts [RSeq (RChar NL) (RChar NL);
                   RSeqs [RChar NL; spaces; dashOrBullet];
                   REol])].

(** [/\s*\n\s*/g] *)
Definition lineBreak : regex := RSeqs [spaces; RChar NL; spaces].

(** [/\s+/g] *)
Definition whiteRun : regex := RPlus true (RSet false [CSpace]).

(** [/(?:^|\n)(?:\d+\.\s*|#+\s* )([^\n]+)[\s\S]*?(?:Product ID|ID)[:\s]*(\d+)/gmi] *)
Definition structuredHeading : regex :=
  RSeqs [RAlt RBol (RChar NL);
         RAlt (RSeqs [digits; RChar 46; spaces])
              (RSeq (RPlus true (RChar 35)) spaces);
         RGroup 1 (RPlus true (RSet true [CChar NL]));
         RStar false anyUnit;
         RAlt (RLit "Product ID") (RLit "ID");
         colonOrSpaces;
         RGroup 2 digits].

(** [/Description[:\s]*([\s\S]+?)(?=\n\n|$)/i] *)
Definition blockDescription : regex :=
  RSeqs [RLit "Description"; colonOrSpaces;
         RGroup 1 (RPlus false anyUnit);
         RLook true (RAlt (RSeq (RChar NL) (RChar NL)) REol)].

(** The clean-up both extractors apply to a description:
    [.replace(/\s*\n\s*/g, ' ').replace(/\s+/g, ' ')] *)
Definition collapseWhitespace (s : jsstring) : jsstring :=
  replaceAll plain whiteRun (replaceAll plain lineBreak s (js " ")) (js " ").

(** The name read from the line before a marker. *)
Definition nameFromLine (lastLine : jsstring) : jsstring :=
  let name :=
    trim (replaceFirst plain leadingBullet
            (replaceAll plain boldMarker
               (replaceFirst plain leadingNumber lastLine [])
               [])
            []) in
  if (100 <? length name)
     || includes name (js ":")
     || includes (toLowerCase name) (js "description")
  then [] else name.

(** The description read from the text after a marker. *)
Definition descriptionAfter (afterContent : jsstring) : jsstring :=
  let description :=
    match rx_match caseless descriptionLabel afterContent with
    | Some descMatch => trim (group 1 descMatch)
    | None =>
        match rx_match plain nextParagraphPattern afterContent with
        | Some nextParagraph => trim (group 1 nextParagraph)
        | None => []
        end
    end in
  match description with
  | [] => []
  | _ => trim (substring (collapseWhitespace description) 0 300)
  end.

(** [existingProduct.name = ...] on the first product with this
    identifier, which is the one [find] returned. *)
Fixpoint updateExisting (productId_ name_ description_ : jsstring)
  (l : list Product) : option (list Product) :=
  match l with
  | [] => None
  | p :: l' =>
      if productId p === productId_ then
        Some ({| productId := productId p;
                 name :=
                   if negb (name_ === [])
                      && (name p === placeholderName productId_)
                   then name_ else name p;
                 description :=
                   if negb (description_ === [])
                      && (description p === NO_DESCRIPTION)
                   then description_ else description p |} :: l')
      else option_map (cons p) (updateExisting productId_ name_ description_ l')
  end.

(** The body of the loop over the [Product ID] markers of a content. *)
Definition scanMarker (content : jsstring) (extractedProducts : list Product)
  (m : rmatch) : list Product :=
  let productId_ := group 1 m in
  let startIndex := index m in
  let beforeContent := substring content 0 startIndex in
  let beforeLines :=
    filter (fun l => negb (trim l === [])) (splitLines beforeContent) in
  let name_ :=
    match beforeLines with
    | [] => []
    | _ => nameFromLine (last beforeLines [])
    end in
  let afterContent := substringFrom content (startIndex + length (matched m)) in
  let description_ := descriptionAfter afterContent in
  match updateExisting productId_ name_ description_ extractedProducts with
  | Some updated => updated
  | None =>
      extractedProducts ++
      [{| productId := productId_;
          name := orDefault name_ (placeholderName productId_);
          description := orDefault description_ NO_DESCRIPTION |}]
  end.

(** The body of the loop over the structured headings of a content. *)
Definition scanHeading (content : jsstring) (m : rmatch) : Product :=
  let name_ := trim (replaceAll plain boldMarker (group 1 m) []) in
  let productId_ := group 2 m in
  let blockStart := index m in
  let block :=
    match indexOf content [NL; NL] (blockStart + length (matched m)) with
    | Some blockEnd =>
        if 0 <? blockEnd then substring content blockStart blockEnd
        else substringFrom content blockStart
    | None => substringFrom content blockStart
    end in
  let description_ :=
    match rx_match caseless blockDescription block with
    | Some descMatch => trim (group 1 descMatch)
    | None => substring block 0 200
    end in
  {| productId := productId_;
     name := orDefault name_ (placeholderName productId_);
     description := orDefault description_ NO_DESCRIPTION |}.

(** [doc.metadata.productId || doc.metadata.product_id || doc.metadata.id] *)
Definition metadataId (metadata : json) : jsval :=
  or_else (or_else (prop metadata "productId") (prop metadata "product_id"))
    (prop metadata "id").

(** [String(doc.metadata.name || doc.metadata.product_name ||
     doc.metadata.title || '')] *)
Definition metadataName (metadata : json) : jsstring :=
  String_ (or_else (or_else (or_else (prop metadata "name")
                                     (prop metadata "product_name"))
                            (prop metadata "title"))
                   (Some (JStr []))).

(** [String(doc.metadata.description || doc.metadata.details || '')] *)
Definition metadataDescription (metadata : json) : jsstring :=
  String_ (or_else (or_else (prop metadata "description")
                            (prop metadata "details"))
                   (Some (JStr []))).

(** The metadata step throws when one of its three [String] calls does;
    they are made once the metadata have an identifier. *)
Definition metadataThrows (metadata : json) : bool :=
  truthy_json metadata && truthy (metadataId metadata)
  && (String_throws (metadataId metadata)
      || String_throws
           (or_else (or_else (or_else (prop metadata "name")
                                      (prop metadata "product_name"))
                             (prop metadata "title"))
                    (Some (JStr [])))
      || String_throws
           (or_else (or_else (prop metadata "description")
                             (prop metadata "details"))
                    (Some (JStr [])))).

(** The metadata step, where it does not throw: an identifier under one
    of its aliases, with a name or a description under one of theirs. *)
Definition fromMetadata (metadata : json) : list Product :=
  if truthy_json metadata && truthy (metadataId metadata)
  then
    let productId_ := String_ (metadataId metadata) in
    let name_ := metadataName metadata in
    let description_ := metadataDescription metadata in
    if negb (productId_ === [])
       && (negb (name_ === []) || negb (description_ === []))
    then [{| productId := productId_;
             name := orDefault name_ (placeholderName productId_);
             description := orDefault description_ NO_DESCRIPTION |}]
    else []
  else [].

(** The body of the loop of [extractProductsFromDocuments]: the products
    of one document. The body is a [try] block whose [catch] only logs:
    when the metadata step throws, nothing has been added for the
    document and nothing is. *)
Definition extractFromDocument (doc : SupabaseDocument) : list Product :=
  if metadataThrows (doc_metadata doc) then []
  else
    let content := doc_content doc in
    let fromMeta := fromMetadata (doc_metadata doc) in
    let scanned :=
      if match fromMeta with
         | [] => true
         | first :: _ => name first === placeholderName (productId first)
         end
      then fold_left (scanMarker content)
             (matchAll caseless productIdMarker content) fromMeta
      else fromMeta in
    match scanned with
    | [] => List.map (scanHeading content)
              (matchAll caselessMultiline structuredHeading content)
    | _ => scanned
    end.

Definition extractProductsFromDocuments (docs : list SupabaseDocument)
  : list Product :=
  uniqueByProductId (flat_map extractFromDocument docs).

(* ================================================================= *)
(** ** The assistant-text extractor *)

(** [/(?=\d+\.\s*\*\* )/] *)
Definition sectionStart : regex :=
  RLook true (RSeqs [digits; RChar 46; spaces; RLit "**"]).

(** [/\d+\.\s*\*\*([^*]+)\*\*/] *)
Definition boldName : regex :=
  RSeqs [digits; RChar 46; spaces; RLit "**";
         RGroup 1 (RPlus true (RSet true [CChar 42])); RLit "**"].

(** [/Product ID\*?\*?:\s*(\d+)/i] *)
Definition assistantProductId : regex :=
  RSeqs [RLit "Product ID"; optionalStar; optionalStar; RChar 58; spaces;
         RGroup 1 digits].

(** [/Description\*?\*?:\s*([^-\n]+(?:\n(?!.*:)[^-\n]+)* )/i] *)
Definition assistantDescription : regex :=
  RSeqs [RLit "Description"; optionalStar; optionalStar; RChar 58; spaces;
         RGroup 1
           (RSeq (RPlus true (RSet true [CChar 45; CChar NL]))
                 (RStar true
                    (RSeqs [RChar NL;
                            RLook false (RSeq (RStar true RAny) (RChar 58));
                            RPlus true (RSet true [CChar 45; CChar NL])])))].

(** [/Details\*?\*?:\s*([\s\S]*?)(?=\n\s*-\s*\*\*[A-Z]|$)/i] *)
Definition assistantDetails : regex :=
  RSeqs [RLit "Details"; optionalStar; optionalStar; RChar 58; spaces;
         RGroup 1 (RStar false anyUnit);
         RLook true
           (RAlt (RSeqs [RChar NL; spaces; RChar 45; spaces; RLit "**";
                         RSet false [CRange 65 90]])
                 REol)].

(** The name of a section: the first bold span after a number. *)
Definition sectionName (section : jsstring) : jsstring :=
  match rx_match plain boldName section with
  | Some nameMatch => trim (group 1 nameMatch)
  | None => []
  end.

(** The identifier of a section, when it has a marker. *)
Definition sectionId (section : jsstring) : option jsstring :=
  option_map (group 1) (rx_match caseless assistantProductId section).

(** The description of a section: from the [Description] label, else
    from the [Details] label, then cleaned up. *)
Definition sectionDescription (section : jsstring) : jsstring :=
  let description0 :=
    match rx_match caseless assistantDescription section with
    | Some descMatch => trim (group 1 descMatch)
    | None => []
    end in
  let description1 :=
    match rx_match caseless assistantDetails section with
    | Some detailsMatch =>
        match description0 with
        | [] => trim (group 1 detailsMatch)
        | _ => description0
        end
    | None => description0
    end in
  trim (collapseWhitespace description1).

(** The body of the loop over the sections: the product of one section,
    when it has an identifier. *)
Definition extractFromSection (section : jsstring) : option Product :=
  if trim section === [] then None
  else
    match sectionId section with
    | None => None
    | Some productId_ =>
        match productId_ with
        | [] => None
        | _ =>
            Some {| productId := productId_;
                    name :=
                      orDefault (sectionName section)
                        (placeholderName productId_);
                    description :=
                      orDefault (sectionDescription section) NO_DESCRIPTION |}
        end
    end.

Fixpoint collect {A} (l : list (option A)) : list A :=
  match l with
  | [] => []
  | Some x :: l' => x :: collect l'
  | None :: l' => collect l'
  end.

Definition extractProductsFromAssistantMessage (message : jsstring)
  : list Product :=
  collect (List.map extractFromSection (rx_split plain sectionStart message)).

(* ================================================================= *)
(** ** Errors and JSON texts *)

(** An [Error] object: its message, its stack and, when it has one, its
    [code] property. *)
Record Error := mkError {
  err_message : jsstring;
  err_stack : jsstring;
  err_code : option json
}.

(** A thrown value: an [Error] object ([instanceof Error] holds) or any
    other value. *)
Inductive thrown : Type :=
| ErrorObject (e : Error)
| Thrown (v : jsval).

(** [new Error(message)]; the frames of the stack are left out. *)
Definition new_Error (message : jsstring) : thrown :=
  ErrorObject (mkError message (js "Error: " ++ message) None).

Definition new_TypeError (message : jsstring) : thrown :=
  ErrorObject (mkError message (js "TypeError: " ++ message) None).

Definition new_SyntaxError (message : jsstring) : thrown :=
  ErrorObject (mkError message (js "SyntaxError: " ++ message) None).

Definition truthy_thrown (t : thrown) : bool :=
  match t with
  | ErrorObject _ => true
  | Thrown v => truthy v
  end.

(** [error instanceof Error ? error.message : 'Unknown error'] *)
Definition messageOrUnknown (t : thrown) : jsstring :=
  match t with
  | ErrorObject e => err_message e
  | Thrown _ => js "Unknown error"
  end.

Inductive Res (A : Type) : Type :=
| Ok (a : A)
| Throw (t : thrown).

Arguments Ok {A} a.
Arguments Throw {A} t.

(** A text given to [JSON.parse] or made by [JSON.stringify]. The two
    functions are the runtime's: a text is kept as the value it is the
    JSON text of, or as a text that [JSON.parse] rejects. *)
Inductive json_text : Type :=
| JSON_stringify (v : json)
| Malformed (raw : jsstring).

Definition JSON_parse (t : json_text) : Res json :=
  match t with
  | JSON_stringify v => Ok v
  | Malformed raw =>
      Throw (new_SyntaxError (js "Unexpected token in JSON"))
  end.

(** The content of a message: plain text, or a JSON text. *)
Inductive content : Type :=
| Text (s : jsstring)
| Payload (t : json_text).

(* ================================================================= *)
(** ** Messages, tool calls and the collaborators *)

Inductive MessageRole : Type := system | user | assistant | tool.

(** [OpenAI.Chat.ChatCompletionMessageToolCall]; its [type] is always
    [function]. *)
Record ToolCall := mkToolCall {
  tc_id : jsstring;
  tc_name : jsstring;          (* function.name *)
  tc_arguments : json_text     (* function.arguments *)
}.

Record ChatMessageItem := mkItem {
  role : MessageRole;
  item_content : option content;
  tool_calls : option (list ToolCall);
  tool_call_id : option jsstring;
  item_name : option jsstring
}.

(** [choice.message] of a completion. *)
Record CompletionMessage := mkCompletion {
  cm_content : option jsstring;
  cm_tool_calls : option (list ToolCall)
}.

(** A row of [chat_messages]. *)
Record ChatMessage := mkChatMessage {
  id : jsstring;
  sessionId : jsstring;
  userMessage : option jsstring;
  assistantMessage : option jsstring;
  createdAt : Z;
  updatedAt : Z
}.

Record ChatMessageResponse := mkResponse {
  r_id : jsstring;
  r_sessionId : jsstring;
  r_userMessage : option jsstring;
  r_assistantMessage : option jsstring;
  r_products : list Product;
  r_createdAt : Z;
  r_updatedAt : Z
}.

(** The error member of what [supabase.rpc] resolves to. *)
Record PostgrestError := mkPostgrestError {
  pg_code : jsstring;
  pg_message : option jsstring
}.

Record RpcResult := mkRpcResult {
  rpc_data : option (list SupabaseDocument);
  rpc_error : option PostgrestError
}.

(** What the service does to the outside, in the order it does it. *)
Inductive Event : Type :=
| EvAgent (agentId : jsstring)
| EvHistory (sessionId : jsstring)
| EvCompletion (messages : list ChatMessageItem)
| EvToolCall (toolCall : ToolCall)
| EvAttempt (i : nat)
| EvEmbedding (text : jsstring)
| EvRpc (embedding : list number)
| EvSleep (ms : Z)
| EvWarn (text : jsstring)
| EvCreate (sessionId : jsstring) (userMessage assistantMessage : option jsstring).

(** The collaborators, as transformers of a world [W]: each may answer or
    throw.
    - [agent_findUnique]: the system prompt of the agent, [None] when
      there is no such agent;
    - [chatMessage_findMany]: the turns of a session, oldest first;
    - [chatMessage_create]: the stored row;
    - [completions_create]: [response.choices], each with its message,
      [None] when the choice has none;
    - [embeddings_create]: [res.data], each item by its embedding;
    - [rpc_match_documents]: what [supabase.rpc('match_documents', ...)]
      resolves to. *)
Record Providers (W : Type) := mkProviders {
  agent_findUnique : jsstring -> W -> Res (option jsstring) * W;
  chatMessage_findMany : jsstring -> W -> Res (list ChatMessage) * W;
  chatMessage_create :
    jsstring -> option jsstring -> option jsstring -> W -> Res ChatMessage * W;
  completions_create :
    list ChatMessageItem -> W -> Res (list (option CompletionMessage)) * W;
  embeddings_create : jsstring -> W -> Res (list (list number)) * W;
  rpc_match_documents : list number -> W -> Res RpcResult * W
}.

(* ================================================================= *)
(** ** The monad of the service: state, trace and exceptions *)

Record St (W : Type) := mkSt { world : W; trace : list Event }.

Definition M (W A : Type) : Type := St W -> Res A * St W.

Definition ret {W A} (a : A) : M W A := fun st => (Ok a, st).

Definition throw {W A} (t : thrown) : M W A := fun st => (Throw t, st).

Definition bind {W A B} (m : M W A) (f : A -> M W B) : M W B :=
  fun st =>
    match m st with
    | (Ok a, st') => f a st'
    | (Throw t, st') => (Throw t, st')
    end.

(** [try { m } catch (error) { handler }] *)
Definition try_catch {W A} (m : M W A) (handler : thrown -> M W A) : M W A :=
  fun st =>
    match m st with
    | (Ok a, st') => (Ok a, st')
    | (Throw t, st') => handler t st'
    end.

Definition emit {W} (e : Event) : M W unit :=
  fun st => (Ok tt, mkSt (world st) (trace st ++ [e])).

(** A call to a collaborator, recorded before it is made. *)
Definition call {W A} (e : Event) (op : W -> Res A * W) : M W A :=
  fun st =>
    let (r, w) := op (world st) in
    (r, mkSt w (trace st ++ [e])).

Definition lift {W A} (r : Res A) : M W A := fun st => (r, st).

Declare Scope monad_scope.
Delimit Scope monad_scope with monad.
Notation "x <- c ;; k" := (bind c (fun x => k))
  (at level 61, c at next level, right associativity) : monad_scope.
Notation "c ;;; k" := (bind c (fun _ => k))
  (at level 61, right associativity) : monad_scope.
Local Open Scope monad_scope.

(* ================================================================= *)
(** ** The retry wrapper *)

(** [error instanceof Error &&
     (error.message.includes('does not exist') ||
      error.message.includes('Missing Supabase'))] *)
Definition isConfigurationError (t : thrown) : bool :=
  match t with
  | ErrorObject e =>
      includes (err_message e) (js "does not exist")
      || includes (err_message e) (js "Missing Supabase")
  | Thrown _ => false
  end.

(** [setTimeout(resolve, delay)], awaited. *)
Definition sleep {W} (delay : Z) : M W unit := emit (EvSleep delay).

(** The loop of [withRetry] from attempt [i] on, with [todo] attempts
    left ([todo = maxRetries - i]). *)
Fixpoint withRetry_loop {W T} (fn : M W T) (maxRetries : nat) (baseDelay : Z)
  (todo i : nat) (lastError : option thrown) : M W T :=
  match todo with
  | O =>
      throw (match lastError with
             | Some e =>
                 if truthy_thrown e then e
                 else new_Error (js "Failed after retries")
             | None => new_Error (js "Failed after retries")
             end)
  | S todo' =>
      try_catch (emit (EvAttempt i) ;;; fn)
        (fun error =>
           if isConfigurationError error then throw error
           else
             (if S i <? maxRetries
              then sleep (baseDelay * 2 ^ Z.of_nat i)%Z
              else ret tt) ;;;
             withRetry_loop fn maxRetries baseDelay todo' (S i) (Some error))
  end.

Definition withRetry {W T} (fn : M W T) (maxRetries : nat) (baseDelay : Z)
  : M W T :=
  withRetry_loop fn maxRetries baseDelay maxRetries 0 None.

(* ================================================================= *)
(** ** Embedding client and knowledge search *)

Section Service.

Context {W : Type} (P : Providers W).

Definition getEmbedding (text : jsstring) : M W (list number) :=
  try_catch
    (data <- call (EvEmbedding text) (embeddings_create P text) ;;
     match data with
     | first :: _ => ret first
     | [] =>
         throw (new_TypeError
                  (js "Cannot read properties of undefined (reading 'embedding')"))
     end)
    (fun error =>
       throw (new_Error (js "Failed to create embedding: "
                         ++ messageOrUnknown error))).

(** [query] is [args.query]: any value, or [undefined]. A truthy value
    that is not a string has no [trim] method. The two [catch] blocks of
    the source throw again what they caught. *)
Definition searchSupabaseEmbedding (query : jsval)
  : M W (list SupabaseDocument) :=
  if negb (truthy query) then ret []
  else
    match query with
    | Some (JStr q) =>
        if length (trim q) =? 0 then ret []
        else
          embedding <- getEmbedding q ;;
          if length embedding =? 0 then ret []
          else
            res <- call (EvRpc embedding) (rpc_match_documents P embedding) ;;
            match rpc_error res with
            | Some error =>
                if (pg_code error === js "P0001")
                   || match pg_message error with
                      | Some m => includes m (js "function")
                      | None => false
                      end
                   || match pg_message error with
                      | Some m => includes m (js "does not exist")
                      | None => false
                      end
                then
                  throw (new_Error (js "The match_documents function does not exist in Supabase. Please ensure it is created in your database."))
                else
                  throw (new_Error
                           (js "Supabase error: "
                            ++ match pg_message error with
                               | Some m => m
                               | None => js "undefined"
                               end))
            | None =>
                ret (match rpc_data res with
                     | Some data => data
                     | None => []
                     end)
            end
    | _ => throw (new_TypeError (js "query.trim is not a function"))
    end.

(* ================================================================= *)
(** ** The tool invoker *)

Definition product_json (p : Product) : json :=
  JObj [(js "productId", JStr (productId p));
        (js "name", JStr (name p));
        (js "description", JStr (description p))].

Definition document_json (d : SupabaseDocument) : json :=
  JObj [(js "id", JStr (doc_id d));
        (js "content", JStr (doc_content d));
        (js "metadata", doc_metadata d);
        (js "similarity", JNum (doc_similarity d))].

Record ToolResult := mkToolResult {
  result : json_text;
  products : list Product
}.

Definition errorHint (errorMessage : jsstring) : jsstring :=
  if includes errorMessage (js "fetch failed") then
    js "Network connection issue. Check Supabase URL and internet connection."
  else if includes errorMessage (js "does not exist") then
    js "The match_documents function is missing. Please create it in your Supabase database."
  else if includes errorMessage (js "Missing Supabase") then
    js "Supabase environment variables are not configured."
  else [].

(** The payload of the [catch] block of [search_knowledge_base]. *)
Definition searchErrorPayload (error : thrown) : json :=
  JObj [(js "error", JStr (js "Failed to search knowledge base"));
        (js "message", JStr (messageOrUnknown error));
        (js "details",
         JStr (match error with
               | ErrorObject e => err_stack e
               | Thrown _ => []
               end));
        (js "hint", JStr (errorHint (messageOrUnknown error)));
        (js "code",
         match error with
         | ErrorObject e =>
             match err_code e with
             | Some c => c
             | None => JStr []
             end
         | Thrown _ => JStr []
         end);
        (js "products", JArr [])].

Definition unknownToolPayload (toolName : jsstring) : json :=
  JObj [(js "error", JStr (js "Unknown tool: " ++ toolName))].

(** [args.query]: reading a property of [null] throws. *)
Definition args_query (args : json) : M W jsval :=
  match args with
  | JNull =>
      throw (new_TypeError
               (js "Cannot read properties of null (reading 'query')"))
  | _ => ret (prop args "query")
  end.

Definition SEARCH_KNOWLEDGE_BASE : jsstring := js "search_knowledge_base".

Definition executeToolCall (toolCall : ToolCall) : M W ToolResult :=
  emit (EvToolCall toolCall) ;;;
  args <- lift (JSON_parse (tc_arguments toolCall)) ;;
  if tc_name toolCall === SEARCH_KNOWLEDGE_BASE then
    try_catch
      (query <- args_query args ;;
       docs <- withRetry (searchSupabaseEmbedding query) 3 1000 ;;
       match docs with
       | [] =>
           ret (mkToolResult
                  (JSON_stringify
                     (JObj [(js "message",
                             JStr (js "No documents found matching your query."));
                            (js "results", JArr []);
                            (js "products", JArr [])]))
                  [])
       | _ =>
           let products := extractProductsFromDocuments docs in
           ret (mkToolResult
                  (JSON_stringify
                     (JObj [(js "message",
                             JStr (js "Found " ++ decimal (length docs)
                                   ++ js " relevant document(s) containing "
                                   ++ decimal (length products)
                                   ++ js " product(s)."));
                            (js "results", JArr (List.map document_json docs));
                            (js "products",
                             JArr (List.map product_json products))]))
                  products)
       end)
      (fun error =>
         ret (mkToolResult (JSON_stringify (searchErrorPayload error)) []))
  else
    ret (mkToolResult
           (JSON_stringify (unknownToolPayload (tc_name toolCall))) []).

End Service.

(* ================================================================= *)
(** ** The conversation orchestrator *)

Fixpoint join (sep : jsstring) (l : list jsstring) : jsstring :=
  match l with
  | [] => []
  | [x] => x
  | x :: l' => x ++ sep ++ join sep l'
  end.

(** The template literal that wraps the agent's system prompt. *)
Definition enhancedSystemPrompt (systemPromptText : jsstring) : jsstring :=
  join [NL]
    [systemPromptText;
     [];
     js "IMPORTANT: When users ask about products or information in the knowledge base:";
     js "1. You MUST use the search_knowledge_base tool";
     js "2. Present ALL products found with their Product IDs clearly";
     js "3. Structure your response to list each product with:";
     js "   - Product ID";
     js "   - Product Name";
     js "   - Description";
     js "   - Any other relevant details";
     [];
     js "The search tool will return products in a structured format. Make sure to present all of them to the user."].

(** [a || null] on an optional string. *)
Definition orNull (a : option jsstring) : option jsstring :=
  match a with
  | Some (_ :: _) => a
  | _ => None
  end.

Definition plainItem (r : MessageRole) (s : jsstring) : ChatMessageItem :=
  mkItem r (Some (Text s)) None None None.

(** The entries of one stored turn. *)
Definition historyItems (msg : ChatMessage) : list ChatMessageItem :=
  match orNull (userMessage msg) with
  | Some u => [plainItem user u]
  | None => []
  end ++
  match orNull (assistantMessage msg) with
  | Some a => [plainItem assistant a]
  | None => []
  end.

(** [/knowledge\s*base|product|information|what\s+do\s+you\s+have|inventory|catalog/i] *)
Definition searchIntent : regex :=
  RAlts [RSeqs [RLit "knowledge"; spaces; RLit "base"];
         RLit "product";
         RLit "information";
         RSeqs [RLit "what"; whiteRun; RLit "do"; whiteRun; RLit "you";
                whiteRun; RLit "have"];
         RLit "inventory";
         RLit "catalog"].

Definition shouldUseSearch (content_ : jsstring) : bool :=
  rx_test caseless searchIntent content_.

Definition forcedSearch (content_ : jsstring) : ToolCall :=
  mkToolCall (js "forced-search") SEARCH_KNOWLEDGE_BASE
    (JSON_stringify (JObj [(js "query", JStr content_)])).

Definition toolItem (toolCall : ToolCall) (t : json_text) : ChatMessageItem :=
  mkItem tool (Some (Payload t)) None (Some (tc_id toolCall))
    (Some (tc_name toolCall)).

Definition toResponse (createdMessage : ChatMessage) (ps : list Product)
  : ChatMessageResponse :=
  mkResponse (id createdMessage) (sessionId createdMessage)
    (userMessage createdMessage) (assistantMessage createdMessage) ps
    (createdAt createdMessage) (updatedAt createdMessage).

(** [choices[0]?.message] *)
Definition firstMessage (choices : list (option CompletionMessage))
  : option CompletionMessage :=
  match choices with
  | first :: _ => first
  | [] => None
  end.

(** [toolCalls?.length] is falsy. *)
Definition noToolCalls (toolCalls : option (list ToolCall)) : bool :=
  match toolCalls with
  | Some (_ :: _) => false
  | _ => true
  end.

(** The system entry that lists the products found. *)
Definition reminder (uniqueProducts : list Product) : ChatMessageItem :=
  plainItem system
    (js "The search found " ++ decimal (length uniqueProducts)
     ++ js " products. Make sure to mention all of them in your response:"
     ++ [NL]
     ++ join [NL]
          (List.map (fun p => js "- Product ID: " ++ productId p
                              ++ js ", Name: " ++ name p)
             uniqueProducts)).

(** The two steps of [addMessage] between the follow-up completion and
    the write: products read from the final text when the tools found
    none, then the enrichment of whatever products there are. *)
Definition reconcileProducts (uniqueProducts : list Product)
  (finalContent : option jsstring) : list Product :=
  let withFallback :=
    match uniqueProducts, orNull finalContent with
    | [], Some text =>
        if includes text (js "Product ID")
        then uniqueProducts ++ extractProductsFromAssistantMessage text
        else uniqueProducts
    | _, _ => uniqueProducts
    end in
  match withFallback, orNull finalContent with
  | _ :: _, Some text =>
      enrichProducts withFallback (extractProductsFromAssistantMessage text)
  | _, _ => withFallback
  end.

Section Orchestrator.

Context {W : Type} (P : Providers W).

Definition createChatMessage (sessionId_ : jsstring)
  (userMessage_ assistantMessage_ : option jsstring) : M W ChatMessage :=
  call (EvCreate sessionId_ userMessage_ assistantMessage_)
    (chatMessage_create P sessionId_ userMessage_ assistantMessage_).

(** [openai.chat.completions.create]; the model and the tool schema are
    the same in every call. *)
Definition complete (messages : list ChatMessageItem)
  : M W (list (option CompletionMessage)) :=
  call (EvCompletion messages) (completions_create P messages).

(** The loop over the tool calls the first completion asked for. *)
Fixpoint runToolCalls (toolCalls : list ToolCall)
  (messages : list ChatMessageItem) (allProducts : list Product)
  : M W (list ChatMessageItem * list Product) :=
  match toolCalls with
  | [] => ret (messages, allProducts)
  | toolCall :: rest =>
      step <-
        try_catch
          (r <- executeToolCall P toolCall ;;
           ret (messages ++ [toolItem toolCall (result r)],
                allProducts ++ products r))
          (fun error =>
             ret (messages ++
                  [toolItem toolCall
                     (JSON_stringify
                        (JObj [(js "error",
                                JStr (js "Failed to execute "
                                      ++ tc_name toolCall));
                               (js "details",
                                JStr (messageOrUnknown error))]))],
                  allProducts)) ;;
      runToolCalls rest (fst step) (snd step)
  end.

(** The plain answer: [createChatMessage(sessionId, content,
    assistantContent || null)] and no products. *)
Definition directAnswer (sessionId_ content_ : jsstring)
  (assistantContent : option jsstring) : M W ChatMessageResponse :=
  createdMessage <-
    createChatMessage sessionId_ (Some content_) (orNull assistantContent) ;;
  ret (toResponse createdMessage []).

(** The branch taken when the first completion asked for no tool but the
    user's text looks like a question for the knowledge base. *)
Definition forcedAnswer (sessionId_ content_ : jsstring)
  (messages : list ChatMessageItem) (assistantContent : option jsstring)
  : M W ChatMessageResponse :=
  searchResult <- executeToolCall P (forcedSearch content_) ;;
  let allProducts := products searchResult in
  let messages' :=
    messages ++
    [mkItem assistant None (Some [forcedSearch content_]) None None;
     toolItem (forcedSearch content_) (result searchResult)] in
  retryChoices <- complete messages' ;;
  match match firstMessage retryChoices with
        | Some m => orNull (cm_content m)
        | None => None
        end with
  | Some retryContent =>
      createdMessage <-
        createChatMessage sessionId_ (Some content_) (Some retryContent) ;;
      ret (toResponse createdMessage allProducts)
  | None => directAnswer sessionId_ content_ assistantContent
  end.

(** The branch taken when the first completion asked for tools. *)
Definition toolAnswer (sessionId_ content_ : jsstring)
  (messages : list ChatMessageItem) (assistantContent : option jsstring)
  (toolCalls : list ToolCall) : M W ChatMessageResponse :=
  ran <-
    runToolCalls toolCalls
      (messages ++
       [mkItem assistant (option_map Text assistantContent) (Some toolCalls)
          None None])
      [] ;;
  let uniqueProducts := uniqueByProductId (snd ran) in
  let followUpMessages :=
    fst ran ++
    match uniqueProducts with
    | [] => []
    | _ => [reminder uniqueProducts]
    end in
  choices <- complete followUpMessages ;;
  match firstMessage choices with
  | None => throw (new_Error (js "No follow-up response from OpenAI"))
  | Some finalMessage =>
      let finalContent := cm_content finalMessage in
      (if noToolCalls (cm_tool_calls finalMessage) then ret tt
       else emit (EvWarn (js "Additional tool calls detected in follow-up response, ignoring for now"))) ;;;
      let reconciled := reconcileProducts uniqueProducts finalContent in
      createdMessage <-
        createChatMessage sessionId_ (Some content_) (orNull finalContent) ;;
      ret (toResponse createdMessage reconciled)
  end.

(** The head of [addMessage], up to the first completion: the message
    list sent to the provider and [choices[0]?.message] of its answer. *)
Definition firstRound (sessionId_ content_ agentId : jsstring)
  : M W (list ChatMessageItem * option CompletionMessage) :=
  agent <- call (EvAgent agentId) (agent_findUnique P agentId) ;;
  let systemPromptText :=
    match agent with
    | Some systemPrompt => systemPrompt
    | None => js "You are a helpful assistant."
    end in
  previousMessages <-
    call (EvHistory sessionId_) (chatMessage_findMany P sessionId_) ;;
  let chatHistory := flat_map historyItems previousMessages in
  let messages :=
    [plainItem system (enhancedSystemPrompt systemPromptText)]
    ++ chatHistory ++ [plainItem user content_] in
  choices <- complete messages ;;
  ret (messages, firstMessage choices).

Definition addMessage (sessionId_ content_ agentId : jsstring)
  : M W ChatMessageResponse :=
  round <- firstRound sessionId_ content_ agentId ;;
  let messages := fst round in
  match snd round with
  | None => throw (new_Error (js "No response from OpenAI"))
  | Some message =>
      let assistantContent := cm_content message in
      match cm_tool_calls message with
      | Some (toolCall :: rest) =>
          toolAnswer sessionId_ content_ messages assistantContent
            (toolCall :: rest)
      | _ =>
          if shouldUseSearch content_
          then forcedAnswer sessionId_ content_ messages assistantContent
          else directAnswer sessionId_ content_ assistantContent
      end
  end.

End Orchestrator.

(* ================================================================= *)
(** ** The chat controller *)

(** A row of [chat_sessions], as far as the controller reads it. *)
Record ChatSession := mkChatSession {
  cs_id : jsstring;
  cs_agentId : option jsstring
}.

(** What a handler gives to [res.status(...).json(...)]. *)
Inductive ReplyBody : Type :=
| ErrorBody (error : jsstring)
| ResultBody (result : ChatMessageResponse).

Record Reply := mkReply { reply_status : nat; reply_body : ReplyBody }.

Section Controller.

Context {W : Type} (P : Providers W).

(** [prisma.chatSession.findUnique({ where: { id } })] *)
Context (chatSession_findUnique :
           jsstring -> W -> Res (option ChatSession) * W).

Definition ensureSessionExists (sessionId_ : jsstring)
  : M W (option ChatSession) :=
  fun st =>
    let (r, w) := chatSession_findUnique sessionId_ (world st) in
    (r, mkSt w (trace st)).

(** [createChat] of the chat controller. The route validates the body
    before the handler runs, so [content] is a string; [sessionId] is the
    route parameter. *)
Definition createChat (sessionId_ content_ : jsstring) : M W Reply :=
  if (sessionId_ === []) || (content_ === []) then
    ret (mkReply 400
           (ErrorBody (js "Session ID and content are required")))
  else
    session <- ensureSessionExists sessionId_ ;;
    match session with
    | None => ret (mkReply 404 (ErrorBody (js "Session not found")))
    | Some session =>
        match orNull (cs_agentId session) with
        | None => ret (mkReply 400 (ErrorBody (js "Agent ID is required")))
        | Some agentId =>
            result <- addMessage P sessionId_ content_ agentId ;;
            ret (mkReply 201 (ResultBody result))
        end
    end.

End Controller.

(* ================================================================= *)
(** * Properties *)

(** ** Strings *)

Lemma str_eqb_refl (a : jsstring) : a === a = true.
Proof.
  induction a as [|x a IH]; simpl; [reflexivity|].
  now rewrite N.eqb_refl, IH.
Qed.

Lemma str_eqb_eq (a b : jsstring) : a === b = true <-> a = b.
Proof.
  split.
  - revert b; induction a as [|x a IH]; intros [|y b] H; simpl in H;
      try discriminate; [reflexivity|].
    apply andb_true_iff in H as [Hx Ha].
    apply N.eqb_eq in Hx. apply IH in Ha. now subst.
  - intros ->. apply str_eqb_refl.
Qed.

Lemma str_eqb_neq (a b : jsstring) : a === b = false <-> a <> b.
Proof.
  split.
  - intros H E. apply str_eqb_eq in E. congruence.
  - intros H. destruct (a === b) eqn:E; [|reflexivity].
    apply str_eqb_eq in E. contradiction.
Qed.

Lemma str_eqb_sym (a b : jsstring) : (a === b) = (b === a).
Proof.
  destruct (a === b) eqn:E.
  - apply str_eqb_eq in E. subst. symmetry. apply str_eqb_refl.
  - symmetry. apply str_eqb_neq. apply str_eqb_neq in E. congruence.
Qed.

(** ** Duplicate removal *)

Section Dedup.

Let same (x p : Product) : bool := productId p === productId x.

Lemma same_refl x : same x x = true.
Proof. apply str_eqb_refl. Qed.

Lemma findIndex_from_skip (pred : Product -> bool) pre post i :
  existsb pred pre = false ->
  findIndex_from pred (pre ++ post) i
  = findIndex_from pred post (i + Z.of_nat (length pre))%Z.
Proof.
  revert i; induction pre as [|x pre IH]; intros i H; simpl in *.
  - f_equal. lia.
  - apply orb_false_iff in H as [Hx Hpre]. rewrite Hx, IH by assumption.
    f_equal. lia.
Qed.

Lemma findIndex_from_hit (pred : Product -> bool) pre post i :
  existsb pred pre = true ->
  (i <= findIndex_from pred (pre ++ post) i < i + Z.of_nat (length pre))%Z.
Proof.
  revert i; induction pre as [|x pre IH]; intros i H; simpl in *.
  - discriminate.
  - destruct (pred x); [lia|]. simpl in H. specialize (IH (i + 1)%Z H). lia.
Qed.

(** An element passes the filter exactly when no earlier element has its
    identifier. *)
Lemma is_first_index pre x post :
  Z.eqb (Z.of_nat (length pre))
        (findIndex (same x) (pre ++ x :: post))
  = negb (existsb (same x) pre).
Proof.
  unfold findIndex. destruct (existsb (same x) pre) eqn:E; simpl.
  - apply Z.eqb_neq.
    pose proof (findIndex_from_hit (same x) pre (x :: post) 0 E). lia.
  - rewrite findIndex_from_skip by assumption. simpl.
    rewrite same_refl. apply Z.eqb_eq. lia.
Qed.

(** The same removal, told by the identifiers already seen. *)
Fixpoint nubBy (seen : list jsstring) (l : list Product) : list Product :=
  match l with
  | [] => []
  | x :: r =>
      if existsb (fun k => k === productId x) seen then nubBy seen r
      else x :: nubBy (productId x :: seen) r
  end.

Lemma filter_is_nubBy pre suf seen :
  (forall x, existsb (fun k => k === productId x) seen
             = existsb (same x) pre) ->
  filter_from
    (fun product index =>
       Z.eqb index (findIndex (same product) (pre ++ suf)))
    suf (Z.of_nat (length pre))
  = nubBy seen suf.
Proof.
  revert pre seen; induction suf as [|x suf IH]; intros pre seen Hseen;
    simpl; [reflexivity|].
  rewrite is_first_index, Hseen.
  replace (Z.of_nat (length pre) + 1)%Z
    with (Z.of_nat (length (pre ++ [x]))) by (rewrite length_app; simpl; lia).
  replace (pre ++ x :: suf) with ((pre ++ [x]) ++ suf)
    by (rewrite <- app_assoc; reflexivity).
  destruct (existsb (same x) pre) eqn:E; simpl.
  - apply IH. intros y. rewrite existsb_app, Hseen. simpl.
    destruct (same y x) eqn:Eyx; [|now rewrite !orb_false_r].
    rewrite orb_true_r.
    unfold same in Eyx. apply str_eqb_eq in Eyx.
    unfold same in *. rewrite <- Eyx. exact E.
  - f_equal. apply IH. intros y. rewrite existsb_app. simpl.
    rewrite Hseen, orb_false_r. unfold same. apply orb_comm.
Qed.

Lemma uniqueByProductId_nubBy l : uniqueByProductId l = nubBy [] l.
Proof.
  unfold uniqueByProductId, filterIndexed.
  apply (filter_is_nubBy [] l []). reflexivity.
Qed.

Lemma nubBy_idem seen' seen l :
  (forall k, existsb (fun k' => k' === k) seen' = true ->
             existsb (fun k' => k' === k) seen = true) ->
  nubBy seen' (nubBy seen l) = nubBy seen l.
Proof.
  revert seen' seen; induction l as [|x l IH]; intros seen' seen Hsub;
    simpl; [reflexivity|].
  destruct (existsb (fun k => k === productId x) seen) eqn:E.
  - apply IH, Hsub.
  - simpl. destruct (existsb (fun k => k === productId x) seen') eqn:E'.
    + apply Hsub in E'. congruence.
    + f_equal. apply IH. intros k. simpl.
      destruct (productId x === k); simpl; [reflexivity|]. apply Hsub.
Qed.

Lemma nubBy_keys seen l k :
  In k (List.map productId (nubBy seen l)) ->
  existsb (fun k' => k' === k) seen = false.
Proof.
  revert seen; induction l as [|x l IH]; intros seen H; simpl in H;
    [contradiction|].
  destruct (existsb (fun k' => k' === productId x) seen) eqn:E.
  - now apply IH.
  - destruct H as [<-|H]; [assumption|].
    apply IH in H. simpl in H. now apply orb_false_iff in H as [_ H].
Qed.

Lemma nubBy_NoDup seen l : NoDup (List.map productId (nubBy seen l)).
Proof.
  revert seen; induction l as [|x l IH]; intros seen; simpl;
    [constructor|].
  destruct (existsb (fun k => k === productId x) seen); [apply IH|].
  simpl. constructor; [|apply IH].
  intros H. apply nubBy_keys in H. simpl in H.
  now rewrite str_eqb_refl in H.
Qed.

Lemma in_nubBy seen l p :
  In p (nubBy seen l) <->
  exists pre post,
    l = pre ++ p :: post
    /\ existsb (fun k => k === productId p) seen = false
    /\ forall q, In q pre -> productId q <> productId p.
Proof.
  revert seen; induction l as [|x l IH]; intros seen; simpl.
  - split; [contradiction|]. intros (pre & post & H & _).
    now destruct pre.
  - destruct (existsb (fun k => k === productId x) seen) eqn:E.
    + rewrite IH. split.
      * intros (pre & post & -> & Hs & Hpre).
        exists (x :: pre), post. repeat split; [assumption|].
        intros q [<-|Hq]; [|now apply Hpre].
        intros Heq. rewrite Heq in E. congruence.
      * intros (pre & post & Hl & Hs & Hpre). destruct pre as [|y pre].
        -- simpl in Hl. injection Hl as -> ->. congruence.
        -- simpl in Hl. injection Hl as -> ->.
           exists pre, post. repeat split; [assumption|].
           intros q Hq. apply Hpre. now right.
    + split.
      * intros [<-|H].
        -- exists [], l. repeat split; [assumption|]. intros q [].
        -- apply IH in H as (pre & post & -> & Hs & Hpre).
           simpl in Hs. apply orb_false_iff in Hs as [Hx Hs].
           exists (x :: pre), post. repeat split; [assumption|].
           intros q [<-|Hq]; [|now apply Hpre]. now apply str_eqb_neq.
      * intros (pre & post & Hl & Hs & Hpre). destruct pre as [|y pre].
        -- simpl in Hl. injection Hl as -> ->. now left.
        -- simpl in Hl. injection Hl as -> ->. right. apply IH.
           exists pre, post. repeat split.
           ++ simpl. rewrite Hs, orb_false_r. apply str_eqb_neq.
              apply Hpre. now left.
           ++ intros q Hq. apply Hpre. now right.
Qed.

End Dedup.

(** C2. The removal of duplicates by [productId] is idempotent (applying
    it a second time changes nothing, so the two results are the same
    set), its result has no two records with one [productId], and a record
    is in the result exactly when it stands in the list before every other
    record with its [productId]: the first occurrence is the one kept. *)
Theorem uniqueByProductId_idempotent_first (products : list Product) :
  uniqueByProductId (uniqueByProductId products) = uniqueByProductId products
  /\ NoDup (List.map productId (uniqueByProductId products))
  /\ forall p,
       In p (uniqueByProductId products) <->
       exists pre post,
         products = pre ++ p :: post
         /\ forall q, In q pre -> productId q <> productId p.
Proof.
  rewrite !uniqueByProductId_nubBy. repeat split.
  - apply nubBy_idem. auto.
  - apply nubBy_NoDup.
  - intros H. apply in_nubBy in H as (pre & post & Hl & _ & Hpre). eauto.
  - intros (pre & post & Hl & Hpre). apply in_nubBy.
    exists pre, post. repeat split; assumption.
Qed.

(** ** Reconciliation *)

(** What the enrichment may do to one record: the identifier stays, and a
    field differs from the original only if the original held the
    placeholder and the value comes from a record of the assistant's text
    with the same identifier that does not hold the placeholder. *)
Definition reconciled (assistantProducts : list Product)
  (product enriched : Product) : Prop :=
  productId enriched = productId product
  /\ (name product <> placeholderName (productId product) ->
      name enriched = name product)
  /\ (description product <> NO_DESCRIPTION ->
      description enriched = description product)
  /\ (name enriched <> name product ->
      name product = placeholderName (productId product)
      /\ exists ap,
           In ap assistantProducts
           /\ productId ap = productId product
           /\ name ap <> placeholderName (productId product)
           /\ name enriched = name ap)
  /\ (description enriched <> description product ->
      description product = NO_DESCRIPTION
      /\ exists ap,
           In ap assistantProducts
           /\ productId ap = productId product
           /\ description ap <> NO_DESCRIPTION
           /\ description enriched = description ap).

Lemma enrichProduct_reconciled assistantProducts product :
  reconciled assistantProducts product
    (enrichProduct assistantProducts product).
Proof.
  unfold reconciled, enrichProduct.
  destruct (find _ assistantProducts) as [ap|] eqn:F.
  2: { split; [reflexivity|].
       split; [reflexivity|]. split; [reflexivity|].
       split; intros H; now contradiction H. }
  apply find_some in F as [Hin Hid]. apply str_eqb_eq in Hid.
  simpl. split; [reflexivity|]. split; [|split; [|split]].
  - intros Hn. apply str_eqb_neq in Hn. now rewrite Hn.
  - intros Hd. apply str_eqb_neq in Hd. now rewrite Hd.
  - intros H.
    destruct (name product === _) eqn:E1; simpl in H;
      [|now contradiction H].
    destruct (name ap === _) eqn:E2; simpl in H; [now contradiction H|].
    apply str_eqb_eq in E1. apply str_eqb_neq in E2.
    split; [assumption|]. exists ap. repeat split; assumption.
  - intros H.
    destruct (description product === _) eqn:E1; simpl in H;
      [|now contradiction H].
    destruct (description ap === _) eqn:E2; simpl in H;
      [now contradiction H|].
    apply str_eqb_eq in E1. apply str_eqb_neq in E2.
    split; [assumption|]. exists ap. repeat split; assumption.
Qed.

(** C3. The reconciliation of [addMessage] goes through the
    document-derived records in order and, for each, never replaces a name
    or a description that holds a value other than the placeholder; a
    field takes the value of the assistant-text record with the same
    [productId] only when the document-derived field holds the
    placeholder ([Product {productId}], [No description available]) and
    the assistant-text value is not that placeholder. *)
Theorem reconciliation_monotone
  (uniqueProducts assistantProducts : list Product) :
  Forall2 (reconciled assistantProducts) uniqueProducts
    (enrichProducts uniqueProducts assistantProducts).
Proof.
  unfold enrichProducts.
  induction uniqueProducts as [|product rest IH]; simpl; constructor.
  - apply enrichProduct_reconciled.
  - exact IH.
Qed.

(** ** The retry wrapper *)

(** An operation on the world, as the [fn] of [withRetry]. *)
Definition invoke {W T} (op : W -> Res T * W) : M W T :=
  fun st => let (r, w) := op (world st) in (r, mkSt w (trace st)).

(** [fails_seq op w es w']: called again and again from the world [w],
    the operation fails with the errors [es], one after the other, and
    leaves the world [w']. *)
Inductive fails_seq {W T} (op : W -> Res T * W)
  : W -> list thrown -> W -> Prop :=
| fails_nil w : fails_seq op w [] w
| fails_cons w e w1 es w2 :
    op w = (Throw e, w1) -> fails_seq op w1 es w2 ->
    fails_seq op w (e :: es) w2.

(** The trace of [k] failed attempts from attempt [i] on, each followed
    by its wait. *)
Fixpoint failed_attempts (baseDelay : Z) (i k : nat) : list Event :=
  match k with
  | O => []
  | S k' =>
      EvAttempt i :: EvSleep (baseDelay * 2 ^ Z.of_nat i)%Z
      :: failed_attempts baseDelay (S i) k'
  end.

(** The trace of a run that ends at its attempt number [k] (zero-based). *)
Definition retry_trace (baseDelay : Z) (k : nat) : list Event :=
  failed_attempts baseDelay 0 k ++ [EvAttempt k].

Definition attempts (t : list Event) : nat :=
  length (filter (fun e => match e with EvAttempt _ => true | _ => false end) t).

Fixpoint delays (t : list Event) : list Z :=
  match t with
  | [] => []
  | EvSleep ms :: t' => ms :: delays t'
  | _ :: t' => delays t'
  end.

Lemma attempts_app t1 t2 : attempts (t1 ++ t2) = attempts t1 + attempts t2.
Proof. unfold attempts. now rewrite filter_app, length_app. Qed.

Lemma delays_app t1 t2 : delays (t1 ++ t2) = delays t1 ++ delays t2.
Proof.
  induction t1 as [|e t1 IH]; simpl; [reflexivity|].
  destruct e; simpl; now rewrite ?IH.
Qed.

Lemma attempts_failed baseDelay i k :
  attempts (failed_attempts baseDelay i k) = k.
Proof.
  revert i; induction k as [|k IH]; intros i; [reflexivity|].
  simpl. change (S (attempts (failed_attempts baseDelay (S i) k)) = S k).
  now rewrite IH.
Qed.

Lemma delays_failed baseDelay i k :
  delays (failed_attempts baseDelay i k)
  = List.map (fun j => (baseDelay * 2 ^ Z.of_nat j)%Z) (seq i k).
Proof.
  revert i; induction k as [|k IH]; intros i; [reflexivity|].
  simpl. now rewrite IH.
Qed.

Lemma attempts_retry_trace baseDelay k :
  attempts (retry_trace baseDelay k) = S k.
Proof.
  unfold retry_trace. rewrite attempts_app, attempts_failed.
  simpl. unfold attempts. simpl. lia.
Qed.

Lemma delays_retry_trace baseDelay k :
  delays (retry_trace baseDelay k)
  = List.map (fun j => (baseDelay * 2 ^ Z.of_nat j)%Z) (seq 0 k).
Proof.
  unfold retry_trace. rewrite delays_app, delays_failed. simpl.
  apply app_nil_r.
Qed.

Section Retry.

Context {W T : Type} (op : W -> Res T * W) (maxRetries : nat) (baseDelay : Z).

(** The failed attempts that are followed by another one. *)
Lemma withRetry_loop_fails es : forall w w1 t todo i lastError,
  fails_seq op w es w1 ->
  Forall (fun e => isConfigurationError e = false) es ->
  i + todo = maxRetries ->
  length es < todo ->
  withRetry_loop (invoke op) maxRetries baseDelay todo i lastError
    (mkSt w t)
  = withRetry_loop (invoke op) maxRetries baseDelay
      (todo - length es) (i + length es)
      (match es with [] => lastError | _ => Some (last es (Thrown None)) end)
      (mkSt w1 (t ++ failed_attempts baseDelay i (length es))).
Proof.
  induction es as [|e es IH]; intros w w1 t todo i lastError Hf Hr Hi Hlen;
    revert Hi.
  - inversion Hf; subst; intros Hi. simpl.
    now rewrite Nat.sub_0_r, Nat.add_0_r, app_nil_r.
  - inversion Hf as [|? ? wm ? ? Hop Hrest]; subst.
    inversion Hr as [|? ? He Hr']; subst. intros Hi.
    destruct todo as [|todo]; [simpl in Hlen; lia|].
    simpl in Hlen.
    cbn [withRetry_loop].
    unfold try_catch at 1, bind at 1, emit at 1, invoke at 1.
    cbn [world trace]. rewrite Hop, He.
    assert (Hs : (S i <? maxRetries) = true) by (apply Nat.ltb_lt; lia).
    rewrite Hs. unfold bind at 1, sleep, emit. cbn [world trace].
    rewrite (IH wm w1 _ todo (S i) (Some e)) by (try assumption; lia).
    cbn [length failed_attempts].
    replace (S todo - S (length es)) with (todo - length es) by lia.
    replace (i + S (length es)) with (S i + length es) by lia.
    rewrite <- !app_assoc. cbn [app].
    f_equal. destruct es; reflexivity.
Qed.

(** The attempt that ends the run. *)
Lemma withRetry_loop_ends w r w2 t todo i lastError :
  op w = (r, w2) ->
  i + S todo = maxRetries ->
  match r with
  | Ok _ => True
  | Throw e =>
      isConfigurationError e = true
      \/ (todo = 0 /\ isConfigurationError e = false /\ truthy_thrown e = true)
  end ->
  withRetry_loop (invoke op) maxRetries baseDelay (S todo) i lastError
    (mkSt w t)
  = (r, mkSt w2 (t ++ [EvAttempt i])).
Proof.
  intros Hop Hi Hr. cbn [withRetry_loop].
  unfold try_catch, bind at 1, emit, invoke. cbn [world trace].
  rewrite Hop. destruct r as [v|e]; [reflexivity|].
  destruct Hr as [Hc|(-> & Hc & Ht)]; rewrite Hc; [reflexivity|].
  assert (Hs : (S i <? maxRetries) = false) by (apply Nat.ltb_ge; lia).
  rewrite Hs. unfold bind, ret. cbn [withRetry_loop]. now rewrite Ht.
Qed.

Lemma withRetry_run es w w1 r w2 t :
  fails_seq op w es w1 ->
  Forall (fun e => isConfigurationError e = false) es ->
  length es < maxRetries ->
  op w1 = (r, w2) ->
  match r with
  | Ok _ => True
  | Throw e =>
      isConfigurationError e = true
      \/ (S (length es) = maxRetries
          /\ isConfigurationError e = false /\ truthy_thrown e = true)
  end ->
  withRetry (invoke op) maxRetries baseDelay (mkSt w t)
  = (r, mkSt w2 (t ++ retry_trace baseDelay (length es))).
Proof.
  intros Hf Hes Hlen Hop Hr. unfold withRetry.
  rewrite (@withRetry_loop_fails es w w1 t maxRetries 0 None Hf Hes
             eq_refl Hlen).
  cbn [Nat.add].
  destruct (maxRetries - length es) as [|todo] eqn:E; [lia|].
  rewrite (withRetry_loop_ends (r:=r) (w2:=w2)); try assumption; try lia.
  - unfold retry_trace. now rewrite <- app_assoc.
  - destruct r as [v|e]; [exact I|].
    destruct Hr as [Hc|(Hn & Hc & Ht)]; [now left|right].
    repeat split; try assumption. lia.
Qed.

(** The run that fails in its last attempt, whatever was thrown there:
    [throw lastError || new Error('Failed after retries')]. *)
Lemma withRetry_run_exhausted es w w1 e w2 t :
  fails_seq op w es w1 ->
  Forall (fun e => isConfigurationError e = false) es ->
  S (length es) = maxRetries ->
  op w1 = (Throw e, w2) ->
  withRetry (invoke op) maxRetries baseDelay (mkSt w t)
  = (Throw (if truthy_thrown e then e
            else new_Error (js "Failed after retries")),
     mkSt w2 (t ++ retry_trace baseDelay (length es))).
Proof.
  intros Hf Hes Hn Hop.
  destruct (isConfigurationError e) eqn:Hc.
  - assert (Ht : truthy_thrown e = true) by (destruct e; [reflexivity|discriminate]).
    rewrite Ht. apply withRetry_run with (w1 := w1); auto. lia.
  - unfold withRetry.
    rewrite (@withRetry_loop_fails es w w1 t maxRetries 0 None Hf Hes
               eq_refl ltac:(lia)).
    cbn [Nat.add].
    replace (maxRetries - length es) with 1 by lia.
    cbn [withRetry_loop].
    unfold try_catch, bind at 1, emit, invoke. cbn [world trace].
    rewrite Hop, Hc.
    assert (Hs : (S (length es) <? maxRetries) = false)
      by (apply Nat.ltb_ge; lia).
    rewrite Hs. unfold bind, ret, throw. cbn [withRetry_loop].
    unfold retry_trace. now rewrite <- app_assoc.
Qed.

End Retry.

(** C4. Let the operation fail with the errors [es], none of them a
    configuration error, and then give [r], with [length es] below
    [maxRetries]. The run of [withRetry] calls the operation
    [length es + 1] times, waits [baseDelay * 2^i] after the failed
    attempt [i] (zero-based) and before the next one, and
    - returns the value when [r] is a success (the operation failed
      [n - 1] times and then succeeded, [n <= maxRetries]: [n] calls);
    - fails with the error at once when [r] is an error whose message
      contains [does not exist] or [Missing Supabase] (with no failure
      before it: exactly one call);
    - when [r] is a failure of the attempt number [maxRetries], fails
      with what that attempt threw if that is truthy, and with
      [Error('Failed after retries')] if it is a falsy value. *)
Theorem withRetry_contract {W T} (op : W -> Res T * W)
  (maxRetries : nat) (baseDelay : Z)
  (es : list thrown) (w w1 w2 : W) (r : Res T) (t : list Event) :
  fails_seq op w es w1 ->
  Forall (fun e => isConfigurationError e = false) es ->
  length es < maxRetries ->
  op w1 = (r, w2) ->
  let run := withRetry (invoke op) maxRetries baseDelay (mkSt w t) in
  let done := mkSt w2 (t ++ retry_trace baseDelay (length es)) in
  (forall v, r = Ok v -> run = (Ok v, done))
  /\ (forall e, r = Throw e -> isConfigurationError e = true ->
      run = (Throw e, done))
  /\ (forall e, r = Throw e -> S (length es) = maxRetries ->
      run = (Throw (if truthy_thrown e then e
                    else new_Error (js "Failed after retries")),
             done))
  /\ attempts (retry_trace baseDelay (length es)) = S (length es)
  /\ delays (retry_trace baseDelay (length es))
     = List.map (fun i => (baseDelay * 2 ^ Z.of_nat i)%Z)
         (seq 0 (length es)).
Proof.
  intros Hf Hes Hlen Hop run done. subst run done.
  split; [|split; [|split; [|split]]].
  - intros v ->. now apply withRetry_run with (w1 := w1).
  - intros e -> Hc. apply withRetry_run with (w1 := w1); auto.
  - intros e -> Hn. now apply withRetry_run_exhausted with (w1 := w1).
  - apply attempts_retry_trace.
  - apply delays_retry_trace.
Qed.

(** An operation that gives the results of a script, one per call. *)
Definition scripted {T} (w : list (Res T)) : Res T * list (Res T) :=
  match w with
  | r :: w' => (r, w')
  | [] => (Throw (new_Error (js "nothing left")), [])
  end.

Definition fetchFailed : thrown := new_Error (js "TypeError: fetch failed").

Definition missingFunction : thrown :=
  new_Error (js "The match_documents function does not exist in Supabase. Please ensure it is created in your database.").

(** [throw null] *)
Definition thrownNull : thrown := Thrown (Some JNull).

Lemma withRetry_contract_witness :
  withRetry (invoke scripted) 3 1000
    (mkSt [Throw fetchFailed; Throw fetchFailed; Ok 7%nat] [])
  = (Ok 7%nat,
     mkSt [] [EvAttempt 0; EvSleep 1000; EvAttempt 1; EvSleep 2000;
              EvAttempt 2])
  /\ withRetry (invoke scripted) 3 1000
       (mkSt [Throw missingFunction; Ok 7%nat] [])
     = (Throw missingFunction, mkSt [Ok 7%nat] [EvAttempt 0])
  /\ withRetry (invoke scripted) 2 1000
       (mkSt [Throw fetchFailed; Throw fetchFailed; Ok 7%nat] [])
     = (Throw fetchFailed,
        mkSt [Ok 7%nat] [EvAttempt 0; EvSleep 1000; EvAttempt 1]).
Proof.
  split; [|split].
  - refine (proj1 (@withRetry_contract _ nat scripted 3 1000
                     [fetchFailed; fetchFailed] _ [Ok 7%nat] []
                     (Ok 7%nat) [] _ _ _ _) 7%nat eq_refl).
    + apply fails_cons with (w1 := [Throw fetchFailed; Ok 7%nat]);
        [reflexivity|].
      apply fails_cons with (w1 := [Ok 7%nat]); [reflexivity|].
      apply fails_nil.
    + repeat constructor.
    + simpl; lia.
    + reflexivity.
  - refine (proj1 (proj2 (@withRetry_contract _ nat scripted 3 1000
                     [] _ _ [Ok 7%nat] (Throw missingFunction) [] _ _ _ _))
              missingFunction eq_refl _).
    + apply fails_nil.
    + constructor.
    + simpl; lia.
    + reflexivity.
    + reflexivity.
  - refine (proj1 (proj2 (proj2 (@withRetry_contract _ nat scripted 2 1000
                     [fetchFailed] _ [Throw fetchFailed; Ok 7%nat]
                     [Ok 7%nat] (Throw fetchFailed) [] _ _ _ _)))
              fetchFailed eq_refl eq_refl).
    + apply fails_cons with (w1 := [Throw fetchFailed; Ok 7%nat]);
        [reflexivity|].
      apply fails_nil.
    + repeat constructor.
    + simpl; lia.
    + reflexivity.
Defined.

(** C4 as stated does not hold: here the operation fails twice, the
    second time with [throw null], and two attempts are allowed. The
    attempts are used up, and the wrapper fails with
    [Error('Failed after retries')], which is not the last error
    observed. *)
Lemma withRetry_contract_counterexample :
  withRetry (invoke scripted) 2 1000
    (mkSt [Throw fetchFailed; Throw thrownNull; Ok 7%nat] [])
  = (Throw (new_Error (js "Failed after retries")),
     mkSt [Ok 7%nat] [EvAttempt 0; EvSleep 1000; EvAttempt 1])
  /\ new_Error (js "Failed after retries") <> thrownNull.
Proof. split; [reflexivity | discriminate]. Qed.

(** ** Knowledge search *)

Lemma trimStart_nil s :
  trimStart s = [] <-> Forall (fun c => isWhiteSpace c = true) s.
Proof.
  induction s as [|c s IH]; simpl.
  - split; [constructor | reflexivity].
  - destruct (isWhiteSpace c) eqn:E.
    + rewrite IH. split; [now constructor|]. now inversion 1.
    + split; [discriminate|]. inversion 1; congruence.
Qed.

Lemma trimStart_head s c r :
  trimStart s = c :: r -> isWhiteSpace c = false.
Proof.
  induction s as [|x s IH]; simpl; [discriminate|].
  destruct (isWhiteSpace x) eqn:E; [exact IH|]. now intros [= <- _].
Qed.

(** [s.trim()] is empty exactly when [s] is made of white space. *)
Lemma trim_nil s : trim s = [] <-> Forall (fun c => isWhiteSpace c = true) s.
Proof.
  unfold trim, trimEnd. split.
  - intros H. apply (f_equal (@rev N)) in H. rewrite rev_involutive in H.
    simpl in H. apply trimStart_nil in H.
    apply Forall_rev in H. rewrite rev_involutive in H.
    destruct (trimStart s) as [|c r] eqn:E; [now apply trimStart_nil|].
    apply trimStart_head in E. inversion H; congruence.
  - intros H. apply trimStart_nil in H. now rewrite H.
Qed.

(** A world that answers from scripts: each collaborator gives the next
    result of its list; the store numbers the rows it creates. *)
Record Script := mkScript {
  sc_agent : option jsstring;
  sc_history : list ChatMessage;
  sc_completions : list (Res (list (option CompletionMessage)));
  sc_embeddings : list (Res (list (list number)));
  sc_rpcs : list (Res RpcResult);
  sc_rows : nat
}.

Definition nothingLeft {A} : Res A := Throw (new_Error (js "nothing left")).

Definition scriptedProviders : Providers Script :=
  {| agent_findUnique := fun _ w => (Ok (sc_agent w), w);
     chatMessage_findMany := fun _ w => (Ok (sc_history w), w);
     chatMessage_create := fun sessionId_ userMessage_ assistantMessage_ w =>
       (Ok (mkChatMessage (decimal (sc_rows w)) sessionId_ userMessage_
              assistantMessage_ 0 0),
        mkScript (sc_agent w) (sc_history w) (sc_completions w)
          (sc_embeddings w) (sc_rpcs w) (S (sc_rows w)));
     completions_create := fun _ w =>
       match sc_completions w with
       | r :: rest =>
           (r, mkScript (sc_agent w) (sc_history w) rest (sc_embeddings w)
                 (sc_rpcs w) (sc_rows w))
       | [] => (nothingLeft, w)
       end;
     embeddings_create := fun _ w =>
       match sc_embeddings w with
       | r :: rest =>
           (r, mkScript (sc_agent w) (sc_history w) (sc_completions w) rest
                 (sc_rpcs w) (sc_rows w))
       | [] => (nothingLeft, w)
       end;
     rpc_match_documents := fun _ w =>
       match sc_rpcs w with
       | r :: rest =>
           (r, mkScript (sc_agent w) (sc_history w) (sc_completions w)
                 (sc_embeddings w) rest (sc_rows w))
       | [] => (nothingLeft, w)
       end |}.

(** C8. On a query that is empty or made of white space only,
    [searchSupabaseEmbedding] returns the empty list and leaves the world
    and the trace as they were: the embedding provider is not called. On
    any other query for which the provider gives an empty embedding, it
    returns the empty list after that one call, without a call to the
    vector backend. *)
Theorem searchSupabaseEmbedding_empty {W} (P : Providers W)
  (query : jsstring) (st : St W) :
  (Forall (fun c => isWhiteSpace c = true) query ->
   searchSupabaseEmbedding P (Some (JStr query)) st = (Ok [], st))
  /\ (forall rest w',
        ~ Forall (fun c => isWhiteSpace c = true) query ->
        embeddings_create P query (world st) = (Ok ([] :: rest), w') ->
        searchSupabaseEmbedding P (Some (JStr query)) st
        = (Ok [], mkSt w' (trace st ++ [EvEmbedding query]))).
Proof.
  split.
  - intros Hws. unfold searchSupabaseEmbedding.
    destruct query as [|c q]; [reflexivity|].
    cbn [truthy truthy_json negb].
    apply trim_nil in Hws. now rewrite Hws.
  - intros rest w' Hnws Hemb. unfold searchSupabaseEmbedding.
    destruct query as [|c q]; [contradiction Hnws; constructor|].
    cbn [truthy truthy_json negb].
    destruct (trim (c :: q)) as [|x r] eqn:E;
      [apply trim_nil in E; contradiction|].
    cbn [length Nat.eqb].
    unfold getEmbedding, try_catch, call, bind. cbv beta.
    rewrite Hemb. reflexivity.
Qed.

Lemma searchSupabaseEmbedding_empty_witness :
  let w :=
    mkScript None [] [] [Ok [[]]] [] 0 in
  searchSupabaseEmbedding scriptedProviders
    (Some (JStr [32; 9; 10; 160]%N)) (mkSt w [])
  = (Ok [], mkSt w [])
  /\ searchSupabaseEmbedding scriptedProviders
       (Some (JStr (js "red widgets"))) (mkSt w [])
     = (Ok [], mkSt (mkScript None [] [] [] [] 0)
                 [EvEmbedding (js "red widgets")]).
Proof.
  split.
  - apply (proj1 (searchSupabaseEmbedding_empty scriptedProviders
                    [32; 9; 10; 160]%N _)).
    repeat constructor.
  - apply (proj2 (searchSupabaseEmbedding_empty scriptedProviders
                    (js "red widgets") (mkSt _ [])) []).
    + intros H. inversion H. discriminate.
    + reflexivity.
Defined.

(** ** The tool invoker *)

(** The part of [executeToolCall] inside its [try] block, up to the
    documents. *)
Definition searchDocuments {W} (P : Providers W) (args : json)
  : M W (list SupabaseDocument) :=
  query <- args_query args ;;
  withRetry (searchSupabaseEmbedding P query) 3 1000.

Definition entered {W} (toolCall : ToolCall) (st : St W) : St W :=
  mkSt (world st) (trace st ++ [EvToolCall toolCall]).

Lemma executeToolCall_search {W} (P : Providers W) toolCall args st :
  tc_arguments toolCall = JSON_stringify args ->
  tc_name toolCall = SEARCH_KNOWLEDGE_BASE ->
  executeToolCall P toolCall st
  = match searchDocuments P args (entered toolCall st) with
    | (Throw error, st') =>
        (Ok (mkToolResult (JSON_stringify (searchErrorPayload error)) []),
         st')
    | (Ok [], st') =>
        (Ok (mkToolResult
               (JSON_stringify
                  (JObj [(js "message",
                          JStr (js "No documents found matching your query."));
                         (js "results", JArr []);
                         (js "products", JArr [])]))
               []),
         st')
    | (Ok docs, st') =>
        (Ok (mkToolResult
               (JSON_stringify
                  (JObj [(js "message",
                          JStr (js "Found " ++ decimal (length docs)
                                ++ js " relevant document(s) containing "
                                ++ decimal
                                     (length (extractProductsFromDocuments docs))
                                ++ js " product(s)."));
                         (js "results", JArr (List.map document_json docs));
                         (js "products",
                          JArr (List.map product_json
                                  (extractProductsFromDocuments docs)))]))
               (extractProductsFromDocuments docs)),
         st')
    end.
Proof.
  intros Hargs Hname. unfold executeToolCall.
  rewrite Hargs, Hname, str_eqb_refl.
  unfold searchDocuments, entered, try_catch, bind, emit, lift.
  cbn [JSON_parse world trace].
  destruct (args_query args _) as [[query|t] st1]; [|reflexivity].
  destruct (withRetry _ 3 1000 st1) as [[docs|t] st2]; [|reflexivity].
  destruct docs; reflexivity.
Qed.

Lemma executeToolCall_unknown {W} (P : Providers W) toolCall args st :
  tc_arguments toolCall = JSON_stringify args ->
  tc_name toolCall <> SEARCH_KNOWLEDGE_BASE ->
  executeToolCall P toolCall st
  = (Ok (mkToolResult
           (JSON_stringify (unknownToolPayload (tc_name toolCall))) []),
     entered toolCall st).
Proof.
  intros Hargs Hname. unfold executeToolCall.
  apply str_eqb_neq in Hname. rewrite Hargs, Hname. reflexivity.
Qed.

Lemma executeToolCall_malformed {W} (P : Providers W) toolCall raw st :
  tc_arguments toolCall = Malformed raw ->
  executeToolCall P toolCall st
  = (Throw (new_SyntaxError (js "Unexpected token in JSON")),
     entered toolCall st).
Proof. intros Hargs. unfold executeToolCall. now rewrite Hargs. Qed.

(** C5, as the code has it. When the arguments of the tool call are a
    JSON text, [executeToolCall] does not throw and its result is the
    JSON text of a payload: for [search_knowledge_base], the error
    payload with no products whenever the search throws at any stage, and
    otherwise the found documents with the products extracted from them;
    for any other name the unknown-tool payload with no products. When
    the arguments are not a JSON text, the [JSON.parse] at the head of the
    function throws, whatever the name is. *)
Theorem executeToolCall_total_on_json {W} (P : Providers W)
  (toolCall : ToolCall) (st : St W) :
  (forall args,
     tc_arguments toolCall = JSON_stringify args ->
     exists payload ps st',
       executeToolCall P toolCall st
       = (Ok (mkToolResult (JSON_stringify payload) ps), st')
       /\ (tc_name toolCall <> SEARCH_KNOWLEDGE_BASE ->
           payload = unknownToolPayload (tc_name toolCall) /\ ps = [])
       /\ (tc_name toolCall = SEARCH_KNOWLEDGE_BASE ->
           match searchDocuments P args (entered toolCall st) with
           | (Throw error, st'') =>
               payload = searchErrorPayload error /\ ps = [] /\ st' = st''
           | (Ok docs, st'') =>
               ps = extractProductsFromDocuments docs /\ st' = st''
           end))
  /\ (forall raw,
        tc_arguments toolCall = Malformed raw ->
        exists error st',
          executeToolCall P toolCall st = (Throw error, st')).
Proof.
  split.
  - intros args Hargs.
    destruct (tc_name toolCall === SEARCH_KNOWLEDGE_BASE) eqn:Hname.
    + apply str_eqb_eq in Hname.
      rewrite (executeToolCall_search P toolCall st Hargs Hname).
      destruct (searchDocuments P args (entered toolCall st))
        as [[docs|error] st''] eqn:Hrun.
      * destruct docs as [|d docs].
        -- do 3 eexists. split; [reflexivity|].
           split; [intros Hn; contradiction|].
           intros _. now split.
        -- do 3 eexists. split; [reflexivity|].
           split; [intros Hn; contradiction|].
           intros _. now split.
      * do 3 eexists. split; [reflexivity|].
        split; [intros Hn; contradiction|].
        intros _. now repeat split.
    + apply str_eqb_neq in Hname.
      rewrite (executeToolCall_unknown P toolCall st Hargs Hname).
      do 3 eexists. split; [reflexivity|].
      split; [now split | intros Hn; contradiction].
  - intros raw Hargs.
    rewrite (executeToolCall_malformed P toolCall st Hargs). eauto.
Qed.

Definition malformedCall : ToolCall :=
  mkToolCall (js "call_1") SEARCH_KNOWLEDGE_BASE (Malformed (js "{query:")).

Definition unknownMalformedCall : ToolCall :=
  mkToolCall (js "call_2") (js "get_weather") (Malformed (js "{city:")).

Definition emptyScript : Script := mkScript None [] [] [] [] 0.

(** C5 as stated does not hold: on arguments that are not a JSON text the
    function throws, for [search_knowledge_base] and for an unknown name
    alike. *)
Lemma executeToolCall_throws :
  executeToolCall scriptedProviders malformedCall (mkSt emptyScript [])
  = (Throw (new_SyntaxError (js "Unexpected token in JSON")),
     mkSt emptyScript [EvToolCall malformedCall])
  /\ executeToolCall scriptedProviders unknownMalformedCall
       (mkSt emptyScript [])
     = (Throw (new_SyntaxError (js "Unexpected token in JSON")),
        mkSt emptyScript [EvToolCall unknownMalformedCall]).
Proof. split; reflexivity. Qed.

Definition weatherCall : ToolCall :=
  mkToolCall (js "call_3") (js "get_weather")
    (JSON_stringify (JObj [(js "city", JStr (js "Dhaka"))])).

Definition searchCall : ToolCall :=
  mkToolCall (js "call_4") SEARCH_KNOWLEDGE_BASE
    (JSON_stringify (JObj [(js "query", JStr (js "red widgets"))])).

Lemma executeToolCall_total_on_json_witness :
  (exists payload ps st',
     executeToolCall scriptedProviders weatherCall (mkSt emptyScript [])
     = (Ok (mkToolResult (JSON_stringify payload) ps), st')
     /\ payload = unknownToolPayload (js "get_weather") /\ ps = [])
  /\ (exists payload ps st',
        executeToolCall scriptedProviders searchCall (mkSt emptyScript [])
        = (Ok (mkToolResult (JSON_stringify payload) ps), st')
        /\ payload
           = searchErrorPayload
               (new_Error (js "Failed to create embedding: nothing left"))
        /\ ps = [])
  /\ (exists error st',
        executeToolCall scriptedProviders malformedCall (mkSt emptyScript [])
        = (Throw error, st')).
Proof.
  split; [|split].
  - destruct (proj1 (executeToolCall_total_on_json scriptedProviders
                       weatherCall (mkSt emptyScript [])) _ eq_refl)
      as (payload & ps & st' & Hrun & Hunknown & _).
    exists payload, ps, st'. split; [exact Hrun|].
    apply Hunknown. discriminate.
  - destruct (proj1 (executeToolCall_total_on_json scriptedProviders
                       searchCall (mkSt emptyScript [])) _ eq_refl)
      as (payload & ps & st' & Hrun & _ & Hsearch).
    exists payload, ps, st'. split; [exact Hrun|].
    specialize (Hsearch eq_refl). vm_compute in Hsearch.
    destruct Hsearch as (Hp & Hps & _). split; [exact Hp | exact Hps].
  - apply (proj2 (executeToolCall_total_on_json scriptedProviders
                    malformedCall (mkSt emptyScript [])) (js "{query:")).
    reflexivity.
Defined.

(** ** Traces of the service *)

(** [emits q m]: whatever the state and the outcome, [m] only adds events
    of the class [q] to the trace. *)
Definition emits {W A} (q : Event -> bool) (m : M W A) : Prop :=
  forall st, exists d,
    trace (snd (m st)) = trace st ++ d /\ forallb q d = true.

Lemma emits_ret {W A} q (a : A) : emits q (@ret W A a).
Proof. intros st. exists []. split; [symmetry; apply app_nil_r|reflexivity]. Qed.

Lemma emits_throw {W A} q t : emits q (@throw W A t).
Proof. intros st. exists []. split; [symmetry; apply app_nil_r|reflexivity]. Qed.

Lemma emits_lift {W A} q (r : Res A) : emits q (@lift W A r).
Proof. intros st. exists []. split; [symmetry; apply app_nil_r|reflexivity]. Qed.

Lemma emits_emit {W} (q : Event -> bool) e : q e = true -> emits q (@emit W e).
Proof. intros H st. exists [e]. simpl. now rewrite H. Qed.

Lemma emits_call {W A} (q : Event -> bool) e (op : W -> Res A * W) :
  q e = true -> emits q (call e op).
Proof.
  intros H st. exists [e]. unfold call. destruct (op (world st)).
  simpl. now rewrite H.
Qed.

Lemma emits_bind {W A B} q (m : M W A) (f : A -> M W B) :
  emits q m -> (forall a, emits q (f a)) -> emits q (bind m f).
Proof.
  intros Hm Hf st. unfold bind. destruct (Hm st) as (d1 & E1 & Q1).
  destruct (m st) as [[a|t] st1]; simpl in E1.
  - destruct (Hf a st1) as (d2 & E2 & Q2). exists (d1 ++ d2).
    rewrite E2, E1, app_assoc, forallb_app, Q1, Q2. now split.
  - exists d1. now split.
Qed.

Lemma emits_try_catch {W A} q (m : M W A) (h : thrown -> M W A) :
  emits q m -> (forall t, emits q (h t)) -> emits q (try_catch m h).
Proof.
  intros Hm Hh st. unfold try_catch. destruct (Hm st) as (d1 & E1 & Q1).
  destruct (m st) as [[a|t] st1]; simpl in E1.
  - exists d1. now split.
  - destruct (Hh t st1) as (d2 & E2 & Q2). exists (d1 ++ d2).
    rewrite E2, E1, app_assoc, forallb_app, Q1, Q2. now split.
Qed.

Lemma emits_weaken {W A} (q q' : Event -> bool) (m : M W A) :
  (forall e, q e = true -> q' e = true) -> emits q m -> emits q' m.
Proof.
  intros Hq Hm st. destruct (Hm st) as (d & E & Q). exists d.
  split; [assumption|]. rewrite forallb_forall in *. auto.
Qed.

(** The events of a knowledge search under the retry wrapper. *)
Definition isSearchEvent (e : Event) : bool :=
  match e with
  | EvAttempt _ | EvEmbedding _ | EvRpc _ | EvSleep _ => true
  | _ => false
  end.

Definition isCompletion (e : Event) : bool :=
  match e with EvCompletion _ => true | _ => false end.

Definition isToolCall (e : Event) : bool :=
  match e with EvToolCall _ => true | _ => false end.

Lemma emits_withRetry_loop {W T} (fn : M W T) maxRetries baseDelay :
  emits isSearchEvent fn ->
  forall todo i lastError,
    emits isSearchEvent
      (withRetry_loop fn maxRetries baseDelay todo i lastError).
Proof.
  intros Hfn. induction todo as [|todo IH]; intros i lastError; simpl.
  - apply emits_throw.
  - apply emits_try_catch.
    + apply emits_bind; [now apply emits_emit | intros _; exact Hfn].
    + intros t. destruct (isConfigurationError t); [apply emits_throw|].
      apply emits_bind; [|intros _; apply IH].
      destruct (S i <? maxRetries); [now apply emits_emit | apply emits_ret].
Qed.

Section Traces.

Context {W : Type} (P : Providers W).

Lemma emits_getEmbedding text : emits isSearchEvent (getEmbedding P text).
Proof.
  apply emits_try_catch; [|intros t; apply emits_throw].
  apply emits_bind; [now apply emits_call|].
  intros [|first rest]; [apply emits_throw | apply emits_ret].
Qed.

Lemma emits_searchSupabaseEmbedding query :
  emits isSearchEvent (searchSupabaseEmbedding P query).
Proof.
  unfold searchSupabaseEmbedding.
  destruct (negb (truthy query)); [apply emits_ret|].
  destruct query as [[| | |q| |]|]; try apply emits_throw.
  destruct (length (trim q) =? 0); [apply emits_ret|].
  apply emits_bind; [apply emits_getEmbedding|]. intros embedding.
  destruct (length embedding =? 0); [apply emits_ret|].
  apply emits_bind; [now apply emits_call|]. intros res.
  destruct (rpc_error res) as [error|]; [|apply emits_ret].
  destruct (_ || _); apply emits_throw.
Qed.

(** A tool execution records itself and then only events of the search. *)
Lemma executeToolCall_trace toolCall st :
  exists d,
    trace (snd (executeToolCall P toolCall st))
    = trace st ++ EvToolCall toolCall :: d
    /\ forallb isSearchEvent d = true.
Proof.
  unfold executeToolCall. unfold bind at 1, emit. cbv beta iota.
  match goal with
  | |- context [snd (?m (mkSt _ _))] => assert (H : emits isSearchEvent m)
  end.
  { apply emits_bind; [apply emits_lift|]. intros args.
    destruct (_ === _); [|apply emits_ret].
    apply emits_try_catch; [|intros t; apply emits_ret].
    apply emits_bind.
    - unfold args_query. destruct args; try apply emits_ret.
      apply emits_throw.
    - intros query. apply emits_bind.
      + apply emits_withRetry_loop, emits_searchSupabaseEmbedding.
      + intros [|doc docs]; apply emits_ret. }
  destruct (H (mkSt (world st) (trace st ++ [EvToolCall toolCall])))
    as (d & E & Q).
  exists d. split; [|exact Q].
  rewrite E. cbn [trace]. now rewrite <- app_assoc.
Qed.

End Traces.

(** ** One round of tool execution *)

(** [round_ok seen t]: in the trace [t], read after [seen] completion
    calls, a tool is only executed while at most one completion call has
    been made. *)
Fixpoint round_ok (seen : nat) (t : list Event) : bool :=
  match t with
  | [] => true
  | e :: t' =>
      if isCompletion e then round_ok (S seen) t'
      else if isToolCall e then (seen <=? 1) && round_ok seen t'
      else round_ok seen t'
  end.

Definition completions (t : list Event) : nat :=
  length (filter isCompletion t).

Lemma completions_app t1 t2 :
  completions (t1 ++ t2) = completions t1 + completions t2.
Proof. unfold completions. now rewrite filter_app, length_app. Qed.

Lemma round_ok_app seen t1 t2 :
  round_ok seen (t1 ++ t2)
  = round_ok seen t1 && round_ok (seen + completions t1) t2.
Proof.
  revert seen; induction t1 as [|e t1 IH]; intros seen; simpl.
  - now rewrite Nat.add_0_r.
  - unfold completions. simpl. destruct (isCompletion e); simpl.
    + rewrite IH. unfold completions. now rewrite Nat.add_succ_r.
    + destruct (isToolCall e); rewrite IH; unfold completions;
        now rewrite ?andb_assoc.
Qed.

Lemma round_ok_mono seen seen' t :
  seen <= seen' -> round_ok seen' t = true -> round_ok seen t = true.
Proof.
  revert seen seen'; induction t as [|e t IH]; intros seen seen' Hle;
    simpl; [reflexivity|].
  destruct (isCompletion e).
  - apply IH. lia.
  - destruct (isToolCall e); [|now apply IH].
    intros H. apply andb_true_iff in H as [H1 H2].
    apply andb_true_iff. split; [|now apply (IH seen seen')].
    apply Nat.leb_le. apply Nat.leb_le in H1. lia.
Qed.

(** What [round_ok] says: once a completion call has been followed by
    another one, no tool is executed any more. *)
Lemma round_ok_second seen t pre m post :
  round_ok seen t = true ->
  t = pre ++ EvCompletion m :: post ->
  1 <= seen + completions pre ->
  forallb (fun e => negb (isToolCall e)) post = true.
Proof.
  intros Hok -> Hseen. rewrite round_ok_app in Hok.
  apply andb_true_iff in Hok as [_ Hok]. simpl in Hok.
  remember (S (seen + completions pre)) as n eqn:En.
  assert (Hn : 2 <= n) by lia. clear - Hok Hn.
  revert n Hok Hn; induction post as [|e post IH]; intros n Hok Hn;
    simpl in *; [reflexivity|].
  destruct (isCompletion e) eqn:Ec.
  - destruct e; try discriminate. simpl. apply (IH (S n)); [assumption|lia].
  - destruct (isToolCall e).
    + apply andb_true_iff in Hok as [Hle _]. apply Nat.leb_le in Hle. lia.
    + simpl. now apply (IH n).
Qed.

(** [phased seen c m]: run after [seen] completion calls, [m] makes at
    most [c] more of them and keeps [round_ok]. *)
Definition phased {W A} (seen c : nat) (m : M W A) : Prop :=
  forall st, exists d,
    trace (snd (m st)) = trace st ++ d
    /\ round_ok seen d = true
    /\ completions d <= c.

Definition isQuiet (e : Event) : bool :=
  negb (isCompletion e) && negb (isToolCall e).

Lemma quiet_round_ok seen d :
  forallb isQuiet d = true -> round_ok seen d = true /\ completions d = 0.
Proof.
  induction d as [|e d IH]; simpl; [now split|].
  intros H. apply andb_true_iff in H as [He Hd].
  apply andb_true_iff in He as [Hc Ht].
  apply negb_true_iff in Hc, Ht. unfold completions. simpl.
  rewrite Hc, Ht. now apply IH.
Qed.

Lemma phased_quiet {W A} seen (m : M W A) : emits isQuiet m -> phased seen 0 m.
Proof.
  intros Hm st. destruct (Hm st) as (d & E & Q). exists d.
  apply (quiet_round_ok seen) in Q as [Hok Hc]. repeat split; try assumption.
  lia.
Qed.

Lemma phased_weaken {W A} seen c c' (m : M W A) :
  c <= c' -> phased seen c m -> phased seen c' m.
Proof.
  intros Hle Hm st. destruct (Hm st) as (d & E & Hok & Hc). exists d.
  repeat split; try assumption. lia.
Qed.

Lemma phased_bind {W A B} seen c1 c2 (m : M W A) (f : A -> M W B) :
  phased seen c1 m -> (forall a, phased (seen + c1) c2 (f a)) ->
  phased seen (c1 + c2) (bind m f).
Proof.
  intros Hm Hf st. unfold bind. destruct (Hm st) as (d1 & E1 & Ok1 & C1).
  destruct (m st) as [[a|t] st1]; simpl in E1.
  - destruct (Hf a st1) as (d2 & E2 & Ok2 & C2). exists (d1 ++ d2).
    rewrite E2, E1, app_assoc, round_ok_app, completions_app, Ok1.
    repeat split; [|lia].
    apply round_ok_mono with (seen' := seen + c1); [lia | assumption].
  - exists d1. repeat split; try assumption. lia.
Qed.

Lemma phased_try_catch {W A} seen c1 c2 (m : M W A) (h : thrown -> M W A) :
  phased seen c1 m -> (forall t, phased (seen + c1) c2 (h t)) ->
  phased seen (c1 + c2) (try_catch m h).
Proof.
  intros Hm Hh st. unfold try_catch.
  destruct (Hm st) as (d1 & E1 & Ok1 & C1).
  destruct (m st) as [[a|t] st1]; simpl in E1.
  - exists d1. repeat split; try assumption. lia.
  - destruct (Hh t st1) as (d2 & E2 & Ok2 & C2). exists (d1 ++ d2).
    rewrite E2, E1, app_assoc, round_ok_app, completions_app, Ok1.
    repeat split; [|lia].
    apply round_ok_mono with (seen' := seen + c1); [lia | assumption].
Qed.

Lemma phased_bind0 {W A B} seen c (m : M W A) (f : A -> M W B) :
  phased seen 0 m -> (forall a, phased seen c (f a)) ->
  phased seen c (bind m f).
Proof.
  intros Hm Hf. apply (phased_bind (c1 := 0) (c2 := c)); [assumption|].
  intros a. rewrite Nat.add_0_r. apply Hf.
Qed.

Lemma phased_try_catch0 {W A} seen c (m : M W A) (h : thrown -> M W A) :
  phased seen 0 m -> (forall t, phased seen c (h t)) ->
  phased seen c (try_catch m h).
Proof.
  intros Hm Hh. apply (phased_try_catch (c1 := 0) (c2 := c)); [assumption|].
  intros t. rewrite Nat.add_0_r. apply Hh.
Qed.

Lemma phased_ret {W A} seen (a : A) : phased seen 0 (@ret W A a).
Proof. apply phased_quiet, emits_ret. Qed.

Lemma phased_throw {W A} seen t : phased seen 0 (@throw W A t).
Proof. apply phased_quiet, emits_throw. Qed.

Section Rounds.

Context {W : Type} (P : Providers W).

Lemma phased_complete seen messages : phased seen 1 (complete P messages).
Proof.
  intros st. exists [EvCompletion messages]. unfold complete, call.
  destruct (completions_create P messages (world st)). simpl.
  repeat split. unfold completions. simpl. lia.
Qed.

Lemma phased_createChatMessage seen sessionId_ u a :
  phased seen 0 (createChatMessage P sessionId_ u a).
Proof. apply phased_quiet. now apply emits_call. Qed.

Lemma phased_executeToolCall seen toolCall :
  seen <= 1 -> phased seen 0 (executeToolCall P toolCall).
Proof.
  intros Hseen st. destruct (executeToolCall_trace P toolCall st) as (d & E & Q).
  exists (EvToolCall toolCall :: d). split; [exact E|].
  assert (Hq : forallb isQuiet d = true).
  { rewrite forallb_forall in *. intros e He. apply Q in He.
    now destruct e. }
  apply (quiet_round_ok seen) in Hq as [Hok Hc]. simpl.
  apply Nat.leb_le in Hseen. rewrite Hseen, Hok. split; [reflexivity|].
  unfold completions in *. simpl. lia.
Qed.

Lemma phased_runToolCalls seen toolCalls : forall messages allProducts,
  seen <= 1 -> phased seen 0 (runToolCalls P toolCalls messages allProducts).
Proof.
  induction toolCalls as [|toolCall rest IH]; intros messages allProducts Hs;
    simpl.
  - apply phased_ret.
  - apply phased_bind0.
    + apply phased_try_catch0.
      * apply phased_bind0.
        -- now apply phased_executeToolCall.
        -- intros r. apply phased_ret.
      * intros t. apply phased_ret.
    + intros step. now apply IH.
Qed.

Lemma phased_directAnswer seen sessionId_ content_ assistantContent :
  phased seen 0 (directAnswer P sessionId_ content_ assistantContent).
Proof.
  apply phased_bind0.
  - apply phased_createChatMessage.
  - intros created. apply phased_ret.
Qed.

Lemma phased_forcedAnswer sessionId_ content_ messages assistantContent :
  phased 1 1 (forcedAnswer P sessionId_ content_ messages assistantContent).
Proof.
  apply (phased_bind (c1 := 0) (c2 := 1)).
  - now apply phased_executeToolCall.
  - intros searchResult. apply (phased_bind (c1 := 1) (c2 := 0)).
    + apply phased_complete.
    + intros retryChoices.
      destruct (match firstMessage retryChoices with
                | Some m => orNull (cm_content m)
                | None => None
                end) as [retryContent|].
      * apply (phased_bind (c1 := 0) (c2 := 0)).
        -- apply phased_createChatMessage.
        -- intros created. apply phased_ret.
      * apply phased_directAnswer.
Qed.

Lemma phased_toolAnswer sessionId_ content_ messages assistantContent
  toolCalls :
  phased 1 1
    (toolAnswer P sessionId_ content_ messages assistantContent toolCalls).
Proof.
  apply (phased_bind (c1 := 0) (c2 := 1)).
  - now apply phased_runToolCalls.
  - intros ran. apply (phased_bind (c1 := 1) (c2 := 0)).
    + apply phased_complete.
    + intros choices. destruct (firstMessage choices) as [finalMessage|];
        [|apply phased_throw].
      apply (phased_bind (c1 := 0) (c2 := 0)).
      * destruct (noToolCalls _); [apply phased_ret|].
        apply phased_quiet. now apply emits_emit.
      * intros _. apply (phased_bind (c1 := 0) (c2 := 0)).
        -- apply phased_createChatMessage.
        -- intros created. apply phased_ret.
Qed.

Lemma phased_firstRound sessionId_ content_ agentId :
  phased 0 1 (firstRound P sessionId_ content_ agentId).
Proof.
  apply (phased_bind (c1 := 0) (c2 := 1)).
  - apply phased_quiet. now apply emits_call.
  - intros agent. apply (phased_bind (c1 := 0) (c2 := 1)).
    + apply phased_quiet. now apply emits_call.
    + intros previous. apply (phased_bind (c1 := 1) (c2 := 0)).
      * apply phased_complete.
      * intros choices. apply phased_ret.
Qed.

Lemma phased_addMessage sessionId_ content_ agentId :
  phased 0 2 (addMessage P sessionId_ content_ agentId).
Proof.
  apply (phased_bind (c1 := 1) (c2 := 1)).
  - apply phased_firstRound.
  - intros [messages [message|]]; simpl; [|apply (phased_weaken (c := 0)); [lia|apply phased_throw]].
    destruct (cm_tool_calls message) as [[|toolCall rest]|].
    + destruct (shouldUseSearch content_).
      * apply phased_forcedAnswer.
      * apply (phased_weaken (c := 0)); [lia|apply phased_directAnswer].
    + apply phased_toolAnswer.
    + destruct (shouldUseSearch content_).
      * apply phased_forcedAnswer.
      * apply (phased_weaken (c := 0)); [lia|apply phased_directAnswer].
Qed.

End Rounds.

(** ** The branches of [addMessage] *)

Section Branches.

Context {W : Type} (P : Providers W).

Lemma firstRound_trace sessionId_ content_ agentId st messages first st1 :
  firstRound P sessionId_ content_ agentId st = (Ok (messages, first), st1) ->
  trace st1
  = trace st ++ [EvAgent agentId; EvHistory sessionId_; EvCompletion messages].
Proof.
  unfold firstRound, complete, call, bind, ret. cbv beta.
  destruct (agent_findUnique P agentId (world st)) as [[agent|t] w1];
    [|discriminate].
  cbn [world trace].
  destruct (chatMessage_findMany P sessionId_ w1) as [[previous|t] w2];
    [|discriminate].
  cbn [world trace].
  destruct (completions_create P _ w2) as [[choices|t] w3]; [|discriminate].
  intros [= <- <- <-]. cbn [trace]. now rewrite <- !app_assoc.
Qed.

(** After the first round [addMessage] goes on with the branch the first
    message selects. *)
Lemma addMessage_branch sessionId_ content_ agentId st messages message st1 :
  firstRound P sessionId_ content_ agentId st
  = (Ok (messages, Some message), st1) ->
  addMessage P sessionId_ content_ agentId st
  = match cm_tool_calls message with
    | Some (toolCall :: rest) =>
        toolAnswer P sessionId_ content_ messages (cm_content message)
          (toolCall :: rest) st1
    | _ =>
        if shouldUseSearch content_
        then forcedAnswer P sessionId_ content_ messages (cm_content message)
               st1
        else directAnswer P sessionId_ content_ (cm_content message) st1
    end.
Proof.
  intros H. unfold addMessage, bind at 1. rewrite H. cbn [fst snd].
  destruct (cm_tool_calls message) as [[|toolCall rest]|];
    try reflexivity; destruct (shouldUseSearch content_); reflexivity.
Qed.

(** The write that ends a branch. *)
Definition persist (sessionId_ content_ : jsstring)
  (persisted : option jsstring) (ps : list Product) (st : St W)
  : Res ChatMessageResponse * St W :=
  match chatMessage_create P sessionId_ (Some content_) persisted (world st)
  with
  | (Ok createdMessage, w) =>
      (Ok (toResponse createdMessage ps),
       mkSt w (trace st ++ [EvCreate sessionId_ (Some content_) persisted]))
  | (Throw t, w) =>
      (Throw t,
       mkSt w (trace st ++ [EvCreate sessionId_ (Some content_) persisted]))
  end.

Lemma directAnswer_persist sessionId_ content_ assistantContent st :
  directAnswer P sessionId_ content_ assistantContent st
  = persist sessionId_ content_ (orNull assistantContent) [] st.
Proof.
  unfold directAnswer, persist, createChatMessage, call, bind, ret. cbv beta.
  destruct (chatMessage_create P _ _ _ _) as [[created|t] w]; reflexivity.
Qed.

(** The forced tool call has JSON arguments, so its execution returns. *)
Lemma forcedSearch_returns content_ st :
  exists searchResult st2 d,
    executeToolCall P (forcedSearch content_) st = (Ok searchResult, st2)
    /\ trace st2 = trace st ++ EvToolCall (forcedSearch content_) :: d
    /\ forallb isSearchEvent d = true.
Proof.
  destruct (executeToolCall_trace P (forcedSearch content_) st) as (d & E & Q).
  rewrite (executeToolCall_search P (forcedSearch content_) st
             (args := JObj [(js "query", JStr content_)]) eq_refl eq_refl)
    in *.
  destruct (searchDocuments P _ _) as [[[|doc docs]|error] st2];
    do 3 eexists; (split; [reflexivity|]); split; eassumption.
Qed.

Lemma runToolCalls_returns toolCalls : forall messages allProducts st,
  exists ran st2,
    runToolCalls P toolCalls messages allProducts st = (Ok ran, st2).
Proof.
  induction toolCalls as [|toolCall rest IH]; intros messages allProducts st;
    simpl.
  - unfold ret. eauto.
  - unfold bind at 1, try_catch. unfold bind at 1.
    destruct (executeToolCall P toolCall st) as [[r|t] st1]; apply IH.
Qed.

End Branches.

(** The entries the forced path adds to the message list. *)
Definition forcedMessages (messages : list ChatMessageItem)
  (content_ : jsstring) (searchResult : ToolResult) : list ChatMessageItem :=
  messages ++
  [mkItem assistant None (Some [forcedSearch content_]) None None;
   toolItem (forcedSearch content_) (result searchResult)].

(** [retryChoice?.message?.content], when it is a text that is not empty. *)
Definition retryText (retryChoices : list (option CompletionMessage))
  : option jsstring :=
  match firstMessage retryChoices with
  | Some m => orNull (cm_content m)
  | None => None
  end.

Lemma forcedAnswer_run {W} (P : Providers W) sessionId_ content_ messages
  assistantContent st1 searchResult st2 :
  executeToolCall P (forcedSearch content_) st1 = (Ok searchResult, st2) ->
  forcedAnswer P sessionId_ content_ messages assistantContent st1
  = match completions_create P
            (forcedMessages messages content_ searchResult) (world st2) with
    | (Throw t, w3) =>
        (Throw t,
         mkSt w3
           (trace st2
            ++ [EvCompletion (forcedMessages messages content_ searchResult)]))
    | (Ok retryChoices, w3) =>
        let st3 :=
          mkSt w3
            (trace st2
             ++ [EvCompletion (forcedMessages messages content_ searchResult)])
        in
        match retryText retryChoices with
        | Some retryContent =>
            persist P sessionId_ content_ (Some retryContent)
              (products searchResult) st3
        | None =>
            persist P sessionId_ content_ (orNull assistantContent) [] st3
        end
    end.
Proof.
  intros Hexec. unfold forcedAnswer, bind at 1. rewrite Hexec.
  unfold bind at 1, complete, call. fold (forcedMessages messages content_ searchResult).
  destruct (completions_create P _ (world st2)) as [[retryChoices|t] w3];
    [|reflexivity].
  cbv zeta. unfold retryText.
  destruct (match firstMessage retryChoices with
            | Some m => orNull (cm_content m)
            | None => None
            end) as [retryContent|].
  - unfold persist, createChatMessage, call, bind, ret. cbv beta.
    cbn [world trace].
    destruct (chatMessage_create P _ _ _ _) as [[created|t] w]; reflexivity.
  - apply directAnswer_persist.
Qed.

(** C1, as the code has it. When the user's text matches the intent
    expression and the first completion asks for no tool, [addMessage]
    executes exactly one tool call (the forced search, which always
    returns) and then makes exactly one more completion call: after the
    first completion the trace is the forced tool call, events of its
    search, the second completion call and the write. The turn written
    has the text of the second completion when that text is not empty,
    with the products of the search; when the second completion has no
    text, the turn has the text of the first completion (or null) and no
    products. *)
Theorem forced_tool_path {W} (P : Providers W)
  (sessionId_ content_ agentId : jsstring) (st : St W)
  (messages : list ChatMessageItem) (message : CompletionMessage)
  (st1 : St W) :
  firstRound P sessionId_ content_ agentId st
  = (Ok (messages, Some message), st1) ->
  noToolCalls (cm_tool_calls message) = true ->
  shouldUseSearch content_ = true ->
  exists searchResult st2 d,
    executeToolCall P (forcedSearch content_) st1 = (Ok searchResult, st2)
    /\ trace st2
       = trace st
         ++ [EvAgent agentId; EvHistory sessionId_; EvCompletion messages;
             EvToolCall (forcedSearch content_)]
         ++ d
    /\ forallb isSearchEvent d = true
    /\ addMessage P sessionId_ content_ agentId st
       = match completions_create P
               (forcedMessages messages content_ searchResult) (world st2)
         with
         | (Throw t, w3) =>
             (Throw t,
              mkSt w3
                (trace st2
                 ++ [EvCompletion
                       (forcedMessages messages content_ searchResult)]))
         | (Ok retryChoices, w3) =>
             let st3 :=
               mkSt w3
                 (trace st2
                  ++ [EvCompletion
                        (forcedMessages messages content_ searchResult)])
             in
             match retryText retryChoices with
             | Some retryContent =>
                 persist P sessionId_ content_ (Some retryContent)
                   (products searchResult) st3
             | None =>
                 persist P sessionId_ content_
                   (orNull (cm_content message)) [] st3
             end
         end.
Proof.
  intros Hfirst Hno Hintent.
  destruct (forcedSearch_returns P content_ st1)
    as (searchResult & st2 & d & Hexec & Htrace & Hd).
  exists searchResult, st2, d. split; [exact Hexec|].
  split; [|split; [exact Hd|]].
  - rewrite Htrace, (firstRound_trace P _ _ _ _ Hfirst).
    now rewrite <- !app_assoc.
  - rewrite (addMessage_branch P _ _ _ _ Hfirst), Hintent.
    rewrite <- (@forcedAnswer_run _ P sessionId_ content_ messages
                  (cm_content message) st1 searchResult st2 Hexec).
    destruct (cm_tool_calls message) as [[|toolCall rest]|];
      [reflexivity | discriminate | reflexivity].
Qed.

(** C6. When the first completion asks for no tool and the user's text
    does not match the intent expression, [addMessage] makes no further
    call but the write: the turn written has the text of the first
    completion, null when the provider gave none (or an empty one), and
    the response has no products. *)
Theorem direct_answer_path {W} (P : Providers W)
  (sessionId_ content_ agentId : jsstring) (st : St W)
  (messages : list ChatMessageItem) (message : CompletionMessage)
  (st1 : St W) :
  firstRound P sessionId_ content_ agentId st
  = (Ok (messages, Some message), st1) ->
  noToolCalls (cm_tool_calls message) = true ->
  shouldUseSearch content_ = false ->
  addMessage P sessionId_ content_ agentId st
  = persist P sessionId_ content_ (orNull (cm_content message)) [] st1
  /\ trace st1
     = trace st
       ++ [EvAgent agentId; EvHistory sessionId_; EvCompletion messages]
  /\ (forall c text,
        cm_content message = Some (c :: text) ->
        orNull (cm_content message) = Some (c :: text))
  /\ (cm_content message = None -> orNull (cm_content message) = None).
Proof.
  intros Hfirst Hno Hintent. split; [|split; [|split]].
  - rewrite (addMessage_branch P _ _ _ _ Hfirst), Hintent.
    rewrite <- directAnswer_persist.
    destruct (cm_tool_calls message) as [[|toolCall rest]|];
      [reflexivity | discriminate | reflexivity].
  - apply (firstRound_trace P _ _ _ _ Hfirst).
  - now intros c text ->.
  - now intros ->.
Qed.

Definition WARN_MORE_TOOL_CALLS : jsstring :=
  js "Additional tool calls detected in follow-up response, ignoring for now".

(** The entries the tool branch starts from and the list it sends to the
    follow-up completion. *)
Definition toolMessages (messages : list ChatMessageItem)
  (message : CompletionMessage) (toolCalls : list ToolCall)
  : list ChatMessageItem :=
  messages ++
  [mkItem assistant (option_map Text (cm_content message)) (Some toolCalls)
     None None].

Definition followUpMessages (ran : list ChatMessageItem * list Product)
  : list ChatMessageItem :=
  fst ran ++
  match uniqueByProductId (snd ran) with
  | [] => []
  | _ => [reminder (uniqueByProductId (snd ran))]
  end.

Lemma toolAnswer_run {W} (P : Providers W) sessionId_ content_ messages
  message toolCalls st1 ran st2 choices w3 finalMessage :
  runToolCalls P toolCalls (toolMessages messages message toolCalls) [] st1
  = (Ok ran, st2) ->
  completions_create P (followUpMessages ran) (world st2) = (Ok choices, w3) ->
  firstMessage choices = Some finalMessage ->
  toolAnswer P sessionId_ content_ messages (cm_content message) toolCalls st1
  = persist P sessionId_ content_ (orNull (cm_content finalMessage))
      (reconcileProducts (uniqueByProductId (snd ran))
         (cm_content finalMessage))
      (mkSt w3
         (trace st2 ++ [EvCompletion (followUpMessages ran)]
          ++ if noToolCalls (cm_tool_calls finalMessage) then []
             else [EvWarn WARN_MORE_TOOL_CALLS])).
Proof.
  intros Hran Hcomp Hfinal. unfold toolAnswer, bind at 1.
  unfold toolMessages in Hran. rewrite Hran.
  cbv zeta. fold (followUpMessages ran).
  unfold bind at 1, complete, call. rewrite Hcomp, Hfinal.
  unfold persist, createChatMessage, call, bind, ret, emit. cbv beta.
  destruct (noToolCalls (cm_tool_calls finalMessage)); cbn [world trace].
  - rewrite app_nil_r.
    destruct (chatMessage_create P _ _ _ _) as [[created|t] w]; reflexivity.
  - rewrite <- !app_assoc. cbn [app].
    destruct (chatMessage_create P _ _ _ _) as [[created|t] w]; reflexivity.
Qed.

(** C7. In every run of [addMessage], whatever the collaborators answer,
    no tool is executed after a second completion call has been made.
    In the branch that executes the tools the first completion asked for,
    the loop over them always returns, and when the follow-up completion
    asks for tools again the only things that follow it are the warning
    and the write of the turn. *)
Theorem one_tool_round {W} (P : Providers W)
  (sessionId_ content_ agentId : jsstring) (st : St W) :
  (exists delta,
     trace (snd (addMessage P sessionId_ content_ agentId st))
     = trace st ++ delta
     /\ forall pre m post,
          delta = pre ++ EvCompletion m :: post ->
          1 <= completions pre ->
          forallb (fun e => negb (isToolCall e)) post = true)
  /\ (forall messages message st1 toolCall rest,
        firstRound P sessionId_ content_ agentId st
        = (Ok (messages, Some message), st1) ->
        cm_tool_calls message = Some (toolCall :: rest) ->
        exists ran st2,
          runToolCalls P (toolCall :: rest)
            (toolMessages messages message (toolCall :: rest)) [] st1
          = (Ok ran, st2)
          /\ forall choices w3 finalMessage,
               completions_create P (followUpMessages ran) (world st2)
               = (Ok choices, w3) ->
               firstMessage choices = Some finalMessage ->
               noToolCalls (cm_tool_calls finalMessage) = false ->
               addMessage P sessionId_ content_ agentId st
               = persist P sessionId_ content_
                   (orNull (cm_content finalMessage))
                   (reconcileProducts (uniqueByProductId (snd ran))
                      (cm_content finalMessage))
                   (mkSt w3
                      (trace st2
                       ++ [EvCompletion (followUpMessages ran);
                           EvWarn WARN_MORE_TOOL_CALLS]))).
Proof.
  split.
  - destruct (phased_addMessage P sessionId_ content_ agentId st)
      as (delta & E & Hok & _).
    exists delta. split; [exact E|].
    intros pre m post Hd Hpre.
    apply (@round_ok_second 0 delta pre m post); assumption.
  - intros messages message st1 toolCall rest Hfirst Htools.
    destruct (runToolCalls_returns P (toolCall :: rest)
                (toolMessages messages message (toolCall :: rest)) [] st1)
      as (ran & st2 & Hran).
    exists ran, st2. split; [exact Hran|].
    intros choices w3 finalMessage Hcomp Hfinal Hmore.
    rewrite (addMessage_branch P _ _ _ _ Hfirst), Htools.
    rewrite (@toolAnswer_run _ P sessionId_ content_ messages message
               (toolCall :: rest) st1 ran st2 choices w3 finalMessage
               Hran Hcomp Hfinal).
    now rewrite Hmore.
Qed.

(** *** Concrete runs *)

Definition widgetDoc : SupabaseDocument :=
  mkDocument (js "d1") (js "A sturdy widget.")
    (JObj [(js "productId", JStr (js "42")); (js "name", JStr (js "Widget"))])
    (Real (js "0.91")).

Definition widgetSearch : Script -> Script :=
  fun w =>
    mkScript (sc_agent w) (sc_history w) (sc_completions w)
      [Ok [[Int 1; Int 2]]] [Ok (mkRpcResult (Some [widgetDoc]) None)]
      (sc_rows w).

Definition helloReply : CompletionMessage :=
  mkCompletion (Some (js "Hello! How can I help?")) None.

Definition helloScript : Script :=
  mkScript None [] [Ok [Some helloReply]] [] [] 0.

Lemma direct_answer_path_witness :
  exists messages st1 w,
    firstRound scriptedProviders (js "s1") (js "hi there") (js "a1")
      (mkSt helloScript [])
    = (Ok (messages, Some helloReply), st1)
    /\ addMessage scriptedProviders (js "s1") (js "hi there") (js "a1")
         (mkSt helloScript [])
       = (Ok (mkResponse (js "0") (js "s1") (Some (js "hi there"))
                (Some (js "Hello! How can I help?")) [] 0 0),
          mkSt w
            [EvAgent (js "a1"); EvHistory (js "s1"); EvCompletion messages;
             EvCreate (js "s1") (Some (js "hi there"))
               (Some (js "Hello! How can I help?"))]).
Proof.
  do 3 eexists. split; [cbv; reflexivity|].
  refine (eq_trans
            (proj1 (@direct_answer_path _ scriptedProviders (js "s1")
                      (js "hi there") (js "a1") (mkSt helloScript [])
                      _ helloReply _ eq_refl eq_refl eq_refl))
            _).
  reflexivity.
Defined.

Definition unsureReply : CompletionMessage :=
  mkCompletion (Some (js "I cannot look that up.")) None.

Definition stockReply : CompletionMessage :=
  mkCompletion (Some (js "We stock the Widget (Product ID: 42).")) None.

Definition inventoryQuestion : jsstring := js "Do you have inventory?".

Definition forcedScript : Script :=
  widgetSearch
    (mkScript None [] [Ok [Some unsureReply]; Ok [Some stockReply]] [] [] 0).

Lemma forced_tool_path_witness :
  exists messages st1 st',
    firstRound scriptedProviders (js "s1") inventoryQuestion (js "a1")
      (mkSt forcedScript [])
    = (Ok (messages, Some unsureReply), st1)
    /\ shouldUseSearch inventoryQuestion = true
    /\ addMessage scriptedProviders (js "s1") inventoryQuestion (js "a1")
         (mkSt forcedScript [])
       = (Ok (mkResponse (js "0") (js "s1") (Some inventoryQuestion)
                (cm_content stockReply)
                [mkProduct (js "Widget") (js "42") NO_DESCRIPTION] 0 0),
          st')
    /\ List.map (fun e => (isCompletion e, isToolCall e)) (trace st')
       = [(false, false); (false, false); (true, false); (false, true);
          (false, false); (false, false); (false, false); (true, false);
          (false, false)].
Proof.
  do 3 eexists. split; [cbv; reflexivity|]. split; [reflexivity|].
  destruct (@forced_tool_path _ scriptedProviders (js "s1")
              inventoryQuestion (js "a1") (mkSt forcedScript [])
              _ unsureReply _ eq_refl eq_refl eq_refl)
    as (searchResult & st2 & d & Hexec & Htrace & Hd & Hrun).
  vm_compute in Hexec. injection Hexec as <- <-.
  split; [exact Hrun | reflexivity].
Defined.

Definition silentReply : CompletionMessage :=
  mkCompletion None (Some [searchCall]).

Definition silentScript : Script :=
  widgetSearch
    (mkScript None [] [Ok [Some unsureReply]; Ok [Some silentReply]] [] [] 0).

(** C1 as stated does not hold: here the user's text matches the intent
    expression, the first completion asks for no tool, the forced search
    runs and the second completion answers without a text; the turn
    written carries the text of the first completion, which is not that
    of the second. *)
Lemma forced_tool_path_counterexample :
  shouldUseSearch inventoryQuestion = true
  /\ noToolCalls (cm_tool_calls unsureReply) = true
  /\ exists st',
       addMessage scriptedProviders (js "s1") inventoryQuestion (js "a1")
         (mkSt silentScript [])
       = (Ok (mkResponse (js "0") (js "s1") (Some inventoryQuestion)
                (cm_content unsureReply) [] 0 0),
          st')
       /\ List.map (fun e =>
                      match e with
                      | EvCompletion _ => 1
                      | EvToolCall _ => 2
                      | EvCreate _ _ (Some a) =>
                          if a === js "I cannot look that up." then 3 else 4
                      | _ => 0
                      end) (trace st')
          = [0; 0; 1; 2; 0; 0; 0; 1; 3]
       /\ cm_content unsureReply <> cm_content silentReply.
Proof.
  split; [reflexivity|]. split; [reflexivity|].
  eexists. split; [vm_compute; reflexivity|].
  split; [reflexivity | discriminate].
Qed.

Definition askingReply : CompletionMessage :=
  mkCompletion None (Some [searchCall]).

Definition askingAgainReply : CompletionMessage :=
  mkCompletion (Some (js "Let me look again.")) (Some [searchCall]).

Definition toolScript : Script :=
  widgetSearch
    (mkScript None [] [Ok [Some askingReply]; Ok [Some askingAgainReply]]
       [] [] 0).

Lemma one_tool_round_witness :
  exists st',
    addMessage scriptedProviders (js "s1") (js "red widgets?") (js "a1")
      (mkSt toolScript [])
    = (Ok (mkResponse (js "0") (js "s1") (Some (js "red widgets?"))
             (Some (js "Let me look again."))
             [mkProduct (js "Widget") (js "42") NO_DESCRIPTION] 0 0),
       st')
    /\ List.map (fun e =>
                   match e with
                   | EvCompletion _ => 1
                   | EvToolCall _ => 2
                   | EvWarn _ => 3
                   | EvCreate _ _ _ => 4
                   | _ => 0
                   end) (trace st')
       = [0; 0; 1; 2; 0; 0; 0; 1; 3; 4].
Proof.
  destruct (proj2 (@one_tool_round _ scriptedProviders (js "s1")
                     (js "red widgets?") (js "a1") (mkSt toolScript []))
              _ askingReply _ searchCall []
              ltac:(cbv; reflexivity) eq_refl)
    as (ran & st2 & Hran & Hrun).
  vm_compute in Hran. injection Hran as <- <-.
  specialize (Hrun _ _ askingAgainReply ltac:(cbv; reflexivity)
                eq_refl eq_refl).
  eexists. split; [rewrite Hrun; vm_compute; reflexivity|].
  reflexivity.
Defined.

(** ** The document extractor *)

(** The metadata step gives a record only from an identifier together
    with a name or a description. *)
Lemma fromMetadata_accepts metadata p :
  In p (fromMetadata metadata) ->
  truthy (metadataId metadata) = true
  /\ productId p = String_ (metadataId metadata)
  /\ (metadataName metadata <> [] \/ metadataDescription metadata <> []).
Proof.
  unfold fromMetadata.
  destruct (truthy_json metadata); simpl; [|contradiction].
  destruct (truthy (metadataId metadata)); simpl; [|contradiction].
  destruct (String_ (metadataId metadata) === []); simpl; [contradiction|].
  destruct (metadataName metadata) as [|c n] eqn:En;
    destruct (metadataDescription metadata) as [|c' d'] eqn:Ed; simpl;
    try contradiction;
    (intros [<-|[]]; split; [reflexivity|]; split; [reflexivity|]);
    (try (left; discriminate)); right; discriminate.
Qed.

(** C10. The metadata step gives a record only from metadata that yield
    an identifier and a name or a description under their aliases. So a
    document whose metadata yield no name and no description (with or
    without an identifier), and whose content has no match of the
    [Product ID] marker and none of the structured heading, gives no
    product. *)
Theorem metadata_needs_name_or_description (doc : SupabaseDocument) :
  (forall p,
     In p (fromMetadata (doc_metadata doc)) ->
     truthy (metadataId (doc_metadata doc)) = true
     /\ productId p = String_ (metadataId (doc_metadata doc))
     /\ (metadataName (doc_metadata doc) <> []
         \/ metadataDescription (doc_metadata doc) <> []))
  /\ (metadataName (doc_metadata doc) = [] ->
      metadataDescription (doc_metadata doc) = [] ->
      matchAll caseless productIdMarker (doc_content doc) = [] ->
      matchAll caselessMultiline structuredHeading (doc_content doc) = [] ->
      fromMetadata (doc_metadata doc) = []
      /\ extractFromDocument doc = []
      /\ extractProductsFromDocuments [doc] = []).
Proof.
  split; [intros p; apply fromMetadata_accepts|].
  intros Hname Hdesc Hmarker Hheading.
  assert (Hmeta : fromMetadata (doc_metadata doc) = []).
  { unfold fromMetadata. rewrite Hname, Hdesc. simpl.
    rewrite andb_false_r. now destruct (_ && _). }
  assert (Hdoc : extractFromDocument doc = []).
  { unfold extractFromDocument.
    destruct (metadataThrows (doc_metadata doc)); [reflexivity|].
    rewrite Hmeta, Hmarker, Hheading. reflexivity. }
  split; [exact Hmeta|]. split; [exact Hdoc|].
  unfold extractProductsFromDocuments. simpl. now rewrite Hdoc.
Qed.

Definition idOnlyDoc : SupabaseDocument :=
  mkDocument (js "d7")
    (js "Our returns policy: items can be sent back within 30 days.")
    (JObj [(js "product_id", JNum (Int 42)); (js "source", JStr (js "faq"))])
    (Real (js "0.77")).

Lemma metadata_needs_name_or_description_witness :
  truthy (metadataId (doc_metadata idOnlyDoc)) = true
  /\ fromMetadata (doc_metadata idOnlyDoc) = []
  /\ extractFromDocument idOnlyDoc = []
  /\ extractProductsFromDocuments [idOnlyDoc] = [].
Proof.
  split; [reflexivity|].
  apply (proj2 (metadata_needs_name_or_description idOnlyDoc));
    vm_compute; reflexivity.
Defined.

(** ** The assistant-text extractor *)

Definition twoBlocks : jsstring :=
  join [NL]
    [js "Here are the products I found:";
     [];
     js "1. **Red Widget**";
     js "   - Product ID: 7";
     js "   - Description: A small red widget.";
     [];
     js "2. **Blue Gadget**";
     js "   - Product ID: 9";
     js "   - Description: A blue gadget that glows.";
     [];
     js "Let me know if you need more."].


Lemma extractFromSection_some section p :
  extractFromSection section = Some p ->
  sectionId section = Some (productId p)
  /\ productId p <> [] /\ name p <> [] /\ description p <> [].
Proof.
  unfold extractFromSection.
  destruct (trim section === []); [discriminate|].
  destruct (sectionId section) as [[|c i]|]; try discriminate.
  intros [= <-]. cbn [productId name description].
  split; [reflexivity|]. split; [discriminate|]. split.
  - destruct (sectionName section); discriminate.
  - destruct (sectionDescription section); discriminate.
Qed.

(** *** Sections and headers *)

(** A numbered bold header starts at the position that splits the text
    into [rev bef] and [aft]. *)
Definition headerAt (bef aft : list N) : bool :=
  match rx plain sectionStart (start_state bef aft) (fun s1 => Some s1) with
  | Some _ => true
  | None => false
  end.

Definition nonempty {A} (l : list A) : bool :=
  match l with [] => false | _ => true end.

(** The split, position by position: a piece ends where a header starts,
    unless the piece is still empty. *)
Fixpoint cut (piece bef aft : list N) : list jsstring :=
  match aft with
  | [] => [rev piece]
  | c :: aft' =>
      if headerAt bef aft && nonempty piece
      then rev piece :: cut [c] (c :: bef) aft'
      else cut (c :: piece) (c :: bef) aft'
  end.

Lemma sectionStart_state bef aft s1 :
  rx plain sectionStart (start_state bef aft) (fun s1 => Some s1) = Some s1 ->
  before s1 = bef /\ after s1 = aft.
Proof.
  unfold sectionStart. cbn [rx].
  match goal with |- context [match ?x with _ => _ end] => destruct x end;
    [|discriminate].
  intros [= <-]. now split.
Qed.

Lemma split_loop_S fl r fuel piece bef c aft :
  split_loop fl r (S fuel) piece bef (c :: aft)
  = match rx fl r (start_state bef (c :: aft)) (fun s1 => Some s1) with
    | Some s1 =>
        if (length (before s1) =? length bef - length piece)%nat
        then split_loop fl r fuel (c :: piece) (c :: bef) aft
        else rev piece :: split_loop fl r fuel [] (before s1) (after s1)
    | None => split_loop fl r fuel (c :: piece) (c :: bef) aft
    end.
Proof. reflexivity. Qed.

Lemma split_loop_cut aft : forall fuel piece bef,
  2 * length aft + 1 <= fuel ->
  length piece <= length bef ->
  split_loop plain sectionStart fuel piece bef aft = cut piece bef aft.
Proof.
  induction aft as [|c aft IH]; intros fuel piece bef Hfuel Hpiece.
  - destruct fuel; [simpl in Hfuel; lia | reflexivity].
  - destruct fuel as [|fuel]; [simpl in Hfuel; lia|].
    cbn [length] in Hfuel.
    cbn [cut]. unfold headerAt. rewrite split_loop_S.
    destruct (rx plain sectionStart (start_state bef (c :: aft)) _)
      as [s1|] eqn:E.
    + pose proof (sectionStart_state _ _ E) as [Eb Ea]. rewrite Eb, Ea.
      destruct piece as [|x piece].
      * cbn [length nonempty andb]. rewrite Nat.sub_0_r, Nat.eqb_refl.
        apply IH; cbn [length]; lia.
      * cbn [nonempty andb].
        assert (Hne : (length bef =? length bef - length (x :: piece)) = false)
          by (apply Nat.eqb_neq; cbn [length] in *; lia).
        rewrite Hne. f_equal.
        destruct fuel as [|fuel]; [lia|].
        rewrite split_loop_S, E, Eb.
        cbn [length]. rewrite Nat.sub_0_r, Nat.eqb_refl.
        apply IH; cbn [length]; lia.
    + cbn [andb]. apply IH; cbn [length] in *; lia.
Qed.

Lemma rx_split_cut s :
  rx_split plain sectionStart s = match s with [] => [[]] | _ => cut [] [] s end.
Proof.
  destruct s as [|c s]; [reflexivity|].
  unfold rx_split. apply split_loop_cut; cbn [length]; lia.
Qed.


Lemma digit_not_space c : isDigit c = true -> isWhiteSpace c = false.
Proof.
  unfold isDigit. intros H. apply andb_true_iff in H as [H1 H2].
  apply N.leb_le in H1, H2.
  assert (Hc : (c = 48 \/ c = 49 \/ c = 50 \/ c = 51 \/ c = 52 \/ c = 53
                \/ c = 54 \/ c = 55 \/ c = 56 \/ c = 57)%N) by lia.
  repeat (destruct Hc as [->|Hc]; [reflexivity|]). now subst.
Qed.

(* ================================================================= *)
(** * Further properties of the service *)

(** ** Every run of the retry wrapper *)

(** What [withRetry] makes of the outcome of its last attempt:
    [throw lastError || new Error('Failed after retries')]. *)
Definition retryOutcome {T} (r : Res T) : Res T :=
  match r with
  | Ok v => Ok v
  | Throw e =>
      Throw (if truthy_thrown e then e
             else new_Error (js "Failed after retries"))
  end.

Lemma withRetry_loop_S {W T} (fn : M W T) maxRetries baseDelay todo i
  lastError :
  withRetry_loop fn maxRetries baseDelay (S todo) i lastError
  = try_catch (emit (EvAttempt i) ;;; fn)
      (fun error =>
         if isConfigurationError error then throw error
         else
           (if S i <? maxRetries
            then sleep (baseDelay * 2 ^ Z.of_nat i)%Z
            else ret tt) ;;;
           withRetry_loop fn maxRetries baseDelay todo (S i) (Some error)).
Proof. reflexivity. Qed.

Lemma withRetry_loop_runs {W T} (op : W -> Res T * W) maxRetries baseDelay :
  forall todo i lastError w t,
    i + S todo = maxRetries ->
    exists es w1 r w2,
      fails_seq op w es w1
      /\ Forall (fun e => isConfigurationError e = false) es
      /\ length es <= todo
      /\ op w1 = (r, w2)
      /\ match r with
         | Ok _ => True
         | Throw e => isConfigurationError e = true \/ length es = todo
         end
      /\ withRetry_loop (invoke op) maxRetries baseDelay (S todo) i lastError
           (mkSt w t)
         = (retryOutcome r,
            mkSt w2 (t ++ failed_attempts baseDelay i (length es)
                       ++ [EvAttempt (i + length es)])).
Proof.
  induction todo as [|todo IH]; intros i lastError w t Hi.
  - destruct (op w) as [r w2] eqn:Hop.
    exists [], w, r, w2.
    split; [constructor|]. split; [constructor|]. split; [reflexivity|].
    split; [exact Hop|]. split; [destruct r; auto|].
    cbn [withRetry_loop length failed_attempts app].
    unfold try_catch, bind at 1, emit, invoke. cbn [world trace].
    rewrite Hop, Nat.add_0_r. destruct r as [v|e]; [reflexivity|].
    cbn [retryOutcome].
    destruct (isConfigurationError e) eqn:Hc.
    + destruct e as [e|v]; [reflexivity|discriminate].
    + assert (Hs : (S i <? maxRetries) = false) by (apply Nat.ltb_ge; lia).
      rewrite Hs. reflexivity.
  - destruct (op w) as [r wm] eqn:Hop.
    destruct r as [v|e].
    + exists [], w, (Ok v), wm.
      split; [constructor|]. split; [constructor|].
      split; [cbn; lia|]. split; [exact Hop|]. split; [exact I|].
      cbn [withRetry_loop length failed_attempts app].
      unfold try_catch, bind at 1, emit, invoke. cbn [world trace].
      now rewrite Hop, Nat.add_0_r.
    + destruct (isConfigurationError e) eqn:Hc.
      * exists [], w, (Throw e), wm.
        split; [constructor|]. split; [constructor|].
        split; [cbn; lia|]. split; [exact Hop|]. split; [now left|].
        cbn [withRetry_loop length failed_attempts app].
        unfold try_catch, bind at 1, emit, invoke. cbn [world trace].
        rewrite Hop, Hc, Nat.add_0_r. cbn [retryOutcome].
        destruct e as [e|v]; [reflexivity|discriminate].
      * destruct (IH (S i) (Some e) wm
                    (t ++ [EvAttempt i; EvSleep (baseDelay * 2 ^ Z.of_nat i)%Z]))
          as (es & w1 & r & w2 & Hf & Hes & Hlen & Hlast & Hr & Hrun); [lia|].
        exists (e :: es), w1, r, w2.
        split; [now apply fails_cons with (w1 := wm)|].
        split; [now constructor|]. split; [cbn; lia|].
        split; [exact Hlast|].
        split; [destruct r; [exact I|]; destruct Hr; [now left|right; cbn; lia]|].
        rewrite withRetry_loop_S.
        unfold try_catch at 1, bind at 1, emit at 1, invoke at 1.
        cbn [world trace]. rewrite Hop, Hc.
        assert (Hs : (S i <? maxRetries) = true) by (apply Nat.ltb_lt; lia).
        rewrite Hs. unfold bind at 1, sleep, emit. cbn [world trace].
        rewrite <- app_assoc. cbn [app]. rewrite Hrun.
        cbn [length failed_attempts]. rewrite <- !app_assoc. cbn [app].
        now replace (S i + length es) with (i + S (length es)) by lia.
Qed.

(** X1. Every run of [withRetry], whatever the operation does. With no
    attempt allowed the operation is not called and the run fails with
    [Failed after retries]. Otherwise the run is a series of failed
    attempts, none of them a configuration error and each followed by its
    wait, and one last attempt, at most [maxRetries] in all; the last
    attempt succeeded, or failed with a configuration error, or was the
    attempt number [maxRetries]; the run gives what the last attempt gave,
    except that a falsy thrown value becomes [Failed after retries]. *)
Theorem withRetry_every_run {W T} (op : W -> Res T * W)
  (maxRetries : nat) (baseDelay : Z) (w : W) (t : list Event) :
  (maxRetries = 0 ->
   withRetry (invoke op) maxRetries baseDelay (mkSt w t)
   = (Throw (new_Error (js "Failed after retries")), mkSt w t))
  /\ (0 < maxRetries ->
      exists es w1 r w2,
        fails_seq op w es w1
        /\ Forall (fun e => isConfigurationError e = false) es
        /\ length es < maxRetries
        /\ op w1 = (r, w2)
        /\ match r with
           | Ok _ => True
           | Throw e =>
               isConfigurationError e = true \/ S (length es) = maxRetries
           end
        /\ withRetry (invoke op) maxRetries baseDelay (mkSt w t)
           = (retryOutcome r,
              mkSt w2 (t ++ retry_trace baseDelay (length es)))).
Proof.
  split.
  - intros ->. reflexivity.
  - intros Hpos. destruct maxRetries as [|todo]; [lia|].
    destruct (@withRetry_loop_runs W T op (S todo) baseDelay todo 0 None w t
                eq_refl)
      as (es & w1 & r & w2 & Hf & Hes & Hlen & Hlast & Hr & Hrun).
    exists es, w1, r, w2.
    split; [exact Hf|]. split; [exact Hes|]. split; [lia|].
    split; [exact Hlast|].
    split; [destruct r; [exact I|]; destruct Hr; [now left|right; lia]|].
    exact Hrun.
Qed.

(** A falsy value thrown at the only attempt allowed. *)
Lemma withRetry_every_run_witness :
  withRetry (invoke scripted) 0 1000 (mkSt [Ok 7%nat] [])
  = (Throw (new_Error (js "Failed after retries")), mkSt [Ok 7%nat] [])
  /\ exists es w1 r w2,
       fails_seq scripted [Throw (Thrown None); Ok 7%nat] es w1
       /\ Forall (fun e => isConfigurationError e = false) es
       /\ length es < 1
       /\ scripted w1 = (r, w2)
       /\ match r with
          | Ok _ => True
          | Throw e =>
              isConfigurationError e = true \/ S (length es) = 1
          end
       /\ withRetry (invoke scripted) 1 1000
            (mkSt [Throw (Thrown None); Ok 7%nat] [])
          = (retryOutcome r, mkSt w2 ([] ++ retry_trace 1000 (length es))).
Proof.
  split.
  - exact (proj1 (@withRetry_every_run _ nat scripted 0 1000 [Ok 7%nat] [])
             eq_refl).
  - exact (proj2 (@withRetry_every_run _ nat scripted 1 1000
                    [Throw (Thrown None); Ok 7%nat] [])
             ltac:(lia)).
Defined.

(** ** The cost of a tool execution *)



Definition count (q : Event -> bool) (t : list Event) : nat :=
  length (filter q t).



Lemma trim_empty : trim [] = [].
Proof. reflexivity. Qed.



Lemma withRetry_loop_end {W T} (fn : M W T) maxRetries baseDelay todo i
  lastError st r st' :
  fn (mkSt (world st) (trace st ++ [EvAttempt i])) = (r, st') ->
  i + S todo = maxRetries ->
  match r with
  | Ok _ => True
  | Throw e => isConfigurationError e = true \/ todo = 0
  end ->
  withRetry_loop fn maxRetries baseDelay (S todo) i lastError st
  = (retryOutcome r, st').
Proof.
  intros Hrun Hi Hr. rewrite withRetry_loop_S.
  unfold try_catch, bind at 1, emit. cbv beta. rewrite Hrun.
  destruct r as [v|e]; [reflexivity|]. cbn [retryOutcome].
  destruct (isConfigurationError e) eqn:Hc.
  - destruct e as [e|v]; [reflexivity|discriminate].
  - destruct Hr as [Hr| ->]; [discriminate|].
    assert (Hs : (S i <? maxRetries) = false) by (apply Nat.ltb_ge; lia).
    rewrite Hs. reflexivity.
Qed.

Lemma withRetry_loop_again {W T} (fn : M W T) maxRetries baseDelay todo i
  lastError st e st' :
  fn (mkSt (world st) (trace st ++ [EvAttempt i])) = (Throw e, st') ->
  isConfigurationError e = false ->
  S i < maxRetries ->
  withRetry_loop fn maxRetries baseDelay (S todo) i lastError st
  = withRetry_loop fn maxRetries baseDelay todo (S i) (Some e)
      (mkSt (world st')
         (trace st' ++ [EvSleep (baseDelay * 2 ^ Z.of_nat i)%Z])).
Proof.
  intros Hrun Hc Hi. rewrite withRetry_loop_S.
  unfold try_catch, bind at 1, emit. cbv beta. rewrite Hrun, Hc.
  apply Nat.ltb_lt in Hi. rewrite Hi. reflexivity.
Qed.

(** With arguments that have a [query], the search is the retried
    [searchSupabaseEmbedding]. *)
Lemma searchDocuments_query {W} (P : Providers W) args v st :
  prop args "query" = Some v ->
  searchDocuments P args st
  = withRetry (searchSupabaseEmbedding P (Some v)) 3 1000 st.
Proof.
  intros H. unfold searchDocuments, args_query.
  destruct args; try discriminate. unfold bind, ret. now rewrite H.
Qed.




(** [new Error(`Failed to create embedding: ${...}`)] of [getEmbedding]. *)
Definition embeddingError (error : thrown) : thrown :=
  new_Error (js "Failed to create embedding: " ++ messageOrUnknown error).

Lemma nonblank_search {W} (P : Providers W) q st :
  trim q <> [] ->
  searchSupabaseEmbedding P (Some (JStr q)) st
  = (embedding <- getEmbedding P q ;;
     if length embedding =? 0 then ret []
     else
       res <- call (EvRpc embedding) (rpc_match_documents P embedding) ;;
       match rpc_error res with
       | Some error =>
           if (pg_code error === js "P0001")
              || match pg_message error with
                 | Some m => includes m (js "function")
                 | None => false
                 end
              || match pg_message error with
                 | Some m => includes m (js "does not exist")
                 | None => false
                 end
           then throw missingFunction
           else
             throw (new_Error
                      (js "Supabase error: "
                       ++ match pg_message error with
                          | Some m => m
                          | None => js "undefined"
                          end))
       | None =>
           ret (match rpc_data res with
                | Some data => data
                | None => []
                end)
       end) st.
Proof.
  intros Hq. unfold searchSupabaseEmbedding.
  destruct q as [|c q]; [contradiction Hq; reflexivity|].
  cbn [truthy truthy_json negb].
  destruct (trim (c :: q)) as [|x r] eqn:E; [contradiction|].
  reflexivity.
Qed.

(** The error object a backend error stands for a missing
    [match_documents] function. *)
Definition functionMissing (error : PostgrestError) : bool :=
  (pg_code error === js "P0001")
  || match pg_message error with
     | Some m => includes m (js "function")
     | None => false
     end
  || match pg_message error with
     | Some m => includes m (js "does not exist")
     | None => false
     end.

(** X3. When the vector backend answers a search with an error whose code
    is [P0001] or whose message contains [function] or [does not exist],
    the tool execution ends after this one attempt, without a wait: its
    result is the error payload of the missing [match_documents]
    function, with the hint that names it, and no products. *)
Theorem missing_function_not_retried {W} (P : Providers W)
  (toolCall : ToolCall) (args : json) (q : jsstring) (st : St W)
  (embedding : list number) (rest : list (list number)) (w1 : W)
  (res : RpcResult) (w2 : W) (error : PostgrestError) :
  tc_arguments toolCall = JSON_stringify args ->
  tc_name toolCall = SEARCH_KNOWLEDGE_BASE ->
  prop args "query" = Some (JStr q) ->
  trim q <> [] ->
  embeddings_create P q (world st) = (Ok (embedding :: rest), w1) ->
  embedding <> [] ->
  rpc_match_documents P embedding w1 = (Ok res, w2) ->
  rpc_error res = Some error ->
  functionMissing error = true ->
  executeToolCall P toolCall st
  = (Ok (mkToolResult (JSON_stringify (searchErrorPayload missingFunction)) []),
     mkSt w2
       (trace st
        ++ [EvToolCall toolCall; EvAttempt 0; EvEmbedding q;
            EvRpc embedding]))
  /\ prop (searchErrorPayload missingFunction) "hint"
     = Some (JStr (js "The match_documents function is missing. Please create it in your Supabase database.")).
Proof.
  intros Hargs Hname Hquery Hq Hemb Hne Hrpc Herr Hmiss.
  split; [|reflexivity].
  rewrite (executeToolCall_search P toolCall st Hargs Hname).
  rewrite (@searchDocuments_query W P args (JStr q) _ Hquery). unfold withRetry.
  rewrite (@withRetry_loop_end W _ _ 3 1000%Z 2 0 None (entered toolCall st)
             (Throw missingFunction)
             (mkSt w2
                (trace st
                 ++ [EvToolCall toolCall; EvAttempt 0; EvEmbedding q;
                     EvRpc embedding]))).
  - reflexivity.
  - rewrite (@nonblank_search W P q _ Hq).
    unfold entered, getEmbedding, try_catch, call, bind. cbv beta.
    cbn [world trace]. rewrite Hemb.
    destruct embedding as [|x embedding]; [contradiction|].
    cbn [length Nat.eqb ret world trace]. rewrite Hrpc, Herr.
    unfold functionMissing in Hmiss. rewrite Hmiss.
    unfold throw. now rewrite <- !app_assoc.
  - reflexivity.
  - now left.
Qed.

Definition missingFunctionScript : Script :=
  mkScript None [] [] [Ok [[Int 1; Int 2]]]
    [Ok (mkRpcResult None
           (Some (mkPostgrestError (js "42883")
                    (Some (js "function match_documents(vector, integer) does not exist")))))]
    0.

Lemma missing_function_not_retried_witness :
  executeToolCall scriptedProviders searchCall (mkSt missingFunctionScript [])
  = (Ok (mkToolResult (JSON_stringify (searchErrorPayload missingFunction)) []),
     mkSt emptyScript
       [EvToolCall searchCall; EvAttempt 0; EvEmbedding (js "red widgets");
        EvRpc [Int 1; Int 2]]).
Proof.
  refine (proj1 (@missing_function_not_retried _ scriptedProviders searchCall
                   (JObj [(js "query", JStr (js "red widgets"))])
                   (js "red widgets") (mkSt missingFunctionScript [])
                   [Int 1; Int 2] [] _ _ _ _
                   eq_refl eq_refl eq_refl _ eq_refl _ eq_refl eq_refl _)).
  - vm_compute. discriminate.
  - discriminate.
  - vm_compute. reflexivity.
Defined.

(** X4. A failure of the embedding provider is thrown again as
    [Failed to create embedding: ...] and retried like any other failure:
    when the provider fails three times, the first two failures giving no
    configuration error, the tool execution asks it three times, waits
    1000 and then 2000 in between, never calls the vector backend, and
    its result is the error payload of the last failure with no
    products. *)
Theorem embedding_failure_retried {W} (P : Providers W)
  (toolCall : ToolCall) (args : json) (q : jsstring) (st : St W)
  (e1 e2 e3 : thrown) (w1 w2 w3 : W) :
  tc_arguments toolCall = JSON_stringify args ->
  tc_name toolCall = SEARCH_KNOWLEDGE_BASE ->
  prop args "query" = Some (JStr q) ->
  trim q <> [] ->
  embeddings_create P q (world st) = (Throw e1, w1) ->
  embeddings_create P q w1 = (Throw e2, w2) ->
  embeddings_create P q w2 = (Throw e3, w3) ->
  isConfigurationError (embeddingError e1) = false ->
  isConfigurationError (embeddingError e2) = false ->
  executeToolCall P toolCall st
  = (Ok (mkToolResult
           (JSON_stringify (searchErrorPayload (embeddingError e3))) []),
     mkSt w3
       (trace st
        ++ [EvToolCall toolCall;
            EvAttempt 0; EvEmbedding q; EvSleep 1000;
            EvAttempt 1; EvEmbedding q; EvSleep 2000;
            EvAttempt 2; EvEmbedding q])).
Proof.
  intros Hargs Hname Hquery Hq H1 H2 H3 Hc1 Hc2.
  rewrite (executeToolCall_search P toolCall st Hargs Hname).
  rewrite (@searchDocuments_query W P args (JStr q) _ Hquery). unfold withRetry.
  rewrite (@withRetry_loop_again W _ _ 3 1000%Z 2 0 None (entered toolCall st)
             (embeddingError e1)
             (mkSt w1 (trace st ++ [EvToolCall toolCall; EvAttempt 0;
                                    EvEmbedding q]))); [|..|lia].
  2: { rewrite (@nonblank_search W P q _ Hq).
       unfold entered, getEmbedding, try_catch, call, bind. cbv beta.
       cbn [world trace]. rewrite H1. unfold throw, embeddingError.
       now rewrite <- !app_assoc. }
  2: exact Hc1.
  cbn [world trace].
  rewrite (@withRetry_loop_again W _ _ 3 1000%Z 1 1 _ _
             (embeddingError e2)
             (mkSt w2 (trace st ++ [EvToolCall toolCall; EvAttempt 0;
                                    EvEmbedding q; EvSleep 1000;
                                    EvAttempt 1; EvEmbedding q]))); [|..|lia].
  2: { rewrite (@nonblank_search W P q _ Hq).
       unfold getEmbedding, try_catch, call, bind. cbv beta.
       cbn [world trace]. rewrite H2. unfold throw, embeddingError.
       rewrite <- !app_assoc. reflexivity. }
  2: exact Hc2.
  cbn [world trace].
  rewrite (@withRetry_loop_end W _ _ 3 1000%Z 0 2 _ _
             (Throw (embeddingError e3))
             (mkSt w3 (trace st ++ [EvToolCall toolCall; EvAttempt 0;
                                    EvEmbedding q; EvSleep 1000;
                                    EvAttempt 1; EvEmbedding q; EvSleep 2000;
                                    EvAttempt 2; EvEmbedding q]))).
  - reflexivity.
  - rewrite (@nonblank_search W P q _ Hq).
    unfold getEmbedding, try_catch, call, bind. cbv beta.
    cbn [world trace]. rewrite H3. unfold throw, embeddingError.
    rewrite <- !app_assoc. reflexivity.
  - reflexivity.
  - now right.
Qed.

Definition providerDownScript : Script :=
  mkScript None [] []
    [Throw fetchFailed; Throw fetchFailed; Throw (Thrown (Some JNull))] [] 0.

Lemma embedding_failure_retried_witness :
  executeToolCall scriptedProviders searchCall (mkSt providerDownScript [])
  = (Ok (mkToolResult
           (JSON_stringify
              (searchErrorPayload
                 (new_Error (js "Failed to create embedding: Unknown error"))))
           []),
     mkSt emptyScript
       [EvToolCall searchCall;
        EvAttempt 0; EvEmbedding (js "red widgets"); EvSleep 1000;
        EvAttempt 1; EvEmbedding (js "red widgets"); EvSleep 2000;
        EvAttempt 2; EvEmbedding (js "red widgets")]).
Proof.
  refine (@embedding_failure_retried _ scriptedProviders searchCall
            (JObj [(js "query", JStr (js "red widgets"))])
            (js "red widgets") (mkSt providerDownScript [])
            fetchFailed fetchFailed (Thrown (Some JNull)) _ _ _
            eq_refl eq_refl eq_refl _ eq_refl eq_refl eq_refl
            eq_refl eq_refl).
  vm_compute. discriminate.
Defined.

(** The payload of a search that found no document. *)
Definition noDocumentsPayload : json :=
  JObj [(js "message", JStr (js "No documents found matching your query."));
        (js "results", JArr []);
        (js "products", JArr [])].

(** X5. Tool arguments without a usable query never reach a provider: the
    world stays as it was. When the arguments are [null], reading the
    query throws inside the [try] block and the result is the error
    payload, before any attempt. When the query is missing, falsy or a
    blank string, the first attempt finds nothing and the result is the
    no-documents payload. When the query is truthy but not a string, each
    of the three attempts fails on [query.trim], with the waits of 1000
    and 2000 in between, and the result is the error payload. *)
Theorem search_without_provider {W} (P : Providers W) (toolCall : ToolCall)
  (args : json) (st : St W) :
  tc_arguments toolCall = JSON_stringify args ->
  tc_name toolCall = SEARCH_KNOWLEDGE_BASE ->
  (args = JNull ->
   executeToolCall P toolCall st
   = (Ok (mkToolResult
            (JSON_stringify
               (searchErrorPayload
                  (new_TypeError
                     (js "Cannot read properties of null (reading 'query')"))))
            []),
      mkSt (world st) (trace st ++ [EvToolCall toolCall])))
  /\ (args <> JNull ->
      truthy (prop args "query") = false
      \/ (exists q, prop args "query" = Some (JStr q) /\ trim q = []) ->
      executeToolCall P toolCall st
      = (Ok (mkToolResult (JSON_stringify noDocumentsPayload) []),
         mkSt (world st) (trace st ++ [EvToolCall toolCall; EvAttempt 0])))
  /\ (truthy (prop args "query") = true ->
      (forall q, prop args "query" <> Some (JStr q)) ->
      executeToolCall P toolCall st
      = (Ok (mkToolResult
               (JSON_stringify
                  (searchErrorPayload
                     (new_TypeError (js "query.trim is not a function"))))
               []),
         mkSt (world st)
           (trace st
            ++ [EvToolCall toolCall; EvAttempt 0; EvSleep 1000;
                EvAttempt 1; EvSleep 2000; EvAttempt 2]))).
Proof.
  intros Hargs Hname.
  rewrite (executeToolCall_search P toolCall st Hargs Hname).
  split; [|split].
  - intros ->. reflexivity.
  - intros Hnull Hq.
    assert (Hsearch : searchSupabaseEmbedding P (prop args "query")
                        (mkSt (world st)
                           (trace st ++ [EvToolCall toolCall; EvAttempt 0]))
                      = (Ok [],
                         mkSt (world st)
                           (trace st ++ [EvToolCall toolCall; EvAttempt 0]))).
    { unfold searchSupabaseEmbedding.
      destruct Hq as [Hq|(q & Hq & Hblank)]; rewrite Hq; [reflexivity|].
      destruct q as [|c q]; [reflexivity|].
      cbn [truthy truthy_json negb]. now rewrite Hblank. }
    unfold searchDocuments, args_query.
    destruct args; try contradiction; unfold bind at 1, ret;
      unfold withRetry, entered;
      rewrite (@withRetry_loop_end W _ _ 3 1000%Z 2 0 None _ (Ok [])
                 (mkSt (world st)
                    (trace st ++ [EvToolCall toolCall; EvAttempt 0])));
      try reflexivity; try exact I;
      cbn [world trace]; rewrite <- app_assoc; exact Hsearch.
  - intros Htruthy Hstring.
    assert (Hsearch : forall st',
               searchSupabaseEmbedding P (prop args "query") st'
               = (Throw (new_TypeError (js "query.trim is not a function")),
                  st')).
    { intros st'. unfold searchSupabaseEmbedding. rewrite Htruthy.
      cbn [negb].
      destruct (prop args "query") as [[| | |q| |]|]; try reflexivity.
      contradiction (Hstring q). reflexivity. }
    unfold searchDocuments, args_query.
    destruct args; try discriminate; unfold bind at 1, ret;
      unfold withRetry, entered;
      (rewrite (@withRetry_loop_again W _ _ 3 1000%Z 2 0 None _ _ _
                  (Hsearch _) eq_refl ltac:(lia)));
      cbn [world trace];
      (rewrite (@withRetry_loop_again W _ _ 3 1000%Z 1 1 _ _ _ _
                  (Hsearch _) eq_refl ltac:(lia)));
      cbn [world trace];
      (rewrite (@withRetry_loop_end W _ _ 3 1000%Z 0 2 _ _ _ _
                  (Hsearch _) eq_refl (or_intror eq_refl)));
      cbn [retryOutcome truthy_thrown new_TypeError world trace];
      rewrite <- !app_assoc; reflexivity.
Qed.

Definition blankCall : ToolCall :=
  mkToolCall (js "call_5") SEARCH_KNOWLEDGE_BASE
    (JSON_stringify (JObj [(js "query", JStr [32; 10]%N)])).

Definition numberCall : ToolCall :=
  mkToolCall (js "call_6") SEARCH_KNOWLEDGE_BASE
    (JSON_stringify (JObj [(js "query", JNum (Int 7))])).

Definition nullCall : ToolCall :=
  mkToolCall (js "call_7") SEARCH_KNOWLEDGE_BASE (JSON_stringify JNull).

Lemma search_without_provider_witness :
  executeToolCall scriptedProviders nullCall (mkSt emptyScript [])
  = (Ok (mkToolResult
           (JSON_stringify
              (searchErrorPayload
                 (new_TypeError
                    (js "Cannot read properties of null (reading 'query')"))))
           []),
     mkSt emptyScript [EvToolCall nullCall])
  /\ executeToolCall scriptedProviders blankCall (mkSt emptyScript [])
     = (Ok (mkToolResult (JSON_stringify noDocumentsPayload) []),
        mkSt emptyScript [EvToolCall blankCall; EvAttempt 0])
  /\ executeToolCall scriptedProviders numberCall (mkSt emptyScript [])
     = (Ok (mkToolResult
              (JSON_stringify
                 (searchErrorPayload
                    (new_TypeError (js "query.trim is not a function"))))
              []),
        mkSt emptyScript
          [EvToolCall numberCall; EvAttempt 0; EvSleep 1000;
           EvAttempt 1; EvSleep 2000; EvAttempt 2]).
Proof.
  split; [|split].
  - exact (proj1 (@search_without_provider _ scriptedProviders nullCall JNull
                    (mkSt emptyScript []) eq_refl eq_refl) eq_refl).
  - refine (proj1 (proj2 (@search_without_provider _ scriptedProviders
                            blankCall _ (mkSt emptyScript [])
                            eq_refl eq_refl)) _ _).
    + discriminate.
    + right. exists [32; 10]%N. split; reflexivity.
  - refine (proj2 (proj2 (@search_without_provider _ scriptedProviders
                            numberCall _ (mkSt emptyScript [])
                            eq_refl eq_refl)) eq_refl _).
    intros q. discriminate.
Defined.

(** ** The tool loop and the write of the turn *)

(** The payload of a tool call whose execution threw. *)
Definition failedToolPayload (toolCall : ToolCall) (error : thrown) : json :=
  JObj [(js "error", JStr (js "Failed to execute " ++ tc_name toolCall));
        (js "details", JStr (messageOrUnknown error))].

(** [answers toolCall m]: the entry [m] is the tool response to
    [toolCall], and its content is a JSON text. *)
Definition answers (toolCall : ToolCall) (m : ChatMessageItem) : Prop :=
  role m = tool
  /\ tool_call_id m = Some (tc_id toolCall)
  /\ item_name m = Some (tc_name toolCall)
  /\ tool_calls m = None
  /\ exists payload, item_content m = Some (Payload (JSON_stringify payload)).

Lemma executeToolCall_result {W} (P : Providers W) toolCall st r st' :
  executeToolCall P toolCall st = (Ok r, st') ->
  exists payload, result r = JSON_stringify payload.
Proof.
  destruct (tc_arguments toolCall) as [args|raw] eqn:Hargs.
  - destruct (tc_name toolCall === SEARCH_KNOWLEDGE_BASE) eqn:Hname.
    + apply str_eqb_eq in Hname.
      rewrite (executeToolCall_search P toolCall st Hargs Hname).
      destruct (searchDocuments P args (entered toolCall st))
        as [[[|doc docs]|t] st1]; intros [= <- _]; eexists; reflexivity.
    + apply str_eqb_neq in Hname.
      rewrite (executeToolCall_unknown P toolCall st Hargs Hname).
      intros [= <- _]. eexists; reflexivity.
  - rewrite (executeToolCall_malformed P toolCall st Hargs). discriminate.
Qed.

Lemma search_events_no_tool d :
  forallb isSearchEvent d = true -> filter isToolCall d = [].
Proof.
  induction d as [|e d IH]; [reflexivity|]. simpl.
  intros H. apply andb_true_iff in H as [He Hd].
  destruct e; try discriminate; simpl; now apply IH.
Qed.

Lemma tool_responses_in_order_run {W} (P : Providers W)
  (toolCalls : list ToolCall) (messages : list ChatMessageItem)
  (allProducts : list Product) (st : St W) :
  exists items added st2 d,
    runToolCalls P toolCalls messages allProducts st
    = (Ok (messages ++ items, allProducts ++ added), st2)
    /\ Forall2 answers toolCalls items
    /\ trace st2 = trace st ++ d
    /\ filter isToolCall d = List.map EvToolCall toolCalls.
Proof.
  revert messages allProducts st.
  induction toolCalls as [|toolCall rest IH]; intros messages allProducts st.
  - exists [], [], st, []. cbn [runToolCalls]. unfold ret.
    rewrite !app_nil_r. repeat split. constructor.
  - cbn [runToolCalls]. unfold bind at 1, try_catch. unfold bind at 1.
    destruct (executeToolCall_trace P toolCall st) as (d1 & E1 & Q1).
    destruct (executeToolCall P toolCall st) as [[r|t] st1] eqn:Hexec;
      cbn [snd] in E1; unfold ret; cbn [fst snd].
    + destruct (executeToolCall_result P toolCall st Hexec) as (payload & Hp).
      destruct (IH (messages ++ [toolItem toolCall (result r)])
                  (allProducts ++ products r) st1)
        as (items & added & st2 & d & Hrun & Hans & Ht & Hd).
      exists (toolItem toolCall (result r) :: items), (products r ++ added),
        st2, (EvToolCall toolCall :: d1 ++ d).
      rewrite Hrun, <- !app_assoc. split; [reflexivity|].
      split; [|split].
      * constructor; [|exact Hans].
        unfold answers, toolItem. cbn. rewrite Hp. repeat split.
        now exists payload.
      * rewrite Ht, E1, <- app_assoc. reflexivity.
      * cbn [filter isToolCall List.map]. rewrite filter_app.
        now rewrite (search_events_no_tool _ Q1), Hd.
    + destruct (IH (messages
                    ++ [toolItem toolCall
                          (JSON_stringify
                             (JObj [(js "error",
                                     JStr (js "Failed to execute "
                                           ++ tc_name toolCall));
                                    (js "details",
                                     JStr (messageOrUnknown t))]))])
                  allProducts st1)
        as (items & added & st2 & d & Hrun & Hans & Ht & Hd).
      exists (toolItem toolCall
                (JSON_stringify (failedToolPayload toolCall t)) :: items),
        added, st2, (EvToolCall toolCall :: d1 ++ d).
      unfold failedToolPayload.
      rewrite Hrun, <- !app_assoc. split; [reflexivity|].
      split; [|split].
      * constructor; [|exact Hans].
        unfold answers, toolItem. cbn. repeat split. eexists; reflexivity.
      * rewrite Ht, E1, <- app_assoc. reflexivity.
      * cbn [filter isToolCall List.map]. rewrite filter_app.
        now rewrite (search_events_no_tool _ Q1), Hd.
Qed.

(** The outcomes of the tool calls, executed one after the other from
    the state [st], and the state they leave. *)
Fixpoint executions {W} (P : Providers W) (toolCalls : list ToolCall)
  (st : St W) : list (Res ToolResult) * St W :=
  match toolCalls with
  | [] => ([], st)
  | toolCall :: rest =>
      let (outcome, st1) := executeToolCall P toolCall st in
      let (outcomes, st2) := executions P rest st1 in
      (outcome :: outcomes, st2)
  end.

(** The tool response to a call: the result of its execution, or the
    error payload of the loop when the execution threw. *)
Definition responseTo (toolCall : ToolCall) (outcome : Res ToolResult)
  : ChatMessageItem :=
  toolItem toolCall
    match outcome with
    | Ok r => result r
    | Throw error => JSON_stringify (failedToolPayload toolCall error)
    end.

Definition responses (toolCalls : list ToolCall)
  (outcomes : list (Res ToolResult)) : list ChatMessageItem :=
  List.map (fun co => responseTo (fst co) (snd co))
    (combine toolCalls outcomes).

(** The products an execution found: none when it threw. *)
Definition foundBy (outcome : Res ToolResult) : list Product :=
  match outcome with
  | Ok r => products r
  | Throw _ => []
  end.

Lemma executions_length {W} (P : Providers W) toolCalls : forall st,
  length (fst (executions P toolCalls st)) = length toolCalls.
Proof.
  induction toolCalls as [|toolCall rest IH]; intros st; [reflexivity|].
  cbn [executions].
  destruct (executeToolCall P toolCall st) as [outcome st1].
  specialize (IH st1). destruct (executions P rest st1) as [outcomes st2].
  cbn [fst length] in *. now rewrite IH.
Qed.

Lemma runToolCalls_executions {W} (P : Providers W) toolCalls :
  forall messages allProducts (st : St W),
    runToolCalls P toolCalls messages allProducts st
    = (Ok (messages ++ responses toolCalls (fst (executions P toolCalls st)),
           allProducts
           ++ flat_map foundBy (fst (executions P toolCalls st))),
       snd (executions P toolCalls st)).
Proof.
  induction toolCalls as [|toolCall rest IH]; intros messages allProducts st.
  - cbn [runToolCalls executions fst snd]. unfold ret, responses.
    cbn [combine List.map flat_map]. now rewrite !app_nil_r.
  - cbn [runToolCalls executions]. unfold bind at 1, try_catch.
    unfold bind at 1.
    destruct (executeToolCall P toolCall st) as [[r|t] st1];
      unfold ret; cbn [fst snd]; rewrite IH;
      destruct (executions P rest st1) as [outcomes st2];
      unfold responses, failedToolPayload;
      cbn [fst snd combine List.map flat_map foundBy responseTo];
      now rewrite <- !app_assoc.
Qed.

(** X6. The loop over the tool calls of the first completion always
    returns, whatever the calls are and whatever their execution does. It
    executes every call once, in the order they were asked for, each in
    the state the one before left. It adds to the message list exactly
    one tool response per call, in the same order, with the identifier
    and the name of its call and a JSON text as content: the result of
    the execution, or the loop's error payload when the execution threw.
    It adds to the products those the executions found, in the order of
    the calls; an execution that threw adds none. *)
Theorem tool_responses_in_order {W} (P : Providers W)
  (toolCalls : list ToolCall) (messages : list ChatMessageItem)
  (allProducts : list Product) (st : St W) :
  let outcomes := fst (executions P toolCalls st) in
  let st2 := snd (executions P toolCalls st) in
  runToolCalls P toolCalls messages allProducts st
  = (Ok (messages ++ responses toolCalls outcomes,
         allProducts ++ flat_map foundBy outcomes),
     st2)
  /\ length outcomes = length toolCalls
  /\ Forall2 answers toolCalls (responses toolCalls outcomes)
  /\ exists d,
       trace st2 = trace st ++ d
       /\ filter isToolCall d = List.map EvToolCall toolCalls.
Proof.
  cbv zeta. pose proof (runToolCalls_executions P toolCalls messages
                          allProducts st) as Hrun.
  split; [exact Hrun|]. split; [apply executions_length|].
  destruct (tool_responses_in_order_run P toolCalls messages allProducts st)
    as (items & added & st2 & d & Hrun' & Hans & Ht & Hd).
  rewrite Hrun in Hrun'. injection Hrun' as Hitems _ Hst.
  apply app_inv_head in Hitems. rewrite Hitems, Hst.
  split; [exact Hans|]. now exists d.
Qed.

(** *** The write is the last thing a turn does *)

Definition isCreate (e : Event) : bool :=
  match e with EvCreate _ _ _ => true | _ => false end.

Definition noCreate (e : Event) : bool := negb (isCreate e).

(** [writes_last s c m]: [m] either throws without having written, or
    does nothing after the one write it makes, which is the write of the
    user's text [c] in the session [s]. *)
Definition writes_last {W A} (s c : jsstring) (m : M W A) : Prop :=
  forall st, exists d,
    trace (snd (m st)) = trace st ++ d
    /\ ((forallb noCreate d = true /\ exists t, fst (m st) = Throw t)
        \/ exists d0 a,
             d = d0 ++ [EvCreate s (Some c) a]
             /\ a <> Some []
             /\ forallb noCreate d0 = true).

Lemma orNull_not_empty a : orNull a <> Some [].
Proof. destruct a as [[|c a]|]; discriminate. Qed.

Lemma writes_last_throw {W A} s c t : writes_last s c (@throw W A t).
Proof.
  intros st. exists []. split; [symmetry; apply app_nil_r|].
  left. split; [reflexivity|]. now exists t.
Qed.

Lemma writes_last_bind {W A B} s c (m : M W A) (f : A -> M W B) :
  emits noCreate m -> (forall a, writes_last s c (f a)) ->
  writes_last s c (bind m f).
Proof.
  intros Hm Hf st. unfold bind. destruct (Hm st) as (d1 & E1 & Q1).
  destruct (m st) as [[a|t] st1]; cbn [snd] in E1.
  - destruct (Hf a st1) as (d2 & E2 & H2). exists (d1 ++ d2).
    split; [rewrite E2, E1; symmetry; apply app_assoc|].
    destruct H2 as [(Q2 & t & Ht)|(d0 & x & -> & Hx & Q0)].
    + left. split; [now rewrite forallb_app, Q1, Q2 | now exists t].
    + right. exists (d1 ++ d0), x.
      split; [apply app_assoc|]. split; [exact Hx|].
      now rewrite forallb_app, Q1, Q0.
  - exists d1. split; [exact E1|]. left. split; [exact Q1|]. now exists t.
Qed.

Lemma writes_last_create {W} (P : Providers W) s c a ps :
  a <> Some [] ->
  writes_last s c
    (createdMessage <- createChatMessage P s (Some c) a ;;
     ret (toResponse createdMessage ps)).
Proof.
  intros Ha st. exists [EvCreate s (Some c) a].
  unfold createChatMessage, call, bind, ret.
  destruct (chatMessage_create P s (Some c) a (world st)) as [[m|t] w];
    (split; [reflexivity|]); right; exists [], a; now repeat split.
Qed.

Lemma emits_executeToolCall {W} (P : Providers W) toolCall :
  emits noCreate (executeToolCall P toolCall).
Proof.
  intros st. destruct (executeToolCall_trace P toolCall st) as (d & E & Q).
  exists (EvToolCall toolCall :: d). split; [exact E|].
  change (forallb noCreate d = true).
  rewrite forallb_forall in *. intros e He.
  apply Q in He. now destruct e.
Qed.

Lemma emits_runToolCalls {W} (P : Providers W) toolCalls :
  forall messages allProducts,
    emits noCreate (runToolCalls P toolCalls messages allProducts).
Proof.
  induction toolCalls as [|toolCall rest IH]; intros messages allProducts;
    cbn [runToolCalls].
  - apply emits_ret.
  - apply emits_bind; [|intros step; apply IH].
    apply emits_try_catch; [|intros t; apply emits_ret].
    apply emits_bind; [apply emits_executeToolCall|].
    intros r. apply emits_ret.
Qed.

Lemma writes_last_addMessage {W} (P : Providers W) sessionId_ content_
  agentId :
  writes_last sessionId_ content_ (addMessage P sessionId_ content_ agentId).
Proof.
  assert (Hdirect : forall assistantContent,
             writes_last sessionId_ content_
               (directAnswer P sessionId_ content_ assistantContent)).
  { intros assistantContent. apply writes_last_create, orNull_not_empty. }
  assert (Hforced : forall messages assistantContent,
             writes_last sessionId_ content_
               (forcedAnswer P sessionId_ content_ messages assistantContent)).
  { intros messages assistantContent. unfold forcedAnswer.
    apply writes_last_bind; [apply emits_executeToolCall|].
    intros searchResult. cbv zeta.
    apply writes_last_bind; [now apply emits_call|].
    intros retryChoices.
    destruct (match firstMessage retryChoices with
              | Some m => orNull (cm_content m)
              | None => None
              end) as [retryContent|] eqn:E; [|apply Hdirect].
    apply writes_last_create.
    destruct (firstMessage retryChoices) as [m|]; [|discriminate].
    rewrite <- E. apply orNull_not_empty. }
  unfold addMessage. apply writes_last_bind.
  - unfold firstRound.
    apply emits_bind; [now apply emits_call|]. intros agent.
    apply emits_bind; [now apply emits_call|]. intros previous.
    apply emits_bind; [now apply emits_call|]. intros choices.
    apply emits_ret.
  - intros [messages [message|]]; cbn [fst snd];
      [|apply writes_last_throw].
    destruct (cm_tool_calls message) as [[|toolCall rest]|];
      try (destruct (shouldUseSearch content_);
           [apply Hforced | apply Hdirect]).
    unfold toolAnswer.
    apply writes_last_bind; [apply emits_runToolCalls|]. intros ran.
    cbv zeta. apply writes_last_bind; [now apply emits_call|].
    intros choices. destruct (firstMessage choices) as [finalMessage|];
      [|apply writes_last_throw].
    apply writes_last_bind;
      [|intros _; apply writes_last_create, orNull_not_empty].
    destruct (noToolCalls _); [apply emits_ret | now apply emits_emit].
Qed.

(** X7. In every run of [addMessage], whatever the collaborators answer:
    at most two completion calls are made; the turn is written at most
    once, as the last thing the run does, with the session and the user's
    text as they were given and an assistant text that is null or not
    empty; and a run that ends without a write has thrown. So nothing is
    written when a lookup, a completion or the tool round fails, and a
    run that returns has written its turn. *)
Theorem write_ends_the_turn {W} (P : Providers W)
  (sessionId_ content_ agentId : jsstring) (st : St W) :
  exists d,
    trace (snd (addMessage P sessionId_ content_ agentId st)) = trace st ++ d
    /\ completions d <= 2
    /\ ((count isCreate d = 0
         /\ exists t, fst (addMessage P sessionId_ content_ agentId st) = Throw t)
        \/ exists d0 a,
             d = d0 ++ [EvCreate sessionId_ (Some content_) a]
             /\ a <> Some []
             /\ count isCreate d0 = 0).
Proof.
  assert (Hcount : forall d, forallb noCreate d = true -> count isCreate d = 0).
  { induction d as [|e d IH]; [reflexivity|]. cbn [forallb].
    intros H. apply andb_true_iff in H as [He Hd]. unfold count in *.
    cbn [filter]. unfold noCreate in He. apply negb_true_iff in He.
    rewrite He. now apply IH. }
  destruct (writes_last_addMessage P sessionId_ content_ agentId st)
    as (d & E & H).
  destruct (phased_addMessage P sessionId_ content_ agentId st)
    as (d' & E' & _ & Hc).
  assert (d' = d) by (rewrite E in E'; now apply app_inv_head in E').
  subst d'. exists d. split; [exact E|]. split; [exact Hc|].
  destruct H as [(Q & t & Ht)|(d0 & a & -> & Ha & Q0)].
  - left. split; [now apply Hcount | now exists t].
  - right. exists d0, a. split; [reflexivity|]. split; [exact Ha|].
    now apply Hcount.
Qed.

(** ** What a match has read *)

(** The loop of a repetition, by name. *)
Definition star_loop
  (body : mstate -> (mstate -> option mstate) -> option mstate)
  (greedy : bool) (k : mstate -> option mstate)
  : nat -> mstate -> option mstate :=
  fix loop (fuel : nat) (s : mstate) {struct fuel} : option mstate :=
    match fuel with
    | O => k s
    | S fuel' =>
        let again (_ : unit) :=
          body s (fun s1 =>
                    if length (after s1) <? length (after s)
                    then loop fuel' s1 else None) in
        if greedy then
          match again tt with
          | Some res => Some res
          | None => k s
          end
        else
          match k s with
          | Some res => Some res
          | None => again tt
          end
    end.

Lemma rx_star fl g r s k :
  rx fl (RStar g r) s k = star_loop (rx fl r) g k (S (length (after s))) s.
Proof. reflexivity. Qed.

Lemma rx_seq fl a b s k :
  rx fl (RSeq a b) s k = rx fl a s (fun s1 => rx fl b s1 k).
Proof. reflexivity. Qed.

(** Every result of the matcher is a result of its continuation. *)
Lemma star_loop_from_k body g k res :
  (forall s k', body s k' = Some res -> exists s', k' s' = Some res) ->
  forall fuel s,
    star_loop body g k fuel s = Some res -> exists s', k s' = Some res.
Proof.
  intros Hbody. induction fuel as [|fuel IH]; intros s H; [now exists s|].
  cbn [star_loop] in H. cbv zeta in H.
  assert (Hagain :
            body s (fun s1 =>
                      if length (after s1) <? length (after s)
                      then star_loop body g k fuel s1 else None) = Some res ->
            exists s', k s' = Some res).
  { intros Hb. apply Hbody in Hb as (s1 & Hs1).
    destruct (length (after s1) <? length (after s)); [|discriminate].
    now apply IH in Hs1. }
  destruct g.
  - destruct (body s _) as [res'|] eqn:E.
    + injection H as ->. now apply Hagain.
    + now exists s.
  - destruct (k s) as [res'|] eqn:E.
    + injection H as ->. now exists s.
    + now apply Hagain.
Qed.

Lemma rx_from_k fl r : forall s k res,
  rx fl r s k = Some res -> exists s', k s' = Some res.
Proof.
  induction r as [|c| |negated items|r1 IH1 r2 IH2|r1 IH1 r2 IH2|g r1 IH1
                  |n r1 IH1|positive r1 IH1| |]; intros s k res H.
  - now exists s.
  - cbn [rx] in H. unfold step_unit in H.
    destruct (after s) as [|x rest]; [discriminate|].
    destruct (unit_matches _ c x); [eauto | discriminate].
  - cbn [rx] in H. unfold step_unit in H.
    destruct (after s) as [|x rest]; [discriminate|].
    destruct (negb _); [eauto | discriminate].
  - cbn [rx] in H. unfold step_unit in H.
    destruct (after s) as [|x rest]; [discriminate|].
    destruct (set_matches _ _ _ x); [eauto | discriminate].
  - rewrite rx_seq in H. apply IH1 in H as (s1 & H). now apply IH2 in H.
  - cbn [rx] in H. destruct (rx fl r1 s k) as [res'|] eqn:E.
    + injection H as ->. now apply IH1 in E.
    + now apply IH2 in H.
  - rewrite rx_star in H.
    apply (@star_loop_from_k (rx fl r1) g k res) in H; [exact H|].
    intros s0 k'. apply IH1.
  - cbn [rx] in H. apply IH1 in H as (s1 & H). eauto.
  - cbn [rx] in H. destruct (rx fl r1 s _) as [s1|].
    + destruct positive; [eauto | discriminate].
    + destruct positive; [discriminate | eauto].
  - cbn [rx] in H. destruct (at_bol _ s); [eauto | discriminate].
  - cbn [rx] in H. destruct (at_eol _ s); [eauto | discriminate].
Qed.

Lemma captured_read w s c : captured s (mkMstate (rev w ++ before s) c (caps s)) = w.
Proof.
  unfold captured. cbn [before]. rewrite length_app.
  replace (length (rev w) + length (before s) - length (before s))
    with (length (rev w)) by lia.
  now rewrite firstn_app, Nat.sub_diag, firstn_all, app_nil_r, rev_involutive.
Qed.

(** Expressions that read one code unit, with the test they apply. *)
Definition unit_test (fl : flags) (r : regex) : option (N -> bool) :=
  match r with
  | RChar c => Some (unit_matches (ignoreCase fl) c)
  | RAny => Some (fun x => negb (isLineTerminator x))
  | RSet negated items => Some (set_matches (ignoreCase fl) negated items)
  | _ => None
  end.

Lemma rx_unit fl r p s k :
  unit_test fl r = Some p -> rx fl r s k = step_unit p s k.
Proof. destruct r; simpl; intros [= <-]; reflexivity. Qed.

(** A repetition of a one-unit expression has read a run of units that
    pass its test. *)
Lemma star_units fl r p g k res :
  unit_test fl r = Some p ->
  forall fuel s,
    star_loop (rx fl r) g k fuel s = Some res ->
    exists w rest,
      after s = w ++ rest
      /\ Forall (fun c => p c = true) w
      /\ k (mkMstate (rev w ++ before s) rest (caps s)) = Some res.
Proof.
  intros Hr.
  assert (Hstay : forall s, k s = Some res ->
             exists w rest,
               after s = w ++ rest
               /\ Forall (fun c => p c = true) w
               /\ k (mkMstate (rev w ++ before s) rest (caps s)) = Some res).
  { intros s H. exists [], (after s). split; [reflexivity|].
    split; [constructor|]. now destruct s. }
  induction fuel as [|fuel IH]; intros s H; [now apply Hstay|].
  cbn [star_loop] in H. cbv zeta in H.
  rewrite (@rx_unit fl r p _ _ Hr) in H. unfold step_unit in H.
  assert (Hagain :
            match after s with
            | [] => None
            | x :: rest =>
                if p x
                then
                  (fun s1 =>
                     if length (after s1) <? length (after s)
                     then star_loop (rx fl r) g k fuel s1 else None)
                    (mkMstate (x :: before s) rest (caps s))
                else None
            end = Some res ->
            exists w rest,
              after s = w ++ rest
              /\ Forall (fun c => p c = true) w
              /\ k (mkMstate (rev w ++ before s) rest (caps s)) = Some res).
  { destruct (after s) as [|x rest] eqn:Ea; [discriminate|].
    destruct (p x) eqn:Ex; [|discriminate]. cbv beta. cbn [after].
    destruct (length rest <? _); [|discriminate].
    intros E. apply IH in E as (w & rest' & Hrest & Hw & Hk).
    cbn [before after caps] in *. exists (x :: w), rest'.
    split; [now rewrite Hrest|]. split; [now constructor|].
    cbn [rev]. now rewrite <- app_assoc. }
  destruct g.
  - destruct (match after s with [] => None | _ :: _ => _ end)
      as [res'|] eqn:E.
    + injection H as ->. now apply Hagain.
    + now apply Hstay.
  - destruct (k s) as [res'|] eqn:E.
    + injection H as ->. now apply Hstay.
    + now apply Hagain.
Qed.

(** A greedy repetition of a one-unit expression reads the whole run
    when what follows accepts that. *)
Lemma star_greedy_run fl r p k res :
  unit_test fl r = Some p ->
  forall w rest fuel s,
    after s = w ++ rest ->
    Forall (fun c => p c = true) w ->
    match rest with [] => True | c :: _ => p c = false end ->
    length w < fuel ->
    k (mkMstate (rev w ++ before s) rest (caps s)) = Some res ->
    star_loop (rx fl r) true k fuel s = Some res.
Proof.
  intros Hr. induction w as [|c w IH]; intros rest fuel s Hs Hw Hrest Hfuel Hk.
  - cbn [app rev] in Hs, Hk.
    assert (Es : s = mkMstate (before s) rest (caps s))
      by (destruct s; cbn in *; now subst).
    rewrite <- Es in Hk.
    destruct fuel as [|fuel]; [exact Hk|].
    cbn [star_loop]. rewrite (@rx_unit fl r p _ _ Hr). unfold step_unit.
    rewrite Hs. destruct rest as [|x rest]; [now rewrite Hk|].
    now rewrite Hrest, Hk.
  - destruct fuel as [|fuel]; [cbn in Hfuel; lia|].
    inversion Hw as [|? ? Hc Hw']; subst.
    cbn [star_loop]. rewrite (@rx_unit fl r p _ _ Hr). unfold step_unit at 1.
    rewrite Hs. cbn [app]. rewrite Hc. cbn [after length].
    assert (Hlt : (length (w ++ rest) <? S (length (w ++ rest))) = true)
      by (apply Nat.ltb_lt; lia).
    rewrite Hlt.
    rewrite (IH rest fuel (mkMstate (c :: before s) (w ++ rest) (caps s)));
      try reflexivity; try assumption.
    + cbn in Hfuel. lia.
    + cbn [before caps rev] in *. now rewrite <- app_assoc in Hk.
Qed.

Lemma digit_unit ic c : set_matches ic false [CDigit] c = isDigit c.
Proof. unfold set_matches. cbn. now rewrite orb_false_r. Qed.

(** A group of digits captures a run of digits that is not empty. *)
Lemma group_digits fl n s k res :
  rx fl (RGroup n digits) s k = Some res ->
  exists w s1,
    w <> [] /\ Forall (fun c => isDigit c = true) w
    /\ caps s1 = (n, w) :: caps s
    /\ k s1 = Some res.
Proof.
  unfold digits, RPlus. cbn [rx]. unfold step_unit at 1.
  destruct (after s) as [|x rest] eqn:Ea; [discriminate|].
  rewrite digit_unit. destruct (isDigit x) eqn:Ex; [|discriminate].
  intros H.
  match type of H with
  | ?lhs = _ =>
      change lhs
        with (star_loop (rx fl (RSet false [CDigit])) true
                (fun s1 =>
                   k (mkMstate (before s1) (after s1)
                        ((n, captured s s1) :: caps s1)))
                (S (length rest))
                (mkMstate (x :: before s) rest (caps s))) in H
  end.
  apply (@star_units fl (RSet false [CDigit])
           (set_matches (ignoreCase fl) false [CDigit]) true
           _ res eq_refl) in H as (w & rest' & Hrest & Hw & Hk).
  cbn [before after caps] in Hk.
  assert (E : rev w ++ x :: before s = rev (x :: w) ++ before s)
    by (cbn [rev]; now rewrite <- app_assoc).
  rewrite E, captured_read in Hk.
  exists (x :: w), (mkMstate (rev (x :: w) ++ before s) rest'
                     ((n, x :: w) :: caps s)).
  split; [discriminate|]. split; [|now split].
  constructor; [exact Ex|].
  eapply Forall_impl; [|exact Hw]. intros c Hc.
  rewrite <- (digit_unit (ignoreCase fl)). exact Hc.
Qed.

(** An expression that ends in the group [n] of digits. *)
Inductive ends_in_digits (n : nat) : regex -> Prop :=
| ends_group : ends_in_digits n (RGroup n digits)
| ends_seq r1 r2 : ends_in_digits n r2 -> ends_in_digits n (RSeq r1 r2).

(** A string of digits that is not empty. *)
Definition numeric (s : jsstring) : Prop :=
  s <> [] /\ Forall (fun c => isDigit c = true) s.

Lemma ends_in_digits_caps fl n r :
  ends_in_digits n r ->
  forall s k res,
    rx fl r s k = Some res ->
    exists w s1 rest,
      numeric w /\ caps s1 = (n, w) :: rest /\ k s1 = Some res.
Proof.
  induction 1 as [|r1 r2 Hr IH]; intros s k res H.
  - apply group_digits in H as (w & s1 & Hne & Hw & Hc & Hk).
    exists w, s1, (caps s). now repeat split.
  - rewrite rx_seq in H. apply rx_from_k in H as (s' & H). now apply IH in H.
Qed.

Lemma search_start fl r : forall aft bef m s1,
  search fl r bef aft = Some (m, s1) ->
  exists bef' aft',
    rx fl r (start_state bef' aft') (fun s => Some s) = Some s1
    /\ m = to_rmatch (start_state bef' aft') s1.
Proof.
  induction aft as [|c aft IH]; intros bef m s1 H; cbn [search] in H.
  - destruct (rx fl r (start_state bef []) _) as [s1'|] eqn:E;
      [|discriminate].
    injection H as <- <-. eauto.
  - destruct (rx fl r (start_state bef (c :: aft)) _) as [s1'|] eqn:E.
    + injection H as <- <-. eauto.
    + now apply IH in H.
Qed.

Lemma matchAll_from_start fl r m : forall fuel bef aft,
  In m (matchAll_from fl r fuel bef aft) ->
  exists bef' aft' s1,
    rx fl r (start_state bef' aft') (fun s => Some s) = Some s1
    /\ m = to_rmatch (start_state bef' aft') s1.
Proof.
  induction fuel as [|fuel IH]; intros bef aft H; cbn [matchAll_from] in H;
    [contradiction|].
  destruct (search fl r bef aft) as [[m0 s1]|] eqn:E; [|contradiction].
  destruct H as [<-|H].
  - apply search_start in E as (bef' & aft' & Hrx & Hm). eauto.
  - destruct (advance m0 s1) as [[bef1 aft1]|]; [|contradiction].
    now apply IH in H.
Qed.

Lemma group_of_caps n w rest bef aft s1 :
  caps s1 = (n, w) :: rest ->
  group n (to_rmatch (start_state bef aft) s1) = w.
Proof.
  intros H. unfold group, to_rmatch. cbn [groups]. rewrite H.
  cbn [assoc_nat]. now rewrite Nat.eqb_refl.
Qed.

Lemma matchAll_numeric fl n r s m :
  ends_in_digits n r -> In m (matchAll fl r s) -> numeric (group n m).
Proof.
  intros Hr H. apply matchAll_from_start in H as (bef & aft & s1 & Hrx & ->).
  apply (@ends_in_digits_caps fl n r Hr) in Hrx as (w & s2 & rest & Hw & Hc & Hk).
  injection Hk as ->. now rewrite (@group_of_caps n w rest bef aft s1 Hc).
Qed.

Lemma rx_match_numeric fl n r s m :
  ends_in_digits n r -> rx_match fl r s = Some m -> numeric (group n m).
Proof.
  intros Hr H. unfold rx_match in H.
  destruct (search fl r [] s) as [[m0 s1]|] eqn:E; [|discriminate].
  injection H as <-.
  apply search_start in E as (bef & aft & Hrx & ->).
  apply (@ends_in_digits_caps fl n r Hr) in Hrx as (w & s2 & rest & Hw & Hc & Hk).
  injection Hk as ->. now rewrite (@group_of_caps n w rest bef aft s1 Hc).
Qed.

Lemma productIdMarker_ends : ends_in_digits 1 productIdMarker.
Proof. repeat constructor. Qed.

Lemma structuredHeading_ends : ends_in_digits 2 structuredHeading.
Proof. repeat constructor. Qed.

Lemma assistantProductId_ends : ends_in_digits 1 assistantProductId.
Proof. repeat constructor. Qed.

(** ** The records of the extractors *)

(** A record with an identifier, a name and a description. *)
Definition wellFormed (p : Product) : Prop :=
  productId p <> [] /\ name p <> [] /\ description p <> [].

Lemma orDefault_nonempty a b : b <> [] -> orDefault a b <> [].
Proof. intros Hb. destruct a; [exact Hb | discriminate]. Qed.

Lemma placeholderName_nonempty i : placeholderName i <> [].
Proof. discriminate. Qed.

Lemma NO_DESCRIPTION_nonempty : NO_DESCRIPTION <> [].
Proof. discriminate. Qed.

(** What the document extractor may give for a document with the
    metadata [metadata]: a well-formed record whose identifier is that of
    the metadata or a string of digits read from the content. *)
Definition recordOf (metadata : json) (p : Product) : Prop :=
  wellFormed p
  /\ (productId p = String_ (metadataId metadata) \/ numeric (productId p)).

Lemma fromMetadata_recordOf metadata :
  Forall (recordOf metadata) (fromMetadata metadata).
Proof.
  unfold fromMetadata.
  destruct (truthy_json metadata && truthy (metadataId metadata));
    [|constructor].
  cbv zeta.
  destruct (String_ (metadataId metadata) === []) eqn:Eid;
    cbn [negb andb]; [constructor|].
  destruct (_ || _); [|constructor].
  constructor; [|constructor].
  apply str_eqb_neq in Eid.
  split; [|now left].
  split; [exact Eid|]. cbn [name description].
  split; apply orDefault_nonempty; discriminate.
Qed.

Lemma updateExisting_recordOf metadata i n d : forall l l',
  Forall (recordOf metadata) l ->
  updateExisting i n d l = Some l' ->
  Forall (recordOf metadata) l'.
Proof.
  induction l as [|p l IH]; intros l' Hl H; cbn [updateExisting] in H;
    [discriminate|].
  inversion Hl as [|? ? Hp Hl']; subst.
  destruct (productId p === i).
  - injection H as <-. constructor; [|exact Hl'].
    destruct Hp as ((Hid & Hn & Hd) & Hsrc).
    split; [|exact Hsrc].
    split; [exact Hid|]. cbn [name description]. split.
    + destruct (n === []) eqn:En; cbn [negb andb]; [exact Hn|].
      destruct (name p === _); [now apply str_eqb_neq in En | exact Hn].
    + destruct (d === []) eqn:Ed; cbn [negb andb]; [exact Hd|].
      destruct (description p === _);
        [now apply str_eqb_neq in Ed | exact Hd].
  - destruct (updateExisting i n d l) as [l0|]; [|discriminate].
    injection H as <-. constructor; [exact Hp|]. now apply IH.
Qed.

Lemma scanMarker_recordOf metadata content l m :
  numeric (group 1 m) ->
  Forall (recordOf metadata) l ->
  Forall (recordOf metadata) (scanMarker content l m).
Proof.
  intros Hm Hl. unfold scanMarker. cbv zeta.
  destruct (updateExisting _ _ _ l) as [l'|] eqn:E.
  - now apply (@updateExisting_recordOf metadata _ _ _ l l' Hl E).
  - apply Forall_app. split; [exact Hl|]. constructor; [|constructor].
    split; [|now right].
    split; [exact (proj1 Hm)|]. cbn [name description].
    split; apply orDefault_nonempty; discriminate.
Qed.

Lemma fold_scanMarker_recordOf metadata content ms : forall l,
  Forall (fun m => numeric (group 1 m)) ms ->
  Forall (recordOf metadata) l ->
  Forall (recordOf metadata) (fold_left (scanMarker content) ms l).
Proof.
  induction ms as [|m ms IH]; intros l Hms Hl; [exact Hl|].
  inversion Hms; subst. cbn [fold_left]. apply IH; [assumption|].
  now apply scanMarker_recordOf.
Qed.

Lemma scanHeading_recordOf metadata content m :
  numeric (group 2 m) -> recordOf metadata (scanHeading content m).
Proof.
  intros Hm. unfold scanHeading. cbv zeta.
  split; [|now right].
  split; [exact (proj1 Hm)|]. cbn [name description].
  split; apply orDefault_nonempty; discriminate.
Qed.

Lemma extractFromDocument_recordOf doc :
  Forall (recordOf (doc_metadata doc)) (extractFromDocument doc).
Proof.
  unfold extractFromDocument.
  destruct (metadataThrows (doc_metadata doc)); [constructor|]. cbv zeta.
  assert (Hscan : Forall (recordOf (doc_metadata doc))
                    (fold_left (scanMarker (doc_content doc))
                       (matchAll caseless productIdMarker (doc_content doc))
                       (fromMetadata (doc_metadata doc)))).
  { apply fold_scanMarker_recordOf; [|apply fromMetadata_recordOf].
    apply Forall_forall. intros m Hm.
    exact (@matchAll_numeric caseless 1 productIdMarker (doc_content doc) m productIdMarker_ends Hm). }
  assert (Hhead : Forall (recordOf (doc_metadata doc))
                    (List.map (scanHeading (doc_content doc))
                       (matchAll caselessMultiline structuredHeading
                          (doc_content doc)))).
  { apply Forall_forall. intros p Hp.
    apply in_map_iff in Hp as (m & <- & Hm).
    apply scanHeading_recordOf.
    exact (@matchAll_numeric caselessMultiline 2 structuredHeading (doc_content doc) m structuredHeading_ends Hm). }
  destruct (match fromMetadata (doc_metadata doc) with
            | [] => true
            | first :: _ => name first === placeholderName (productId first)
            end).
  - destruct (fold_left _ _ _) as [|p l] eqn:E; [exact Hhead | exact Hscan].
  - pose proof (fromMetadata_recordOf (doc_metadata doc)) as Hmeta.
    destruct (fromMetadata (doc_metadata doc)) as [|p l];
      [exact Hhead | exact Hmeta].
Qed.

Lemma in_uniqueByProductId p l : In p (uniqueByProductId l) -> In p l.
Proof.
  rewrite uniqueByProductId_nubBy. intros H.
  apply in_nubBy in H as (pre & post & -> & _).
  apply in_or_app. right. now left.
Qed.

Lemma extractProductsFromDocuments_recordOf docs p :
  In p (extractProductsFromDocuments docs) ->
  exists doc,
    In doc docs /\ In p (extractFromDocument doc)
    /\ recordOf (doc_metadata doc) p.
Proof.
  intros H. apply in_uniqueByProductId, in_flat_map in H as (doc & Hdoc & Hp).
  exists doc. split; [exact Hdoc|]. split; [exact Hp|].
  pose proof (extractFromDocument_recordOf doc) as Hall.
  rewrite Forall_forall in Hall. now apply Hall.
Qed.



(** *** The assistant-text extractor *)

Lemma cut_concat : forall aft piece bef,
  concat (cut piece bef aft) = rev piece ++ aft.
Proof.
  induction aft as [|c aft IH]; intros piece bef; cbn [cut].
  - cbn. now rewrite !app_nil_r.
  - destruct (headerAt bef (c :: aft) && nonempty piece).
    + cbn [concat]. rewrite IH. reflexivity.
    + rewrite IH. cbn [rev]. now rewrite <- app_assoc.
Qed.

Lemma rx_split_concat s : concat (rx_split plain sectionStart s) = s.
Proof.
  rewrite rx_split_cut. destruct s as [|c s]; [reflexivity|].
  now rewrite cut_concat.
Qed.

Lemma in_collect {A} (x : A) l : In x (collect l) <-> In (Some x) l.
Proof.
  induction l as [|[y|] l IH]; cbn [collect]; [tauto| |].
  - cbn [In]. rewrite IH. split; intros [H|H]; auto.
    + left. now f_equal.
    + left. now injection H.
  - cbn [In]. rewrite IH. split; [auto|]. now intros [H|H].
Qed.

Lemma collect_length {A} (l : list (option A)) : length (collect l) <= length l.
Proof.
  induction l as [|[y|] l IH]; cbn [collect length]; lia.
Qed.

Lemma sectionId_numeric section i : sectionId section = Some i -> numeric i.
Proof.
  unfold sectionId. intros H.
  destruct (rx_match caseless assistantProductId section) as [m|] eqn:E;
    [|discriminate].
  injection H as <-.
  exact (@rx_match_numeric caseless 1 assistantProductId section m
           assistantProductId_ends E).
Qed.

Lemma in_extractProductsFromAssistantMessage message p :
  In p (extractProductsFromAssistantMessage message) ->
  exists section,
    In section (rx_split plain sectionStart message)
    /\ extractFromSection section = Some p
    /\ numeric (productId p) /\ name p <> [] /\ description p <> [].
Proof.
  unfold extractProductsFromAssistantMessage. intros H.
  apply in_collect, in_map_iff in H as (section & Hp & Hin).
  exists section. split; [exact Hin|]. split; [exact Hp|].
  apply extractFromSection_some in Hp as (Hid & _ & Hn & Hd).
  apply sectionId_numeric in Hid. split; [exact Hid|]. now split.
Qed.

(** X9. The assistant-text extractor cuts the text into consecutive
    sections, losing nothing, and gives at most one record per section.
    Every record it gives is the record of one of these sections; its
    identifier is a string of digits that is not empty, and its name and
    its description are not empty. *)
Theorem assistant_records_well_formed (message : jsstring) :
  concat (rx_split plain sectionStart message) = message
  /\ length (extractProductsFromAssistantMessage message)
     <= length (rx_split plain sectionStart message)
  /\ forall p,
       In p (extractProductsFromAssistantMessage message) ->
       exists section,
         In section (rx_split plain sectionStart message)
         /\ extractFromSection section = Some p
         /\ numeric (productId p) /\ name p <> [] /\ description p <> [].
Proof.
  split; [apply rx_split_concat|]. split.
  - unfold extractProductsFromAssistantMessage.
    etransitivity; [apply collect_length|]. now rewrite length_map.
  - intros p. apply in_extractProductsFromAssistantMessage.
Qed.

Lemma assistant_records_well_formed_witness :
  exists section,
    In section (rx_split plain sectionStart twoBlocks)
    /\ extractFromSection section
       = Some (mkProduct (js "Blue Gadget") (js "9")
                 (js "A blue gadget that glows."))
    /\ numeric (js "9") /\ js "Blue Gadget" <> []
    /\ js "A blue gadget that glows." <> [].
Proof.
  apply (proj2 (proj2 (assistant_records_well_formed twoBlocks))
           (mkProduct (js "Blue Gadget") (js "9")
              (js "A blue gadget that glows."))).
  vm_compute. right. now left.
Defined.

(** *** The products of a response *)

Lemma assistant_wellFormed message :
  Forall wellFormed (extractProductsFromAssistantMessage message).
Proof.
  apply Forall_forall. intros p Hp.
  apply in_extractProductsFromAssistantMessage in Hp
    as (section & _ & _ & (Hid & _) & Hn & Hd).
  now repeat split.
Qed.

Lemma documents_wellFormed docs :
  Forall wellFormed (extractProductsFromDocuments docs).
Proof.
  apply Forall_forall. intros p Hp.
  apply extractProductsFromDocuments_recordOf in Hp
    as (doc & _ & _ & Hwf & _).
  exact Hwf.
Qed.

Lemma enrichProduct_wellFormed assistantProducts product :
  Forall wellFormed assistantProducts ->
  wellFormed product ->
  wellFormed (enrichProduct assistantProducts product).
Proof.
  intros Haps (Hid & Hn & Hd). unfold enrichProduct.
  destruct (find _ assistantProducts) as [ap|] eqn:F; [|now repeat split].
  apply find_some in F as [Hin _].
  rewrite Forall_forall in Haps. destruct (Haps ap Hin) as (_ & Han & Had).
  split; [exact Hid|]. cbn [name description]. split.
  - destruct (_ && _); assumption.
  - destruct (_ && _); assumption.
Qed.

Lemma reconcileProducts_wellFormed uniqueProducts finalContent :
  Forall wellFormed uniqueProducts ->
  Forall wellFormed (reconcileProducts uniqueProducts finalContent).
Proof.
  intros Hu. unfold reconcileProducts.
  assert (Henrich : forall l aps,
             Forall wellFormed aps ->
             Forall wellFormed l ->
             Forall wellFormed (enrichProducts l aps)).
  { intros l aps Haps Hl. unfold enrichProducts. apply Forall_forall.
    intros p Hp. apply in_map_iff in Hp as (q & <- & Hq).
    apply enrichProduct_wellFormed; [exact Haps|].
    rewrite Forall_forall in Hl. now apply Hl. }
  pose proof (assistant_wellFormed) as Ha.
  destruct (orNull finalContent) as [text|].
  - specialize (Ha text). destruct uniqueProducts as [|p l].
    + destruct (includes text (js "Product ID")); [|constructor].
      cbn [app].
      destruct (extractProductsFromAssistantMessage text) as [|q l'];
        [constructor|].
      now apply Henrich.
    + now apply Henrich.
  - destruct uniqueProducts; assumption.
Qed.

Lemma executeToolCall_wellFormed {W} (P : Providers W) toolCall st r st' :
  executeToolCall P toolCall st = (Ok r, st') ->
  Forall wellFormed (products r).
Proof.
  destruct (tc_arguments toolCall) as [args|raw] eqn:Hargs.
  - destruct (tc_name toolCall === SEARCH_KNOWLEDGE_BASE) eqn:Hname.
    + apply str_eqb_eq in Hname.
      rewrite (executeToolCall_search P toolCall st Hargs Hname).
      destruct (searchDocuments P args (entered toolCall st))
        as [[[|doc docs]|t] st1]; intros [= <- _]; cbn [products];
        try constructor.
      apply documents_wellFormed.
    + apply str_eqb_neq in Hname.
      rewrite (executeToolCall_unknown P toolCall st Hargs Hname).
      intros [= <- _]. constructor.
  - rewrite (executeToolCall_malformed P toolCall st Hargs). discriminate.
Qed.

(** [ensures Q m]: whenever [m] returns, what it returns satisfies [Q]. *)
Definition ensures {W A} (Q : A -> Prop) (m : M W A) : Prop :=
  forall st a st', m st = (Ok a, st') -> Q a.

Lemma ensures_ret {W A} (Q : A -> Prop) a : Q a -> ensures Q (@ret W A a).
Proof. intros H st a' st' [= <- _]. exact H. Qed.

Lemma ensures_throw {W A} (Q : A -> Prop) t : ensures Q (@throw W A t).
Proof. intros st a st'. discriminate. Qed.

Lemma ensures_bind {W A B} (Q1 : A -> Prop) (Q : B -> Prop) (m : M W A)
  (f : A -> M W B) :
  ensures Q1 m -> (forall a, Q1 a -> ensures Q (f a)) -> ensures Q (bind m f).
Proof.
  intros Hm Hf st b st'. unfold bind.
  destruct (m st) as [[a|t] st1] eqn:E; [|discriminate].
  apply (Hf a (Hm _ _ _ E)).
Qed.

Lemma ensures_any {W A} (m : M W A) : ensures (fun _ => True) m.
Proof. intros st a st' _. exact I. Qed.

Lemma ensures_try_catch {W A} (Q : A -> Prop) (m : M W A) h :
  ensures Q m -> (forall t, ensures Q (h t)) -> ensures Q (try_catch m h).
Proof.
  intros Hm Hh st a st'. unfold try_catch.
  destruct (m st) as [[a0|t] st1] eqn:E.
  - intros [= <- <-]. exact (Hm _ _ _ E).
  - apply Hh.
Qed.

Lemma ensures_runToolCalls {W} (P : Providers W) toolCalls :
  forall messages allProducts,
    Forall wellFormed allProducts ->
    ensures (fun ran => Forall wellFormed (snd ran))
      (runToolCalls P toolCalls messages allProducts).
Proof.
  induction toolCalls as [|toolCall rest IH]; intros messages allProducts Hall;
    cbn [runToolCalls].
  - now apply ensures_ret.
  - apply (ensures_bind (Q1 := fun step => Forall wellFormed (snd step))).
    + apply ensures_try_catch; [|intros t; now apply ensures_ret].
      apply (ensures_bind (Q1 := fun r => Forall wellFormed (products r))).
      * intros st r st'. apply executeToolCall_wellFormed.
      * intros r Hr. apply ensures_ret. cbn [snd].
        apply Forall_app. now split.
    + intros step Hstep. now apply IH.
Qed.

Lemma ensures_addMessage {W} (P : Providers W) sessionId_ content_ agentId :
  ensures (fun resp => Forall wellFormed (r_products resp))
    (addMessage P sessionId_ content_ agentId).
Proof.
  assert (Hwrite : forall a ps,
             Forall wellFormed ps ->
             ensures (fun resp => Forall wellFormed (r_products resp))
               (createdMessage <-
                  createChatMessage P sessionId_ (Some content_) a ;;
                ret (toResponse createdMessage ps))).
  { intros a ps Hps. apply (ensures_bind (Q1 := fun _ => True));
      [apply ensures_any|].
    intros created _. now apply ensures_ret. }
  assert (Hdirect : forall assistantContent,
             ensures (fun resp => Forall wellFormed (r_products resp))
               (directAnswer P sessionId_ content_ assistantContent)).
  { intros assistantContent. apply Hwrite. constructor. }
  assert (Hforced : forall messages assistantContent,
             ensures (fun resp => Forall wellFormed (r_products resp))
               (forcedAnswer P sessionId_ content_ messages assistantContent)).
  { intros messages assistantContent. unfold forcedAnswer.
    apply (ensures_bind (Q1 := fun r => Forall wellFormed (products r))).
    - intros st r st'. apply executeToolCall_wellFormed.
    - intros searchResult Hr. cbv zeta.
      apply (ensures_bind (Q1 := fun _ => True)); [apply ensures_any|].
      intros retryChoices _.
      destruct (match firstMessage retryChoices with
                | Some m => orNull (cm_content m)
                | None => None
                end) as [retryContent|];
        [now apply Hwrite | apply Hdirect]. }
  unfold addMessage.
  apply (ensures_bind (Q1 := fun _ => True)); [apply ensures_any|].
  intros [messages [message|]] _; cbn [fst snd]; [|apply ensures_throw].
  destruct (cm_tool_calls message) as [[|toolCall rest]|];
    try (destruct (shouldUseSearch content_);
         [apply Hforced | apply Hdirect]).
  unfold toolAnswer.
  apply (ensures_bind (Q1 := fun ran => Forall wellFormed (snd ran))).
  - apply ensures_runToolCalls. constructor.
  - intros ran Hran. cbv zeta.
    apply (ensures_bind (Q1 := fun _ => True)); [apply ensures_any|].
    intros choices _. destruct (firstMessage choices) as [finalMessage|];
      [|apply ensures_throw].
    apply (ensures_bind (Q1 := fun _ => True)); [apply ensures_any|].
    intros _ _. apply Hwrite. apply reconcileProducts_wellFormed.
    apply Forall_forall. intros p Hp. apply in_uniqueByProductId in Hp.
    rewrite Forall_forall in Hran. now apply Hran.
Qed.

(** X10. Every product of a response that [addMessage] returns has an
    identifier, a name and a description that are not empty, whichever
    branch was taken and whatever the collaborators answered. *)
Theorem response_products_well_formed {W} (P : Providers W)
  (sessionId_ content_ agentId : jsstring) (st : St W)
  (resp : ChatMessageResponse) (st' : St W) :
  addMessage P sessionId_ content_ agentId st = (Ok resp, st') ->
  Forall (fun p => productId p <> [] /\ name p <> [] /\ description p <> [])
    (r_products resp).
Proof. apply (ensures_addMessage P sessionId_ content_ agentId). Qed.

Lemma response_products_well_formed_witness :
  exists resp st',
    addMessage scriptedProviders (js "s1") (js "red widgets?") (js "a1")
      (mkSt toolScript [])
    = (Ok resp, st')
    /\ r_products resp = [mkProduct (js "Widget") (js "42") NO_DESCRIPTION]
    /\ Forall (fun p =>
                 productId p <> [] /\ name p <> [] /\ description p <> [])
         (r_products resp).
Proof.
  do 2 eexists. split; [vm_compute; reflexivity|]. split; [reflexivity|].
  eapply (@response_products_well_formed _ scriptedProviders (js "s1")
            (js "red widgets?") (js "a1") (mkSt toolScript [])).
  vm_compute. reflexivity.
Defined.

(** X11. The reconciliation never adds, removes or reorders identifiers.
    The products the tools found keep their identifiers, in their order,
    whatever the final text says; the final text is a source of products
    only when the tools found none and it contains the text [Product ID]
    in exactly this spelling. *)
Theorem reconcile_identifiers (uniqueProducts : list Product)
  (finalContent : option jsstring) :
  List.map productId (reconcileProducts uniqueProducts finalContent)
  = match uniqueProducts, orNull finalContent with
    | [], Some text =>
        if includes text (js "Product ID")
        then List.map productId (extractProductsFromAssistantMessage text)
        else []
    | _, _ => List.map productId uniqueProducts
    end.
Proof.
  assert (Henrich : forall l aps,
             List.map productId (enrichProducts l aps) = List.map productId l).
  { intros l aps. unfold enrichProducts. rewrite map_map.
    apply map_ext. intros p. unfold enrichProduct.
    now destruct (find _ aps). }
  unfold reconcileProducts.
  destruct (orNull finalContent) as [text|].
  - destruct uniqueProducts as [|p l].
    + destruct (includes text (js "Product ID")); [|reflexivity].
      cbn [app].
      destruct (extractProductsFromAssistantMessage text) as [|q l'] eqn:E;
        [reflexivity|].
      apply Henrich.
    + apply Henrich.
  - now destruct uniqueProducts.
Qed.

(** *** The marker scan of a document *)

Lemma updateExisting_some i n d : forall l l',
  updateExisting i n d l = Some l' ->
  List.map productId l' = List.map productId l
  /\ existsb (fun p => productId p === i) l = true
  /\ Forall2 (fun p p' =>
                (name p <> placeholderName (productId p) -> name p' = name p)
                /\ (description p <> NO_DESCRIPTION ->
                    description p' = description p)) l l'.
Proof.
  induction l as [|p l IH]; intros l' H; cbn [updateExisting] in H;
    [discriminate|].
  cbn [existsb].
  destruct (productId p === i) eqn:E.
  - injection H as <-. cbn [List.map productId].
    split; [reflexivity|]. split; [reflexivity|].
    apply str_eqb_eq in E. subst i.
    constructor.
    + cbn [name description]. split.
      * intros Hn. apply str_eqb_neq in Hn. rewrite Hn.
        now rewrite andb_false_r.
      * intros Hd. apply str_eqb_neq in Hd. rewrite Hd.
        now rewrite andb_false_r.
    + clear. induction l as [|q l IH]; constructor; [now split | exact IH].
  - destruct (updateExisting i n d l) as [l0|]; [|discriminate].
    injection H as <-. destruct (IH l0 eq_refl) as (Hids & Hex & Hmono).
    cbn [List.map]. rewrite Hids. split; [reflexivity|].
    split; [exact Hex|]. constructor; [now split | exact Hmono].
Qed.

Lemma updateExisting_none i n d : forall l,
  updateExisting i n d l = None ->
  existsb (fun p => productId p === i) l = false.
Proof.
  induction l as [|p l IH]; intros H; cbn [updateExisting] in H;
    [reflexivity|].
  cbn [existsb]. destruct (productId p === i); [discriminate|].
  destruct (updateExisting i n d l); [discriminate|]. now apply IH.
Qed.

Lemma scanMarker_identifiers content l m :
  List.map productId (scanMarker content l m)
  = List.map productId l
    ++ (if existsb (fun p => productId p === group 1 m) l then []
        else [group 1 m]).
Proof.
  unfold scanMarker. cbv zeta.
  destruct (updateExisting _ _ _ l) as [l'|] eqn:E.
  - apply updateExisting_some in E as (Hids & Hex & _).
    now rewrite Hex, app_nil_r.
  - apply updateExisting_none in E. rewrite E, map_app. reflexivity.
Qed.

Lemma existsb_identifier i l :
  existsb (fun p => productId p === i) l = false ->
  ~ In i (List.map productId l).
Proof.
  induction l as [|p l IH]; cbn [existsb List.map In]; [tauto|].
  intros H. apply orb_false_iff in H as [Hp Hl].
  apply str_eqb_neq in Hp. intros [Heq|Hin]; [contradiction|].
  now apply IH.
Qed.

Lemma scanMarker_NoDup content l m :
  NoDup (List.map productId l) ->
  NoDup (List.map productId (scanMarker content l m)).
Proof.
  intros H. rewrite scanMarker_identifiers.
  destruct (existsb _ l) eqn:E; [now rewrite app_nil_r|].
  apply existsb_identifier in E.
  apply NoDup_app; [exact H | repeat constructor; intros [] | ].
  intros a Ha [<-|[]]. contradiction.
Qed.

Lemma fold_scanMarker_NoDup content ms : forall l,
  NoDup (List.map productId l) ->
  NoDup (List.map productId (fold_left (scanMarker content) ms l)).
Proof.
  induction ms as [|m ms IH]; intros l H; [exact H|].
  cbn [fold_left]. apply IH. now apply scanMarker_NoDup.
Qed.

Lemma scanMarker_grows content l m :
  length l <= length (scanMarker content l m)
  /\ 0 < length (scanMarker content l m).
Proof.
  assert (H : length (scanMarker content l m)
              = length (List.map productId (scanMarker content l m)))
    by (now rewrite length_map).
  rewrite scanMarker_identifiers, length_app, length_map in H.
  destruct (existsb _ l) eqn:E; cbn [length] in H.
  - split; [lia|]. destruct l; [discriminate | cbn [length] in *; lia].
  - lia.
Qed.

Lemma fold_scanMarker_grows content ms : forall l,
  length l <= length (fold_left (scanMarker content) ms l)
  /\ (ms <> [] -> 0 < length (fold_left (scanMarker content) ms l)).
Proof.
  induction ms as [|m ms IH]; intros l; cbn [fold_left].
  - split; [lia | intros H; contradiction].
  - destruct (IH (scanMarker content l m)) as [Hle _].
    destruct (scanMarker_grows content l m) as [Hl Hpos].
    split; [lia | intros _; lia].
Qed.

Lemma fromMetadata_NoDup metadata :
  NoDup (List.map productId (fromMetadata metadata)).
Proof.
  unfold fromMetadata.
  destruct (_ && _); [|constructor]. cbv zeta.
  destruct (_ && _); [|constructor].
  repeat constructor. intros [].
Qed.

(** X12. The scan of the [Product ID] markers of a content keeps one
    record per identifier. A marker whose identifier is already in the
    list leaves the identifiers as they are and changes no name and no
    description that holds a value other than the placeholder; any other
    marker adds its identifier at the end. So the records of a document
    whose metadata give a record, or whose content has a marker, have
    pairwise different identifiers. *)
Theorem marker_scan_keeps_identifiers_apart (doc : SupabaseDocument) :
  (forall l m,
     List.map productId (scanMarker (doc_content doc) l m)
     = List.map productId l
       ++ (if existsb (fun p => productId p === group 1 m) l then []
           else [group 1 m]))
  /\ (forall l m,
        existsb (fun p => productId p === group 1 m) l = true ->
        Forall2 (fun p p' =>
                   (name p <> placeholderName (productId p) ->
                    name p' = name p)
                   /\ (description p <> NO_DESCRIPTION ->
                       description p' = description p))
          l (scanMarker (doc_content doc) l m))
  /\ (fromMetadata (doc_metadata doc) <> []
      \/ matchAll caseless productIdMarker (doc_content doc) <> [] ->
      NoDup (List.map productId (extractFromDocument doc))).
Proof.
  split; [intros l m; apply scanMarker_identifiers|]. split.
  - intros l m Hex. unfold scanMarker. cbv zeta.
    destruct (updateExisting _ _ _ l) as [l'|] eqn:E.
    + now apply updateExisting_some in E as (_ & _ & Hmono).
    + apply updateExisting_none in E. congruence.
  - intros H. unfold extractFromDocument.
    destruct (metadataThrows (doc_metadata doc)); [constructor|]. cbv zeta.
    pose proof (fromMetadata_NoDup (doc_metadata doc)) as Hmeta.
    pose proof (fold_scanMarker_NoDup (doc_content doc)
                  (matchAll caseless productIdMarker (doc_content doc))
                  _ Hmeta) as Hscan.
    pose proof (fold_scanMarker_grows (doc_content doc)
                  (matchAll caseless productIdMarker (doc_content doc))
                  (fromMetadata (doc_metadata doc))) as [Hle Hpos].
    destruct (fromMetadata (doc_metadata doc)) as [|first rest] eqn:Em.
    + destruct H as [H|H]; [contradiction|]. specialize (Hpos H).
      destruct (fold_left _ _ _) as [|p l];
        [cbn [length] in Hpos; lia | exact Hscan].
    + destruct (name first === placeholderName (productId first)).
      * destruct (fold_left _ _ _) as [|p l];
          [cbn [length] in Hle; lia | exact Hscan].
      * exact Hmeta.
Qed.

Definition twoMarkersDoc : SupabaseDocument :=
  mkDocument (js "d2")
    (join [NL]
       [js "Red Widget";
        js "Product ID: 7";
        js "Description: small and red";
        [];
        js "Product ID: 7";
        js "Description: the same again"])
    (JObj []) (Real (js "0.8")).

Lemma marker_scan_keeps_identifiers_apart_witness :
  List.length (matchAll caseless productIdMarker (doc_content twoMarkersDoc))
  = 2
  /\ extractFromDocument twoMarkersDoc
     = [mkProduct (js "Red Widget") (js "7") (js "small and red")]
  /\ NoDup (List.map productId (extractFromDocument twoMarkersDoc)).
Proof.
  split; [vm_compute; reflexivity|]. split; [vm_compute; reflexivity|].
  apply (proj2 (proj2 (marker_scan_keeps_identifiers_apart twoMarkersDoc))).
  right. vm_compute. discriminate.
Defined.

(** *** Bounds on what the marker scan reads *)

Lemma trimStart_length s : length (trimStart s) <= length s.
Proof.
  induction s as [|c s IH]; cbn [trimStart length]; [lia|].
  destruct (isWhiteSpace c); cbn [length]; lia.
Qed.

Lemma trim_length s : length (trim s) <= length s.
Proof.
  unfold trim, trimEnd. rewrite length_rev.
  etransitivity; [apply trimStart_length|]. rewrite length_rev.
  apply trimStart_length.
Qed.

Lemma includes_unit c s : includes s [c] = false -> ~ In c s.
Proof.
  induction s as [|x s IH]; cbn [includes startsWith In]; [tauto|].
  intros H. apply orb_false_iff in H as [Hx Hs].
  rewrite andb_true_r in Hx. apply N.eqb_neq in Hx.
  intros [->|Hin]; [now contradiction Hx | now apply IH].
Qed.

Lemma nameFromLine_bounded lastLine :
  length (nameFromLine lastLine) <= 100
  /\ ~ In 58%N (nameFromLine lastLine)
  /\ includes (toLowerCase (nameFromLine lastLine)) (js "description") = false.
Proof.
  unfold nameFromLine. cbv zeta.
  destruct (_ || _) eqn:E.
  - cbn [length]. split; [lia|]. split; [intros []|reflexivity].
  - apply orb_false_iff in E as [E Hd]. apply orb_false_iff in E as [Hl Hc].
    apply Nat.ltb_ge in Hl. split; [exact Hl|]. split; [|exact Hd].
    now apply includes_unit.
Qed.

Lemma descriptionAfter_bounded afterContent :
  length (descriptionAfter afterContent) <= 300.
Proof.
  unfold descriptionAfter. cbv zeta.
  match goal with
  | |- length (match ?d with [] => [] | _ :: _ => ?t end) <= 300 =>
      destruct d; [cbn; lia|]
  end.
  etransitivity; [apply trim_length|].
  unfold substring. cbn [Nat.max Nat.min Nat.sub skipn].
  apply firstn_le_length.
Qed.

(** A record whose name is the placeholder or a short text without a
    colon and without the word [description], and whose description is
    short. *)
Definition bounded (p : Product) : Prop :=
  (name p = placeholderName (productId p)
   \/ (length (name p) <= 100 /\ ~ In 58%N (name p)
       /\ includes (toLowerCase (name p)) (js "description") = false))
  /\ length (description p) <= 300.

Lemma updateExisting_bounded i n d : forall l l',
  (length n <= 100 /\ ~ In 58%N n
   /\ includes (toLowerCase n) (js "description") = false) ->
  length d <= 300 ->
  Forall bounded l ->
  updateExisting i n d l = Some l' ->
  Forall bounded l'.
Proof.
  intros l l' Hn Hd. revert l'.
  induction l as [|p l IH]; intros l' Hl H; cbn [updateExisting] in H;
    [discriminate|].
  inversion Hl as [|? ? Hp Hl']; subst.
  destruct (productId p === i).
  - injection H as <-. constructor; [|exact Hl'].
    destruct Hp as [Hpn Hpd]. split; cbn [name description productId].
    + destruct (_ && _); [now right | exact Hpn].
    + destruct (_ && _); assumption.
  - destruct (updateExisting i n d l) as [l0|]; [|discriminate].
    injection H as <-. constructor; [exact Hp | now apply IH].
Qed.

Lemma scanMarker_bounded content l m :
  Forall bounded l -> Forall bounded (scanMarker content l m).
Proof.
  intros Hl. unfold scanMarker. cbv zeta.
  match goal with
  | |- context [updateExisting ?i ?n ?d l] =>
      assert (Hn : length n <= 100 /\ ~ In 58%N n
                   /\ includes (toLowerCase n) (js "description") = false);
      [|assert (Hd : length d <= 300) by apply descriptionAfter_bounded;
        destruct (updateExisting i n d l) as [l'|] eqn:E]
  end.
  - destruct (filter _ _); [|apply nameFromLine_bounded].
    cbn [length]. split; [lia|]. split; [intros []|reflexivity].
  - now apply (@updateExisting_bounded _ _ _ l l' Hn Hd Hl E).
  - apply Forall_app. split; [exact Hl|]. constructor; [|constructor].
    split; cbn [name description productId].
    + match goal with
      | |- orDefault ?n _ = _ \/ _ => destruct n eqn:En
      end; [now left|right]. cbn [orDefault]. exact Hn.
    + match goal with
      | |- length (orDefault ?d _) <= _ => destruct d eqn:Ed
      end; [cbn; lia | exact Hd].
Qed.

(** X13. What the marker scan reads is bounded. The name read from the
    line before a marker has at most 100 code units, no colon and not the
    word [description], in any letter case; otherwise no name is read.
    The description read after a marker has at most 300 code units. So in
    a document whose metadata give no record, every record of the marker
    scan has such a name, or the placeholder, and a description of at
    most 300 code units. *)
Theorem marker_scan_bounded (doc : SupabaseDocument) :
  (forall lastLine,
     length (nameFromLine lastLine) <= 100
     /\ ~ In 58%N (nameFromLine lastLine)
     /\ includes (toLowerCase (nameFromLine lastLine)) (js "description")
        = false)
  /\ (forall afterContent, length (descriptionAfter afterContent) <= 300)
  /\ (fromMetadata (doc_metadata doc) = [] ->
      matchAll caseless productIdMarker (doc_content doc) <> [] ->
      Forall bounded (extractFromDocument doc)).
Proof.
  split; [apply nameFromLine_bounded|].
  split; [apply descriptionAfter_bounded|].
  intros Hmeta Hms. unfold extractFromDocument.
  destruct (metadataThrows (doc_metadata doc)); [constructor|].
  cbv zeta. rewrite Hmeta.
  pose proof (fold_scanMarker_grows (doc_content doc)
                (matchAll caseless productIdMarker (doc_content doc)) [])
    as [_ Hpos].
  specialize (Hpos Hms).
  assert (Hall : forall ms l,
             Forall bounded l ->
             Forall bounded (fold_left (scanMarker (doc_content doc)) ms l)).
  { induction ms as [|m ms IH]; intros l Hl; [exact Hl|].
    cbn [fold_left]. apply IH. now apply scanMarker_bounded. }
  specialize (Hall (matchAll caseless productIdMarker (doc_content doc)) []
                (Forall_nil _)).
  destruct (fold_left _ _ _) as [|p l];
    [cbn [length] in Hpos; lia | exact Hall].
Qed.

Definition longNameDoc : SupabaseDocument :=
  mkDocument (js "d3")
    (join [NL]
       [js "Price: 12 dollars";
        js "Product ID: 5";
        js "A plain grey box."])
    (JObj []) (Real (js "0.5")).

Lemma marker_scan_bounded_witness :
  extractFromDocument longNameDoc
  = [mkProduct (js "Product 5") (js "5") (js "A plain grey box.")]
  /\ Forall bounded (extractFromDocument longNameDoc).
Proof.
  split; [vm_compute; reflexivity|].
  apply (proj2 (proj2 (marker_scan_bounded longNameDoc))).
  - reflexivity.
  - vm_compute. discriminate.
Defined.

(** ** The search intent of a user's text *)

(** [spells L w]: the text [w] is the word [L] in some letter case. *)
Definition spells (L : string) (w : jsstring) : Prop :=
  List.map canonicalize w = List.map canonicalize (js L).

Definition blank (ws : jsstring) : Prop :=
  Forall (fun c => isWhiteSpace c = true) ws.

(** The phrases the intent expression looks for. *)
Inductive intentPhrase : jsstring -> Prop :=
| phrase_knowledge_base k ws b :
    spells "knowledge" k -> blank ws -> spells "base" b ->
    intentPhrase (k ++ ws ++ b)
| phrase_product w : spells "product" w -> intentPhrase w
| phrase_information w : spells "information" w -> intentPhrase w
| phrase_what_do_you_have a s1 b s2 c s3 d :
    spells "what" a -> blank s1 -> s1 <> [] ->
    spells "do" b -> blank s2 -> s2 <> [] ->
    spells "you" c -> blank s3 -> s3 <> [] ->
    spells "have" d ->
    intentPhrase (a ++ s1 ++ b ++ s2 ++ c ++ s3 ++ d)
| phrase_inventory w : spells "inventory" w -> intentPhrase w
| phrase_catalog w : spells "catalog" w -> intentPhrase w.

(** A literal at the current position. *)
Fixpoint lit_matches (ic : bool) (L t : list N) : bool :=
  match L, t with
  | [], _ => true
  | c :: L', x :: t' => unit_matches ic c x && lit_matches ic L' t'
  | _ :: _, [] => false
  end.

Definition advance_n (n : nat) (s : mstate) : mstate :=
  mkMstate (rev (firstn n (after s)) ++ before s) (skipn n (after s)) (caps s).

Lemma advance_0 s : advance_n 0 s = s.
Proof. now destruct s. Qed.

Lemma advance_S n s c t :
  after s = c :: t ->
  advance_n (S n) s = advance_n n (mkMstate (c :: before s) t (caps s)).
Proof.
  intros H. unfold advance_n. rewrite H.
  cbn [firstn skipn rev before after caps]. now rewrite <- app_assoc.
Qed.

Lemma rx_RLit fl L : forall s k,
  rx fl (RLit_units L) s k
  = if lit_matches (ignoreCase fl) L (after s)
    then k (advance_n (length L) s) else None.
Proof.
  induction L as [|c L IH]; intros s k.
  - cbn. now rewrite advance_0.
  - destruct L as [|c' L].
    + cbn [RLit_units rx length]. unfold step_unit.
      destruct (after s) as [|x t] eqn:E; [reflexivity|].
      cbn [lit_matches]. rewrite andb_true_r.
      destruct (unit_matches _ c x); [|reflexivity].
      now rewrite (@advance_S 0 s x t E), advance_0.
    + change (RLit_units (c :: c' :: L))
        with (RSeq (RChar c) (RLit_units (c' :: L))).
      rewrite rx_seq. cbn [rx]. unfold step_unit.
      destruct (after s) as [|x t] eqn:E; [reflexivity|].
      change (lit_matches (ignoreCase fl) (c :: c' :: L) (x :: t))
        with (unit_matches (ignoreCase fl) c x
              && lit_matches (ignoreCase fl) (c' :: L) t).
      destruct (unit_matches _ c x); [|reflexivity].
      rewrite IH. cbn [after andb].
      destruct (lit_matches (ignoreCase fl) (c' :: L) t); [|reflexivity].
      change (length (c :: c' :: L)) with (S (length (c' :: L))).
      now rewrite (@advance_S (length (c' :: L)) s x t E).
Qed.

(** A literal matches, whatever the letter case, exactly the texts that
    start with a spelling of it. *)
Lemma lit_matches_spells L : forall t,
  lit_matches true (js L) t = true <->
  exists w rest, t = w ++ rest /\ spells L w.
Proof.
  unfold spells. generalize (js L) as l. clear L.
  induction l as [|c l IH]; intros t.
  - split; [|reflexivity]. intros _. now exists [], t.
  - destruct t as [|x t]; cbn [lit_matches].
    + split; [discriminate|]. intros (w & rest & Ht & Hw).
      symmetry in Ht. apply app_eq_nil in Ht as [-> _]. discriminate.
    + rewrite andb_true_iff, IH. unfold unit_matches. rewrite N.eqb_eq.
      split.
      * intros [Hc (w & rest & -> & Hw)]. exists (x :: w), rest.
        cbn [List.map app]. now rewrite Hw, Hc.
      * intros (w & rest & Ht & Hw). destruct w as [|y w]; [discriminate|].
        cbn [List.map app] in *. injection Ht as -> ->.
        injection Hw as Hy Hw. split; [now symmetry|]. now exists w, rest.
Qed.

Lemma spells_length L w : spells L w -> length w = length (js L).
Proof.
  unfold spells. intros H. apply (f_equal (@length N)) in H.
  now rewrite !length_map in H.
Qed.

Lemma advance_n_app w rest s :
  after s = w ++ rest ->
  advance_n (length w) s = mkMstate (rev w ++ before s) rest (caps s).
Proof.
  intros H. unfold advance_n. rewrite H.
  rewrite firstn_app, Nat.sub_diag, firstn_all. cbn [firstn].
  rewrite app_nil_r, skipn_app, Nat.sub_diag, skipn_all. reflexivity.
Qed.

Lemma lit_run fl L w rest s k :
  ignoreCase fl = true -> after s = w ++ rest -> spells L w ->
  rx fl (RLit L) s k = k (mkMstate (rev w ++ before s) rest (caps s)).
Proof.
  intros Hic Hs Hw. unfold RLit. rewrite rx_RLit, Hic.
  assert (Hm : lit_matches true (js L) (after s) = true)
    by (apply lit_matches_spells; now exists w, rest).
  rewrite Hm, <- (spells_length Hw). now rewrite (@advance_n_app w rest s Hs).
Qed.

Lemma lit_inv fl L s k res :
  ignoreCase fl = true -> rx fl (RLit L) s k = Some res ->
  exists w rest,
    after s = w ++ rest /\ spells L w
    /\ k (mkMstate (rev w ++ before s) rest (caps s)) = Some res.
Proof.
  intros Hic H. unfold RLit in H. rewrite rx_RLit, Hic in H.
  destruct (lit_matches true (js L) (after s)) eqn:Hm; [|discriminate].
  apply lit_matches_spells in Hm as (w & rest & Hs & Hw).
  exists w, rest. split; [exact Hs|]. split; [exact Hw|].
  now rewrite <- (spells_length Hw), (@advance_n_app w rest s Hs) in H.
Qed.

(** Runs of white space. *)
Lemma white_unit ic c : set_matches ic false [CSpace] c = isWhiteSpace c.
Proof. unfold set_matches. cbn. now rewrite orb_false_r. Qed.

Definition startsBlack (t : jsstring) : Prop :=
  match t with [] => True | c :: _ => isWhiteSpace c = false end.

Lemma spaces_run fl ws rest s k res :
  after s = ws ++ rest -> blank ws -> startsBlack rest ->
  k (mkMstate (rev ws ++ before s) rest (caps s)) = Some res ->
  rx fl spaces s k = Some res.
Proof.
  intros Hs Hws Hrest Hk. unfold spaces. rewrite rx_star.
  apply (@star_greedy_run fl (RSet false [CSpace])
           (set_matches (ignoreCase fl) false [CSpace]) k res eq_refl
           ws rest); try assumption.
  - eapply Forall_impl; [|exact Hws]. intros c Hc. now rewrite white_unit.
  - destruct rest; [exact I|]. now rewrite white_unit.
  - rewrite Hs, length_app. lia.
Qed.

Lemma spaces_inv fl s k res :
  rx fl spaces s k = Some res ->
  exists ws rest,
    after s = ws ++ rest /\ blank ws
    /\ k (mkMstate (rev ws ++ before s) rest (caps s)) = Some res.
Proof.
  unfold spaces. rewrite rx_star. intros H.
  apply (@star_units fl (RSet false [CSpace])
           (set_matches (ignoreCase fl) false [CSpace]) true k res eq_refl)
    in H as (ws & rest & Hs & Hws & Hk).
  exists ws, rest. split; [exact Hs|]. split; [|exact Hk].
  eapply Forall_impl; [|exact Hws]. intros c Hc.
  rewrite <- (white_unit (ignoreCase fl)). exact Hc.
Qed.

Lemma whiteRun_run fl ws rest s k res :
  after s = ws ++ rest -> blank ws -> ws <> [] -> startsBlack rest ->
  k (mkMstate (rev ws ++ before s) rest (caps s)) = Some res ->
  rx fl whiteRun s k = Some res.
Proof.
  intros Hs Hws Hne Hrest Hk. destruct ws as [|x ws]; [contradiction|].
  inversion Hws as [|? ? Hx Hws']; subst.
  unfold whiteRun, RPlus. rewrite rx_seq. cbn [rx]. unfold step_unit.
  rewrite Hs. cbn [app]. rewrite white_unit, Hx.
  apply (@spaces_run fl ws rest); try assumption; [reflexivity|].
  cbn [before caps rev] in *. now rewrite <- app_assoc in Hk.
Qed.

Lemma whiteRun_inv fl s k res :
  rx fl whiteRun s k = Some res ->
  exists ws rest,
    after s = ws ++ rest /\ blank ws /\ ws <> []
    /\ k (mkMstate (rev ws ++ before s) rest (caps s)) = Some res.
Proof.
  unfold whiteRun, RPlus. rewrite rx_seq. cbn [rx]. unfold step_unit.
  destruct (after s) as [|x t] eqn:Ea; [discriminate|].
  rewrite white_unit. destruct (isWhiteSpace x) eqn:Ex; [|discriminate].
  intros H. apply spaces_inv in H as (ws & rest & Hs & Hws & Hk).
  cbn [before after caps] in *. exists (x :: ws), rest.
  split; [now rewrite Hs|]. split; [now constructor|].
  split; [discriminate|]. cbn [rev]. now rewrite <- app_assoc.
Qed.

(** A spelling of a word that starts with a letter does not start with
    white space. *)
Lemma white_not_letter c :
  isWhiteSpace c = true -> isAsciiLetter (canonicalize c) = false.
Proof.
  unfold isWhiteSpace. intros H.
  assert (Hc : (c <= 32 \/ 160 <= c)%N).
  { repeat (apply orb_true_iff in H as [H|H]);
      try (apply andb_true_iff in H as [H1 H2]; apply N.leb_le in H1, H2);
      try apply N.eqb_eq in H; lia. }
  clear H.
  assert (Hlow : ((97 <=? c) && (c <=? 122))%N = false).
  { apply andb_false_iff.
    destruct Hc; [left | right]; apply N.leb_gt; lia. }
  unfold canonicalize. rewrite Hlow. unfold isAsciiLetter. rewrite Hlow.
  rewrite orb_false_r. apply andb_false_iff.
  destruct Hc; [left | right]; apply N.leb_gt; lia.
Qed.

Definition letterFirst (L : string) : Prop :=
  match js L with
  | c :: _ => isAsciiLetter (canonicalize c) = true
  | [] => False
  end.

Lemma spells_startsBlack L w rest :
  letterFirst L -> spells L w -> startsBlack (w ++ rest).
Proof.
  unfold letterFirst, spells. intros HL Hw.
  destruct (js L) as [|c l]; [contradiction|].
  destruct w as [|x w]; [discriminate|]. cbn [List.map] in Hw.
  injection Hw as Hx _. cbn [app startsBlack].
  destruct (isWhiteSpace x) eqn:E; [|reflexivity].
  apply white_not_letter in E. congruence.
Qed.

(** What the intent expression accepts at a position. *)
Definition accepts (r : regex) (s : mstate) : Prop :=
  rx caseless r s (fun s1 => Some s1) <> None.

Lemma accepts_alt a b s : accepts (RAlt a b) s <-> accepts a s \/ accepts b s.
Proof.
  unfold accepts. cbn [rx].
  destruct (rx caseless a s _) as [res|].
  - split; [intros _; left; discriminate | intros _; discriminate].
  - split; [now right | now intros [H|H]].
Qed.

Lemma accepts_lit L s :
  accepts (RLit L) s <-> exists w rest, after s = w ++ rest /\ spells L w.
Proof.
  unfold accepts. split.
  - intros H.
    destruct (rx caseless (RLit L) s _) as [res|] eqn:E; [|contradiction].
    apply lit_inv in E as (w & rest & Hs & Hw & _); [|reflexivity].
    now exists w, rest.
  - intros (w & rest & Hs & Hw).
    rewrite (@lit_run caseless L w rest s _ eq_refl Hs Hw). discriminate.
Qed.

Lemma accepts_knowledge_base s :
  accepts (RSeqs [RLit "knowledge"; spaces; RLit "base"]) s <->
  exists k ws b rest,
    after s = k ++ ws ++ b ++ rest
    /\ spells "knowledge" k /\ blank ws /\ spells "base" b.
Proof.
  unfold accepts. cbn [RSeqs]. rewrite rx_seq. split.
  - intros H.
    destruct (rx caseless (RLit "knowledge") s _) as [res|] eqn:E;
      [|contradiction].
    apply lit_inv in E as (k & r1 & Hs & Hk & E); [|reflexivity].
    rewrite rx_seq in E.
    apply spaces_inv in E as (ws & r2 & Hr1 & Hws & E).
    apply lit_inv in E as (b & rest & Hr2 & Hb & _); [|reflexivity].
    cbn [after] in Hr1, Hr2. exists k, ws, b, rest.
    split; [now rewrite Hs, Hr1, Hr2|]. now repeat split.
  - intros (k & ws & b & rest & Hs & Hk & Hws & Hb).
    rewrite (@lit_run caseless "knowledge" k (ws ++ b ++ rest) s _ eq_refl
               Hs Hk).
    rewrite rx_seq.
    erewrite (@spaces_run caseless ws (b ++ rest)); [discriminate|..];
      try reflexivity; try assumption.
    + now apply (@spells_startsBlack "base").
    + cbn [before after caps]. now apply lit_run.
Qed.

Lemma accepts_what_do_you_have s :
  accepts (RSeqs [RLit "what"; whiteRun; RLit "do"; whiteRun; RLit "you";
                  whiteRun; RLit "have"]) s <->
  exists a s1 b s2 c s3 d rest,
    after s = a ++ s1 ++ b ++ s2 ++ c ++ s3 ++ d ++ rest
    /\ spells "what" a /\ blank s1 /\ s1 <> []
    /\ spells "do" b /\ blank s2 /\ s2 <> []
    /\ spells "you" c /\ blank s3 /\ s3 <> []
    /\ spells "have" d.
Proof.
  unfold accepts. cbn [RSeqs]. rewrite rx_seq. split.
  - intros H.
    destruct (rx caseless (RLit "what") s _) as [res|] eqn:E;
      [|contradiction].
    apply lit_inv in E as (a & r1 & Hs & Ha & E); [|reflexivity].
    rewrite rx_seq in E.
    apply whiteRun_inv in E as (s1 & r2 & Hr1 & Hs1 & Hn1 & E).
    rewrite rx_seq in E.
    apply lit_inv in E as (b & r3 & Hr2 & Hb & E); [|reflexivity].
    rewrite rx_seq in E.
    apply whiteRun_inv in E as (s2 & r4 & Hr3 & Hs2 & Hn2 & E).
    rewrite rx_seq in E.
    apply lit_inv in E as (c & r5 & Hr4 & Hc & E); [|reflexivity].
    rewrite rx_seq in E.
    apply whiteRun_inv in E as (s3 & r6 & Hr5 & Hs3 & Hn3 & E).
    apply lit_inv in E as (d & rest & Hr6 & Hd & _); [|reflexivity].
    cbn [after] in *. exists a, s1, b, s2, c, s3, d, rest.
    split; [now rewrite Hs, Hr1, Hr2, Hr3, Hr4, Hr5, Hr6|].
    now repeat split.
  - intros (a & s1 & b & s2 & c & s3 & d & rest & Hs & Ha & Hs1 & Hn1
            & Hb & Hs2 & Hn2 & Hc & Hs3 & Hn3 & Hd).
    rewrite (@lit_run caseless "what" a _ s _ eq_refl Hs Ha).
    match goal with
    | |- ?x <> None =>
        assert (Hres : exists res, x = Some res);
        [eexists | destruct Hres as [res ->]; discriminate]
    end.
    rewrite rx_seq.
    eapply (@whiteRun_run caseless s1 (b ++ s2 ++ c ++ s3 ++ d ++ rest));
      [reflexivity | assumption | assumption
      | now apply (@spells_startsBlack "do") | ].
    cbn [before after caps]. rewrite rx_seq.
    erewrite (@lit_run caseless "do" b (s2 ++ c ++ s3 ++ d ++ rest));
      [|reflexivity|reflexivity|exact Hb].
    rewrite rx_seq.
    eapply (@whiteRun_run caseless s2 (c ++ s3 ++ d ++ rest));
      [reflexivity | assumption | assumption
      | now apply (@spells_startsBlack "you") | ].
    cbn [before after caps]. rewrite rx_seq.
    erewrite (@lit_run caseless "you" c (s3 ++ d ++ rest));
      [|reflexivity|reflexivity|exact Hc].
    eapply (@whiteRun_run caseless s3 (d ++ rest));
      [reflexivity | assumption | assumption
      | now apply (@spells_startsBlack "have") | ].
    cbn [before after caps].
    erewrite (@lit_run caseless "have" d rest);
      [reflexivity|reflexivity|reflexivity|exact Hd].
Qed.

Lemma accepts_searchIntent s :
  accepts searchIntent s <->
  exists w rest, after s = w ++ rest /\ intentPhrase w.
Proof.
  unfold searchIntent. cbn [RAlts].
  rewrite !accepts_alt, accepts_knowledge_base, accepts_what_do_you_have,
    !accepts_lit.
  split.
  - intros [(k & ws & b & rest & Hs & Hk & Hws & Hb)
           |[(w & rest & Hs & Hw)
            |[(w & rest & Hs & Hw)
             |[(a & s1 & b & s2 & c & s3 & d & rest & Hs & Ha & Hs1 & Hn1
                & Hb & Hs2 & Hn2 & Hc & Hs3 & Hn3 & Hd)
              |[(w & rest & Hs & Hw)|(w & rest & Hs & Hw)]]]]].
    + exists (k ++ ws ++ b), rest. rewrite <- !app_assoc.
      split; [exact Hs|]. now constructor.
    + exists w, rest. split; [exact Hs|]. now apply phrase_product.
    + exists w, rest. split; [exact Hs|]. now apply phrase_information.
    + exists (a ++ s1 ++ b ++ s2 ++ c ++ s3 ++ d), rest.
      rewrite <- !app_assoc. split; [exact Hs|]. now constructor.
    + exists w, rest. split; [exact Hs|]. now apply phrase_inventory.
    + exists w, rest. split; [exact Hs|]. now apply phrase_catalog.
  - intros (w & rest & Hs & Hw).
    destruct Hw as [k ws b Hk Hws Hb|w Hw|w Hw
                   |a s1 b s2 c s3 d Ha Hs1 Hn1 Hb Hs2 Hn2 Hc Hs3 Hn3 Hd
                   |w Hw|w Hw].
    + left. exists k, ws, b, rest. rewrite <- !app_assoc in Hs.
      now repeat split.
    + right; left. now exists w, rest.
    + right; right; left. now exists w, rest.
    + right; right; right; left. exists a, s1, b, s2, c, s3, d, rest.
      rewrite <- !app_assoc in Hs. now repeat split.
    + right; right; right; right; left. now exists w, rest.
    + right; right; right; right; right. now exists w, rest.
Qed.

(** Where a search finds its match. *)
Lemma search_position fl r : forall aft bef m s1,
  search fl r bef aft = Some (m, s1) ->
  exists x y,
    aft = x ++ y
    /\ rx fl r (start_state (rev x ++ bef) y) (fun s => Some s) = Some s1.
Proof.
  induction aft as [|c aft IH]; intros bef m s1 H; cbn [search] in H.
  - destruct (rx fl r (start_state bef []) _) as [s1'|] eqn:E;
      [|discriminate].
    injection H as <- <-. now exists [], [].
  - destruct (rx fl r (start_state bef (c :: aft)) _) as [s1'|] eqn:E.
    + injection H as <- <-. now exists [], (c :: aft).
    + apply IH in H as (x & y & -> & H). exists (c :: x), y.
      split; [reflexivity|]. cbn [rev]. now rewrite <- app_assoc.
Qed.

Lemma search_finds fl r : forall x bef y,
  rx fl r (start_state (rev x ++ bef) y) (fun s => Some s) <> None ->
  search fl r bef (x ++ y) <> None.
Proof.
  induction x as [|c x IH]; intros bef y H.
  - cbn [rev app] in *. destruct y; cbn [search];
      destruct (rx fl r _ _); try discriminate; contradiction.
  - cbn [app search].
    destruct (rx fl r (start_state bef (c :: x ++ y)) _); [discriminate|].
    apply IH. cbn [rev] in H. now rewrite <- app_assoc in H.
Qed.

(** X14. The intent heuristic of [addMessage] holds for a user's text
    exactly when the text contains, in any letter case, one of the words
    [product], [information], [inventory] and [catalog], or [knowledge]
    followed by [base] with any white space or none in between, or the
    words [what], [do], [you], [have] in this order with white space
    between each two. *)
Theorem search_intent_phrases (content_ : jsstring) :
  shouldUseSearch content_ = true <->
  exists pre w post, content_ = pre ++ w ++ post /\ intentPhrase w.
Proof.
  unfold shouldUseSearch, rx_test, rx_match. split.
  - destruct (search caseless searchIntent [] content_) as [[m s1]|] eqn:E;
      [|discriminate].
    intros _. apply search_position in E as (x & y & -> & E).
    assert (Ha : accepts searchIntent (start_state (rev x ++ []) y))
      by (unfold accepts; rewrite E; discriminate).
    apply accepts_searchIntent in Ha as (w & rest & Hy & Hw).
    cbn [after start_state] in Hy. exists x, w, rest. now rewrite Hy.
  - intros (pre & w & post & -> & Hw).
    assert (Ha : accepts searchIntent (start_state (rev pre ++ []) (w ++ post))).
    { apply accepts_searchIntent. now exists w, post. }
    apply (@search_finds caseless searchIntent pre [] (w ++ post)) in Ha.
    destruct (search caseless searchIntent [] (pre ++ w ++ post));
      [reflexivity | contradiction].
Qed.

(** ** The chat controller *)

(** X15. A reply of [createChat] is either 201 or a 400 or 404 error.
    A 400 or 404 reply is given without any call of the service: the
    trace is as it was. A 201 reply is given only for a session
    identifier and a text that are not empty and a stored session that
    has an agent; it carries what [addMessage] returned for that agent,
    whose products are well formed, and the run has written the turn
    once, as its last step. *)
Theorem createChat_replies {W} (P : Providers W)
  (chatSession_findUnique : jsstring -> W -> Res (option ChatSession) * W)
  (sessionId_ content_ : jsstring) (st : St W) (reply : Reply) (st' : St W) :
  createChat P chatSession_findUnique sessionId_ content_ st
  = (Ok reply, st') ->
  (reply_status reply = 201
   /\ exists session agentId w1 resp d a,
        sessionId_ <> [] /\ content_ <> []
        /\ chatSession_findUnique sessionId_ (world st)
           = (Ok (Some session), w1)
        /\ cs_agentId session = Some agentId /\ agentId <> []
        /\ addMessage P sessionId_ content_ agentId (mkSt w1 (trace st))
           = (Ok resp, st')
        /\ reply_body reply = ResultBody resp
        /\ Forall wellFormed (r_products resp)
        /\ trace st' = trace st ++ d ++ [EvCreate sessionId_ (Some content_) a]
        /\ count isCreate d = 0)
  \/ ((reply_status reply = 400 \/ reply_status reply = 404)
      /\ (exists error, reply_body reply = ErrorBody error)
      /\ trace st' = trace st).
Proof.
  unfold createChat.
  destruct (sessionId_ === []) eqn:Es; cbn [orb]; unfold ret at 1;
    [intros [= <- <-]; right; split; [now left|]; split; [eexists; reflexivity | reflexivity]|].
  destruct (content_ === []) eqn:Ec;
    [intros [= <- <-]; right; split; [now left|]; split; [eexists; reflexivity | reflexivity]|]. unfold bind at 1, ensureSessionExists.
  destruct (chatSession_findUnique sessionId_ (world st))
    as [[[session|]|t] w1] eqn:Hfind; try discriminate.
  2: { unfold ret. intros [= <- <-]. right. split; [now right|].
       split; [eexists; reflexivity | reflexivity]. }
  destruct (orNull (cs_agentId session)) as [agentId|] eqn:Ea.
  2: { unfold ret. intros [= <- <-]. right. split; [now left|].
       split; [eexists; reflexivity | reflexivity]. }
  unfold bind.
  destruct (addMessage P sessionId_ content_ agentId (mkSt w1 (trace st)))
    as [[resp|t] st1] eqn:Hrun; [|discriminate].
  unfold ret. intros [= <- <-]. left. split; [reflexivity|].
  destruct (writes_last_addMessage P sessionId_ content_ agentId
              (mkSt w1 (trace st))) as (d & E & H).
  rewrite Hrun in E, H. cbn [fst snd trace] in E, H.
  destruct H as [(_ & t & Ht)|(d0 & a & -> & _ & Q0)]; [discriminate|].
  exists session, agentId, w1, resp, d0, a.
  apply str_eqb_neq in Es, Ec.
  split; [exact Es|]. split; [exact Ec|]. split; [reflexivity|].
  assert (Hagent : cs_agentId session = Some agentId /\ agentId <> []).
  { destruct (cs_agentId session) as [[|c i]|]; try discriminate.
    injection Ea as <-. split; [reflexivity | discriminate]. }
  split; [exact (proj1 Hagent)|]. split; [exact (proj2 Hagent)|].
  split; [exact Hrun|]. split; [reflexivity|]. split.
  - exact (@ensures_addMessage W P sessionId_ content_ agentId _ _ _ Hrun).
  - split; [exact E|]. clear - Q0.
    induction d0 as [|e d0 IH]; [reflexivity|]. cbn [forallb] in Q0.
    apply andb_true_iff in Q0 as [He Hd]. unfold count in *. cbn [filter].
    unfold noCreate in He. apply negb_true_iff in He. rewrite He.
    now apply IH.
Qed.

(** A store with the one session [s1], which belongs to the agent [a1]. *)
Definition oneSession {W} (sessionId_ : jsstring) (w : W)
  : Res (option ChatSession) * W :=
  (Ok (if sessionId_ === js "s1"
       then Some (mkChatSession (js "s1") (Some (js "a1")))
       else None),
   w).

Lemma createChat_replies_witness :
  createChat scriptedProviders oneSession (js "s2") (js "hi there")
    (mkSt helloScript [])
  = (Ok (mkReply 404 (ErrorBody (js "Session not found"))),
     mkSt helloScript [])
  /\ exists st' d a,
       createChat scriptedProviders oneSession (js "s1") (js "hi there")
         (mkSt helloScript [])
       = (Ok (mkReply 201
                (ResultBody
                   (mkResponse (js "0") (js "s1") (Some (js "hi there"))
                      (Some (js "Hello! How can I help?")) [] 0 0))),
          st')
       /\ trace st' = d ++ [EvCreate (js "s1") (Some (js "hi there")) a]
       /\ count isCreate d = 0.
Proof.
  split; [reflexivity|].
  pose (run := createChat scriptedProviders oneSession (js "s1")
                 (js "hi there") (mkSt helloScript [])).
  assert (H : run
              = (Ok (mkReply 201
                       (ResultBody
                          (mkResponse (js "0") (js "s1")
                             (Some (js "hi there"))
                             (Some (js "Hello! How can I help?")) [] 0 0))),
                 snd run))
    by (vm_compute; reflexivity).
  destruct (@createChat_replies _ scriptedProviders oneSession (js "s1")
              (js "hi there") (mkSt helloScript []) _ _ H)
    as [(_ & session & agentId & w1 & resp & d & a & _ & _ & _ & _ & _ & _
         & _ & _ & Ht & Hd)
       |([H4|H4] & _)]; [|discriminate H4..].
  exists (snd run), d, a. split; [exact H|]. split; [exact Ht | exact Hd].
Defined.

(** *** Metadata before content *)

(** X16. Metadata that give an identifier and a name of their own (a name
    that is not the placeholder for that identifier) settle the record of
    a document: the content is not scanned, whatever markers or headings
    it has, and the description is the one of the metadata, or the
    sentinel. That is so when [String] accepts the identifier, the name
    and the description; when it throws on one of them (an object with a
    key [toString] of its own), the document gives no record at all. *)
Theorem named_metadata_wins (doc : SupabaseDocument) :
  truthy_json (doc_metadata doc) = true ->
  truthy (metadataId (doc_metadata doc)) = true ->
  String_ (metadataId (doc_metadata doc)) <> [] ->
  metadataName (doc_metadata doc) <> [] ->
  metadataName (doc_metadata doc)
  <> placeholderName (String_ (metadataId (doc_metadata doc))) ->
  extractFromDocument doc
  = if metadataThrows (doc_metadata doc) then []
    else [mkProduct (metadataName (doc_metadata doc))
            (String_ (metadataId (doc_metadata doc)))
            (orDefault (metadataDescription (doc_metadata doc))
               NO_DESCRIPTION)].
Proof.
  intros Hobj Hid Hstr Hname Hown.
  unfold extractFromDocument.
  destruct (metadataThrows (doc_metadata doc)); [reflexivity|].
  unfold fromMetadata. cbv zeta.
  rewrite Hobj, Hid. cbn [andb].
  apply str_eqb_neq in Hstr, Hname, Hown.
  rewrite Hstr, Hname. cbn [negb andb orb name productId].
  destruct (metadataName (doc_metadata doc)) as [|c n] eqn:En;
    [discriminate|].
  cbn [orDefault]. now rewrite Hown.
Qed.

Definition namedDoc : SupabaseDocument :=
  mkDocument (js "d4")
    (join [NL] [js "Old Gadget"; js "Product ID: 99"; js "Description: stale"])
    (JObj [(js "id", JNum (Int 42)); (js "title", JStr (js "Widget"))])
    (Real (js "0.6")).

(** The same document with an identifier [String] cannot convert. *)
Definition unprintableDoc : SupabaseDocument :=
  mkDocument (js "d4")
    (join [NL] [js "Old Gadget"; js "Product ID: 99"; js "Description: stale"])
    (JObj [(js "id", JObj [(js "toString", JNum (Int 1))]);
           (js "title", JStr (js "Widget"))])
    (Real (js "0.6")).

Lemma named_metadata_wins_witness :
  extractFromDocument namedDoc
  = [mkProduct (js "Widget") (js "42") NO_DESCRIPTION]
  /\ extractFromDocument unprintableDoc = [].
Proof.
  split.
  - apply (named_metadata_wins namedDoc); vm_compute;
      first [reflexivity | discriminate].
  - apply (named_metadata_wins unprintableDoc); vm_compute;
      first [reflexivity | discriminate].
Defined.

(** *** What the follow-up completion is given *)

Lemma startsWith_app p s : startsWith p (p ++ s) = true.
Proof.
  induction p as [|c p IH]; [now destruct s|].
  cbn [app startsWith]. now rewrite N.eqb_refl, IH.
Qed.

Lemma includes_app pre p post : includes (pre ++ p ++ post) p = true.
Proof.
  induction pre as [|c pre IH]; cbn [app].
  - destruct (p ++ post) eqn:E; cbn [includes]; rewrite <- E;
      now rewrite startsWith_app.
  - cbn [includes]. rewrite IH. apply orb_true_r.
Qed.

Lemma in_join sep x l :
  In x l -> exists pre post, join sep l = pre ++ x ++ post.
Proof.
  induction l as [|y l IH]; [contradiction|].
  intros [->|H].
  - destruct l as [|z l].
    + exists [], []. cbn. now rewrite app_nil_r.
    + exists [], (sep ++ join sep (z :: l)). reflexivity.
  - destruct (IH H) as (pre & post & E). destruct l as [|z l];
      [contradiction|].
    exists (y ++ sep ++ pre), post.
    change (join sep (y :: z :: l)) with (y ++ sep ++ join sep (z :: l)).
    rewrite E. now rewrite <- !app_assoc.
Qed.

(** The line of the reminder for one product. *)
Definition reminderLine (p : Product) : jsstring :=
  js "- Product ID: " ++ productId p ++ js ", Name: " ++ name p.

Lemma reminder_names uniqueProducts p :
  In p uniqueProducts ->
  exists text,
    reminder uniqueProducts = plainItem system text
    /\ includes text (reminderLine p) = true.
Proof.
  intros Hp. unfold reminder. eexists. split; [reflexivity|].
  assert (Hin : In (reminderLine p) (List.map reminderLine uniqueProducts))
    by (now apply in_map).
  apply (in_join [NL]) in Hin as (pre & post & E).
  change (List.map (fun p0 => js "- Product ID: " ++ productId p0
                              ++ js ", Name: " ++ name p0) uniqueProducts)
    with (List.map reminderLine uniqueProducts).
  rewrite E. rewrite !app_assoc. rewrite <- (app_assoc _ (reminderLine p)).
  apply includes_app.
Qed.

Lemma toolAnswer_trace {W} (P : Providers W) sessionId_ content_ messages
  message toolCalls st1 ran st2 :
  runToolCalls P toolCalls (toolMessages messages message toolCalls) [] st1
  = (Ok ran, st2) ->
  exists d,
    trace (snd (toolAnswer P sessionId_ content_ messages (cm_content message)
                  toolCalls st1))
    = trace st2 ++ EvCompletion (followUpMessages ran) :: d.
Proof.
  intros Hran. unfold toolAnswer, bind at 1.
  unfold toolMessages in Hran. rewrite Hran.
  cbv zeta. fold (followUpMessages ran).
  unfold bind at 1, complete, call.
  destruct (completions_create P (followUpMessages ran) (world st2))
    as [[choices|t] w3]; [|exists []; reflexivity].
  destruct (firstMessage choices) as [finalMessage|]; [|exists []; reflexivity].
  unfold bind, createChatMessage, call, emit, ret.
  destruct (noToolCalls (cm_tool_calls finalMessage)); cbn [world trace];
    destruct (chatMessage_create P _ _ _ _) as [[created|t] w];
    cbn [snd trace]; rewrite <- !app_assoc; eexists; reflexivity.
Qed.

Lemma uniqueByProductId_empty l : uniqueByProductId l = [] <-> l = [].
Proof.
  rewrite uniqueByProductId_nubBy. split; [|now intros ->].
  destruct l as [|x l]; [reflexivity|]. cbn [nubBy existsb]. discriminate.
Qed.

(** X17. When the first completion asks for tools, the follow-up
    completion is called, whatever the tools did, once they have all been
    executed. It is given the messages of the first round, the assistant
    entry that carries the tool calls, the tool response to each call in
    the order of the calls (the result of its execution, or the error
    payload when it threw) and, exactly when the executions found
    products, a closing system entry whose text names the identifier and
    the name of every product found, duplicates by identifier removed. *)
Theorem follow_up_sees_every_tool_response {W} (P : Providers W)
  (sessionId_ content_ agentId : jsstring) (st : St W)
  (messages : list ChatMessageItem) (message : CompletionMessage)
  (st1 : St W) (toolCall : ToolCall) (rest : list ToolCall) :
  firstRound P sessionId_ content_ agentId st
  = (Ok (messages, Some message), st1) ->
  cm_tool_calls message = Some (toolCall :: rest) ->
  let outcomes := fst (executions P (toolCall :: rest) st1) in
  let st2 := snd (executions P (toolCall :: rest) st1) in
  let found := flat_map foundBy outcomes in
  (exists d,
     trace (snd (addMessage P sessionId_ content_ agentId st))
     = trace st2
       ++ EvCompletion
            (toolMessages messages message (toolCall :: rest)
             ++ responses (toolCall :: rest) outcomes
             ++ match uniqueByProductId found with
                | [] => []
                | _ => [reminder (uniqueByProductId found)]
                end)
          :: d)
  /\ Forall2 answers (toolCall :: rest) (responses (toolCall :: rest) outcomes)
  /\ (uniqueByProductId found = [] <-> found = [])
  /\ forall p,
       In p (uniqueByProductId found) ->
       exists text,
         reminder (uniqueByProductId found) = plainItem system text
         /\ includes text (reminderLine p) = true.
Proof.
  intros Hfirst Htools. cbv zeta.
  pose proof (runToolCalls_executions P (toolCall :: rest)
                (toolMessages messages message (toolCall :: rest)) [] st1)
    as Hran.
  destruct (tool_responses_in_order_run P (toolCall :: rest)
              (toolMessages messages message (toolCall :: rest)) [] st1)
    as (items & added & st2 & d0 & Hran' & Hans & _ & _).
  rewrite Hran in Hran'. injection Hran' as Hitems _ _.
  apply app_inv_head in Hitems. rewrite <- Hitems in Hans.
  split; [|split; [exact Hans|split]].
  - destruct (@toolAnswer_trace W P sessionId_ content_ messages message
                (toolCall :: rest) st1 _ _ Hran) as (d & Ht).
    exists d.
    rewrite (addMessage_branch P _ _ _ _ Hfirst), Htools, Ht.
    unfold followUpMessages. cbn [fst snd app]. now rewrite <- app_assoc.
  - apply uniqueByProductId_empty.
  - intros p. apply reminder_names.
Qed.

Lemma follow_up_sees_every_tool_response_witness :
  exists messages (st1 : St Script),
    let outcomes := fst (executions scriptedProviders [searchCall] st1) in
    let st2 := snd (executions scriptedProviders [searchCall] st1) in
    let found := flat_map foundBy outcomes in
    (exists d,
       trace (snd (addMessage scriptedProviders (js "s1") (js "red widgets?")
                     (js "a1") (mkSt toolScript [])))
       = trace st2
         ++ EvCompletion
              (toolMessages messages askingReply [searchCall]
               ++ responses [searchCall] outcomes
               ++ match uniqueByProductId found with
                  | [] => []
                  | _ => [reminder (uniqueByProductId found)]
                  end)
            :: d)
    /\ Forall2 answers [searchCall] (responses [searchCall] outcomes)
    /\ (uniqueByProductId found = [] <-> found = [])
    /\ forall p,
         In p (uniqueByProductId found) ->
         exists text,
           reminder (uniqueByProductId found) = plainItem system text
           /\ includes text (reminderLine p) = true.
Proof.
  eexists. eexists.
  refine (@follow_up_sees_every_tool_response _ scriptedProviders (js "s1")
            (js "red widgets?") (js "a1") (mkSt toolScript [])
            _ askingReply _ searchCall [] _ eq_refl).
  cbv. reflexivity.
Defined.

(** ** A content in the format the marker scan reads *)

(** *** Searching, and replacing when nothing matches *)

Lemma search_step fl r bef c aft :
  rx fl r (start_state bef (c :: aft)) (fun s1 => Some s1) = None ->
  search fl r bef (c :: aft) = search fl r (c :: bef) aft.
Proof. intros H. cbn [search]. now rewrite H. Qed.

Lemma search_hit fl r bef aft s1 :
  rx fl r (start_state bef aft) (fun s1 => Some s1) = Some s1 ->
  search fl r bef aft = Some (to_rmatch (start_state bef aft) s1, s1).
Proof. intros H. destruct aft; cbn [search]; now rewrite H. Qed.

Lemma search_skip fl r x : forall bef y,
  (forall x1 x2, x = x1 ++ x2 -> x2 <> [] ->
     rx fl r (start_state (rev x1 ++ bef) (x2 ++ y)) (fun s1 => Some s1)
     = None) ->
  search fl r bef (x ++ y) = search fl r (rev x ++ bef) y.
Proof.
  induction x as [|c x IH]; intros bef y H; [reflexivity|].
  cbn [app rev]. rewrite <- app_assoc. cbn [app].
  rewrite search_step by (apply (H [] (c :: x)); [reflexivity|discriminate]).
  apply IH. intros x1 x2 -> Hx2.
  specialize (H (c :: x1) x2 eq_refl Hx2). cbn [rev] in H.
  now rewrite <- app_assoc in H.
Qed.

Lemma search_none fl r : forall aft bef,
  (forall x1 x2, aft = x1 ++ x2 ->
     rx fl r (start_state (rev x1 ++ bef) x2) (fun s1 => Some s1) = None) ->
  search fl r bef aft = None.
Proof.
  induction aft as [|c aft IH]; intros bef H.
  - cbn [search]. specialize (H [] [] eq_refl). cbn [rev app] in H.
    now rewrite H.
  - rewrite search_step by (apply (H [] (c :: aft) eq_refl)).
    apply IH. intros x1 x2 ->. specialize (H (c :: x1) x2 eq_refl).
    cbn [rev] in H. now rewrite <- app_assoc in H.
Qed.

Lemma replaceFirst_none fl r s by_ :
  search fl r [] s = None -> replaceFirst fl r s by_ = s.
Proof. intros H. unfold replaceFirst, rx_match. now rewrite H. Qed.

Lemma replaceAll_none fl r s by_ :
  search fl r [] s = None -> replaceAll fl r s by_ = s.
Proof.
  intros H. unfold replaceAll, matchAll. cbn [matchAll_from]. now rewrite H.
Qed.

Lemma captured_app b x a a' c c' :
  captured (mkMstate b a c) (mkMstate (x ++ b) a' c') = rev x.
Proof.
  unfold captured. cbn [before]. rewrite length_app.
  replace (length x + length b - length b) with (length x) by lia.
  now rewrite firstn_app, Nat.sub_diag, firstn_all, app_nil_r.
Qed.

(** *** Trimming a text that has no white space at its ends *)

Lemma rev_head_last (s : jsstring) c t :
  s = c :: t -> exists r, rev s = last s 0%N :: r.
Proof.
  intros ->. revert c. induction t as [|x t IH]; intros c.
  - now exists [].
  - destruct (IH x) as (r & Hr). exists (r ++ [c]).
    change (rev (c :: x :: t)) with (rev (x :: t) ++ [c]).
    rewrite Hr. reflexivity.
Qed.

Lemma trim_clean s c t :
  s = c :: t -> isWhiteSpace c = false -> isWhiteSpace (last s 0%N) = false ->
  trim s = s.
Proof.
  intros Hs Hc Hl. unfold trim, trimEnd.
  assert (H1 : trimStart s = s) by (subst s; cbn [trimStart]; now rewrite Hc).
  rewrite H1. destruct (rev_head_last Hs) as (r & Hr). rewrite Hr.
  cbn [trimStart]. rewrite Hl, <- Hr. apply rev_involutive.
Qed.

Lemma includes_none c s : ~ In c s -> includes s [c] = false.
Proof.
  induction s as [|x s IH]; intros H; [reflexivity|].
  cbn [includes startsWith]. rewrite IH by (intros Hin; apply H; now right).
  rewrite andb_true_r, orb_false_r. apply N.eqb_neq.
  intros ->. apply H. now left.
Qed.

(** *** The name on the line before the marker *)

(** A name the scan reads back as it is: it starts with no digit, bullet
    or white space, ends with no white space, and has no line break, no
    star, no colon, not the word [description] and not the marker text. *)
Definition nameUnit (c : N) : bool :=
  negb ((c =? 10) || (c =? 42) || (c =? 58))%N.

(** [mentions L s]: the text [s] contains [L], in any letter case. *)
Fixpoint mentions (L s : jsstring) : bool :=
  lit_matches true L s
  || match s with
     | [] => false
     | _ :: s' => mentions L s'
     end.

Definition cleanName (n : jsstring) : bool :=
  match n with
  | [] => false
  | c :: _ =>
      negb (isDigit c) && negb (isWhiteSpace c)
      && negb (c =? 45)%N && negb (c =? BULLET)%N
  end
  && negb (isWhiteSpace (last n 0%N))
  && forallb nameUnit n
  && (length n <=? 100)
  && negb (includes (toLowerCase n) (js "description"))
  && negb (mentions (js "Product ID") n).


Lemma mentions_suffix L x1 x2 :
  mentions L (x1 ++ x2) = false -> lit_matches true L x2 = false.
Proof.
  induction x1 as [|c x1 IH]; cbn [app].
  - destruct x2; cbn [mentions]; intros H;
      now apply orb_false_iff in H as [H _].
  - cbn [mentions]. intros H. apply orb_false_iff in H as [_ H]. now apply IH.
Qed.

Record CleanName (n : jsstring) : Prop := mkCleanName {
  cn_head : exists c t,
      n = c :: t /\ isDigit c = false /\ isWhiteSpace c = false
      /\ c <> 45%N /\ c <> BULLET;
  cn_last : isWhiteSpace (last n 0%N) = false;
  cn_units : Forall (fun c => c <> 10%N /\ c <> 42%N /\ c <> 58%N) n;
  cn_length : length n <= 100;
  cn_word : includes (toLowerCase n) (js "description") = false;
  cn_marker : mentions (js "Product ID") n = false
}.

Lemma cleanName_spec n : cleanName n = true -> CleanName n.
Proof.
  unfold cleanName. intros H.
  apply andb_true_iff in H as [H Hm]. apply andb_true_iff in H as [H Hw].
  apply andb_true_iff in H as [H Hl]. apply andb_true_iff in H as [H Hu].
  apply andb_true_iff in H as [Hh Hlast].
  apply negb_true_iff in Hm, Hw, Hlast. apply Nat.leb_le in Hl.
  constructor; try assumption.
  - destruct n as [|c t]; [discriminate|]. exists c, t.
    apply andb_true_iff in Hh as [Hh H4]. apply andb_true_iff in Hh as [Hh H3].
    apply andb_true_iff in Hh as [H1 H2].
    apply negb_true_iff in H1, H2, H3, H4. apply N.eqb_neq in H3, H4.
    now repeat split.
  - rewrite forallb_forall in Hu. apply Forall_forall. intros c Hc.
    specialize (Hu c Hc). unfold nameUnit in Hu. apply negb_true_iff in Hu.
    apply orb_false_iff in Hu as [Hu H58]. apply orb_false_iff in Hu as [H10 H42].
    apply N.eqb_neq in H10, H42, H58. now repeat split.
Qed.

(** An expression anchored at the start matches at the start only. *)
Lemma bol_only r s k :
  before s <> [] -> rx plain (RSeq RBol r) s k = None.
Proof.
  intros H. rewrite rx_seq. cbn [rx]. unfold at_bol.
  destruct (before s); [contradiction | reflexivity].
Qed.

Lemma nonempty_rev_app (x : list N) c bef : rev (c :: x) ++ bef <> [].
Proof.
  cbn [rev]. rewrite <- app_assoc. destruct (rev x); discriminate.
Qed.

Lemma anchored_none r s :
  (forall k, rx plain r (start_state [] s) k = None) ->
  search plain (RSeq RBol r) [] s = None.
Proof.
  intros H. apply search_none. intros x1 x2 ->.
  destruct x1 as [|c x1].
  - cbn [rev app]. rewrite rx_seq. cbn [rx at_bol start_state before multiline plain].
    apply H.
  - apply bol_only. cbn [before start_state]. apply nonempty_rev_app.
Qed.

Lemma leadingNumber_none c t :
  isDigit c = false -> search plain leadingNumber [] (c :: t) = None.
Proof.
  intros Hc. unfold leadingNumber. cbn [RSeqs].
  apply anchored_none. intros k. rewrite rx_seq. unfold digits, RPlus.
  rewrite rx_seq. cbn [rx]. unfold step_unit. cbn [after start_state].
  now rewrite digit_unit, Hc.
Qed.

Lemma leadingBullet_none c t :
  c <> 45%N -> c <> BULLET -> search plain leadingBullet [] (c :: t) = None.
Proof.
  intros H1 H2. unfold leadingBullet. cbn [RSeqs].
  apply anchored_none. intros k. rewrite rx_seq. unfold dashOrBullet.
  cbn [rx]. unfold step_unit. cbn [after start_state].
  unfold set_matches. cbn [existsb citem_matches xorb ignoreCase plain].
  unfold unit_matches.
  apply N.eqb_neq in H1, H2. rewrite (N.eqb_sym 45 c), (N.eqb_sym BULLET c).
  now rewrite H1, H2.
Qed.

Lemma boldMarker_none s :
  Forall (fun c => c <> 42%N) s -> search plain boldMarker [] s = None.
Proof.
  intros H. apply search_none. intros x1 x2 ->.
  apply Forall_app in H as [_ H]. unfold boldMarker, RLit.
  rewrite rx_RLit. cbn [ignoreCase plain after start_state].
  destruct x2 as [|c x2]; [reflexivity|].
  inversion H as [|? ? Hc _]; subst.
  change (js "**") with [42; 42]%N. cbn [lit_matches]. unfold unit_matches.
  apply N.eqb_neq in Hc. rewrite (N.eqb_sym 42 c). now rewrite Hc.
Qed.

Lemma nameFromLine_clean n : CleanName n -> nameFromLine n = n.
Proof.
  intros [(c & t & Hn & Hd & Hw & H45 & Hb) Hlast Hu Hl Hword Hm].
  unfold nameFromLine. cbv zeta.
  assert (E1 : replaceFirst plain leadingNumber n [] = n)
    by (apply replaceFirst_none; subst n; now apply leadingNumber_none).
  rewrite E1.
  assert (E2 : replaceAll plain boldMarker n [] = n).
  { apply replaceAll_none, boldMarker_none.
    eapply Forall_impl; [|exact Hu]. now intros x (_ & H42 & _). }
  rewrite E2.
  assert (E3 : replaceFirst plain leadingBullet n [] = n)
    by (apply replaceFirst_none; subst n; now apply leadingBullet_none).
  rewrite E3, (trim_clean Hn Hw Hlast).
  apply Nat.ltb_ge in Hl. rewrite Hl, Hword.
  change (js ":") with [58%N]. rewrite includes_none; [reflexivity|].
  intros Hin. rewrite Forall_forall in Hu.
  now destruct (Hu _ Hin) as (_ & _ & H58).
Qed.


(** *** The marker and its identifier *)

Lemma canonicalize_low a c :
  (a < 65)%N -> N.eqb a (canonicalize c) = N.eqb a c.
Proof.
  intros Ha. unfold canonicalize.
  destruct ((97 <=? c) && (c <=? 122))%N eqn:E; [|reflexivity].
  apply andb_true_iff in E as [E1 E2]. apply N.leb_le in E1, E2.
  transitivity false; [|symmetry]; apply N.eqb_neq; lia.
Qed.

Definition colonOrSpace (c : N) : bool := (c =? 58)%N || isWhiteSpace c.

Lemma colonOrSpace_unit c :
  set_matches true false [CChar 58; CSpace] c = colonOrSpace c.
Proof.
  unfold set_matches, colonOrSpace. cbn [existsb citem_matches xorb].
  unfold unit_matches. change (canonicalize 58) with 58%N.
  rewrite canonicalize_low by lia.
  now rewrite orb_false_r, (N.eqb_sym 58 c).
Qed.

Lemma digit_not_colonOrSpace c : isDigit c = true -> colonOrSpace c = false.
Proof.
  intros H. unfold colonOrSpace. rewrite (digit_not_space _ H), orb_false_r.
  unfold isDigit in H. apply andb_true_iff in H as [_ H].
  apply N.leb_le in H. apply N.eqb_neq. lia.
Qed.

Definition startsNoDigit (t : jsstring) : Prop :=
  match t with [] => True | c :: _ => isDigit c = false end.

Lemma group_digits_run fl n w rest s k res :
  after s = w ++ rest -> numeric w -> startsNoDigit rest ->
  k (mkMstate (rev w ++ before s) rest ((n, w) :: caps s)) = Some res ->
  rx fl (RGroup n digits) s k = Some res.
Proof.
  intros Hs [Hne Hw] Hrest Hk. destruct w as [|x w]; [contradiction|].
  inversion Hw as [|? ? Hx Hw']; subst.
  unfold digits, RPlus. cbn [rx]. unfold step_unit at 1. rewrite Hs.
  cbn [app]. rewrite digit_unit, Hx.
  match goal with
  | |- ?lhs = _ =>
      change lhs
        with (star_loop (rx fl (RSet false [CDigit])) true
                (fun s1 =>
                   k (mkMstate (before s1) (after s1)
                        ((n, captured s s1) :: caps s1)))
                (S (length (w ++ rest)))
                (mkMstate (x :: before s) (w ++ rest) (caps s)))
  end.
  apply (@star_greedy_run fl (RSet false [CDigit])
           (set_matches (ignoreCase fl) false [CDigit]) _ res eq_refl
           w rest).
  - reflexivity.
  - eapply Forall_impl; [|exact Hw']. intros c Hc. now rewrite digit_unit.
  - destruct rest; [exact I|]. now rewrite digit_unit.
  - rewrite length_app. lia.
  - cbn [before after caps].
    assert (E : rev w ++ x :: before s = rev (x :: w) ++ before s)
      by (cbn [rev]; now rewrite <- app_assoc).
    rewrite E, captured_read. exact Hk.
Qed.

(** The marker, read where it stands. *)
Lemma marker_at bef id_ rest :
  numeric id_ -> startsNoDigit rest ->
  rx caseless productIdMarker
    (start_state bef (js "Product ID: " ++ id_ ++ rest)) (fun s1 => Some s1)
  = Some (mkMstate (rev (js "Product ID: " ++ id_) ++ bef) rest [(1, id_)]).
Proof.
  intros Hid Hrest. unfold productIdMarker. cbn [RSeqs]. rewrite rx_seq.
  erewrite (@lit_run caseless "Product ID" (js "Product ID")
              (js ": " ++ id_ ++ rest)); [|reflexivity..].
  rewrite rx_seq. unfold colonOrSpaces. rewrite rx_star.
  apply (@star_greedy_run caseless (RSet false [CChar 58; CSpace])
           (set_matches true false [CChar 58; CSpace]) _ _ eq_refl
           (js ": ") (id_ ++ rest)).
  - reflexivity.
  - repeat constructor.
  - destruct Hid as [Hne Hd]. destruct id_ as [|x id']; [contradiction|].
    inversion Hd; subst. cbn [app].
    rewrite colonOrSpace_unit. now apply digit_not_colonOrSpace.
  - cbn [after start_state length]. rewrite !length_app. cbn [length]. lia.
  - cbn [before after caps start_state].
    apply (@group_digits_run caseless 1 id_ rest); try assumption;
      [reflexivity|].
    cbn [before caps]. f_equal. f_equal.
    rewrite !rev_app_distr, <- !app_assoc. reflexivity.
Qed.

(** A literal does not reach over a code unit none of its units
    matches. *)
Lemma lit_stops L c : forall x r,
  Forall (fun l => unit_matches true l c = false) L ->
  lit_matches true L (x ++ c :: r) = lit_matches true L x.
Proof.
  induction L as [|l L IH]; intros x r H; [now destruct x|].
  inversion H as [|? ? Hl HL]; subst.
  destruct x as [|y x]; cbn [app lit_matches].
  - now rewrite Hl.
  - now rewrite IH.
Qed.

Lemma marker_not_before name_ x1 x2 bef rest k :
  mentions (js "Product ID") name_ = false ->
  name_ ++ [NL] = x1 ++ x2 -> x2 <> [] ->
  rx caseless productIdMarker (start_state bef (x2 ++ rest)) k = None.
Proof.
  intros Hm E Hx2. unfold productIdMarker. cbn [RSeqs]. rewrite rx_seq.
  unfold RLit. rewrite rx_RLit. cbn [ignoreCase caseless after start_state].
  destruct (@exists_last _ x2 Hx2) as (x2' & c & ->).
  rewrite app_assoc in E. apply app_inj_tail in E as [E <-].
  rewrite <- app_assoc. cbn [app].
  rewrite lit_stops by (vm_compute; repeat constructor).
  subst name_. now rewrite (mentions_suffix _ _ _ Hm).
Qed.

Lemma marker_not_after d x1 x2 bef k :
  mentions (js "Product ID") d = false ->
  NL :: js "Description: " ++ d = x1 ++ x2 ->
  rx caseless productIdMarker (start_state bef x2) k = None.
Proof.
  intros Hm E. unfold productIdMarker. cbn [RSeqs]. rewrite rx_seq.
  unfold RLit. rewrite rx_RLit. cbn [ignoreCase caseless after start_state].
  assert (H : lit_matches true (js "Product ID") x2 = false);
    [|now rewrite H].
  do 14 (destruct x1 as [|? x1];
         [cbn in E; subst x2; vm_compute; reflexivity
         |cbn in E; injection E as _ E]).
  subst d. now apply (mentions_suffix _ _ _ Hm).
Qed.


(** *** The description after the marker *)

(** A lazy repetition of a one-unit expression reads on until what
    follows accepts. *)
Lemma star_lazy_run fl r p k res :
  unit_test fl r = Some p ->
  forall w rest fuel s,
    after s = w ++ rest ->
    Forall (fun c => p c = true) w ->
    (forall w1 w2, w = w1 ++ w2 -> w2 <> [] ->
       k (mkMstate (rev w1 ++ before s) (w2 ++ rest) (caps s)) = None) ->
    length w < fuel ->
    k (mkMstate (rev w ++ before s) rest (caps s)) = Some res ->
    star_loop (rx fl r) false k fuel s = Some res.
Proof.
  intros Hr. induction w as [|c w IH]; intros rest fuel s Hs Hw Hpre Hfuel Hk.
  - cbn [app rev] in Hs, Hk.
    assert (Es : s = mkMstate (before s) rest (caps s))
      by (destruct s; cbn in *; now subst).
    rewrite <- Es in Hk.
    destruct fuel as [|fuel]; [exact Hk|]. cbn [star_loop]. now rewrite Hk.
  - destruct fuel as [|fuel]; [cbn in Hfuel; lia|].
    inversion Hw as [|? ? Hc Hw']; subst.
    cbn [star_loop].
    assert (E0 : k s = None).
    { specialize (Hpre [] (c :: w) eq_refl ltac:(discriminate)).
      cbn [rev app] in Hpre. cbn [app] in Hs. rewrite <- Hs in Hpre.
      now destruct s. }
    rewrite E0, (@rx_unit fl r p _ _ Hr). unfold step_unit at 1.
    rewrite Hs. cbn [app]. rewrite Hc. cbn [after length].
    assert (Hlt : (length (w ++ rest) <? S (length (w ++ rest))) = true)
      by (apply Nat.ltb_lt; lia).
    rewrite Hlt.
    apply (IH rest fuel (mkMstate (c :: before s) (w ++ rest) (caps s)));
      try reflexivity; try assumption.
    + intros w1 w2 -> Hw2. cbn [before caps].
      specialize (Hpre (c :: w1) w2 eq_refl Hw2). cbn [rev] in Hpre.
      now rewrite <- app_assoc in Hpre.
    + cbn in Hfuel. lia.
    + cbn [before caps rev] in *. now rewrite <- app_assoc in Hk.
Qed.

Lemma anyUnit_all ic c : set_matches ic false [CSpace; CNotSpace] c = true.
Proof.
  unfold set_matches. cbn [existsb citem_matches xorb].
  now destruct (isWhiteSpace c).
Qed.

Lemma line_break_unit ic c :
  (c =? 10)%N = false -> unit_matches ic NL c = false.
Proof.
  intros H. unfold unit_matches, NL. destruct ic; [|now rewrite N.eqb_sym].
  change (canonicalize 10) with 10%N. rewrite canonicalize_low by lia.
  now rewrite N.eqb_sym.
Qed.

Lemma step_unit_none (p : N -> bool) s k :
  match after s with
  | [] => True
  | c :: _ => p c = false
  end ->
  step_unit p s k = None.
Proof.
  intros H. unfold step_unit.
  destruct (after s) as [|c t]; [reflexivity|]. now rewrite H.
Qed.

(** The lookahead that ends a description. *)
Definition descriptionEnd : regex :=
  RLook true
    (RAlts [RSeq (RChar NL) (RChar NL);
            RSeqs [RChar NL; spaces; dashOrBullet];
            RSeq (RChar NL) (RLit "Product ID");
            REol]).

Lemma descriptionEnd_inside fl s k c t :
  multiline fl = false ->
  after s = c :: t -> (c =? 10)%N = false ->
  rx fl descriptionEnd s k = None.
Proof.
  intros Hml Hs Hc. unfold descriptionEnd. cbn [RAlts RSeqs].
  assert (Hu : match after s with
               | [] => True
               | c :: _ => unit_matches (ignoreCase fl) NL c = false
               end)
    by (rewrite Hs; now apply line_break_unit).
  cbn [rx]. rewrite !(@step_unit_none _ s _ Hu).
  unfold at_eol. now rewrite Hs, Hml.
Qed.

Lemma descriptionEnd_end fl s k :
  after s = [] ->
  rx fl descriptionEnd s k = k (mkMstate (before s) (after s) (caps s)).
Proof.
  intros Hs. unfold descriptionEnd. cbn [RAlts RSeqs].
  assert (Hu : match after s with
               | [] => True
               | c :: _ => unit_matches (ignoreCase fl) NL c = false
               end)
    by (now rewrite Hs).
  cbn [rx]. rewrite !(@step_unit_none _ s _ Hu).
  unfold at_eol. now rewrite Hs.
Qed.

(** The label and the description that follows it up to the end. *)
Lemma description_at bef d c t :
  d = c :: t -> colonOrSpace c = false ->
  Forall (fun x => (x =? 10)%N = false) d ->
  exists s1,
    rx caseless descriptionLabel (start_state bef (js "Description: " ++ d))
      (fun s => Some s)
    = Some s1
    /\ caps s1 = [(1, d)].
Proof.
  intros Hd Hc Hnl. eexists.
  unfold descriptionLabel. cbn [RSeqs]. fold descriptionEnd.
  rewrite rx_seq.
  erewrite (@lit_run caseless "Description" (js "Description")
              (js ": " ++ d)); [|reflexivity..].
  rewrite rx_seq. unfold colonOrSpaces. rewrite rx_star.
  split.
  - apply (@star_greedy_run caseless (RSet false [CChar 58; CSpace])
             (set_matches true false [CChar 58; CSpace]) _ _ eq_refl
             (js ": ") d).
    + reflexivity.
    + repeat constructor.
    + subst d. now rewrite colonOrSpace_unit.
    + cbn [after start_state length]. rewrite !length_app. cbn [length]. lia.
    + cbn [before after caps start_state]. rewrite rx_seq. cbn [rx].
      match goal with
      | |- ?lhs = _ =>
          change lhs
            with (star_loop (rx caseless anyUnit) false
                    (fun s1 =>
                       rx caseless descriptionEnd
                         (mkMstate (before s1) (after s1)
                            ((1, captured
                                   (mkMstate
                                      (rev (js ": ")
                                       ++ rev (js "Description") ++ bef)
                                      d [])
                                   s1) :: caps s1))
                         (fun s => Some s))
                    (S (length d))
                    (mkMstate
                       (rev (js ": ") ++ rev (js "Description") ++ bef)
                       d []))
      end.
      apply (@star_lazy_run caseless anyUnit
               (set_matches true false [CSpace; CNotSpace]) _ _ eq_refl
               d []).
      * cbn [after]. now rewrite app_nil_r.
      * apply Forall_forall. intros x _. apply anyUnit_all.
      * intros w1 w2 -> Hw2. destruct w2 as [|x w2]; [contradiction|].
        apply Forall_app in Hnl as [_ Hnl]. inversion Hnl; subst.
        now apply (@descriptionEnd_inside caseless _ _ x (w2 ++ [])).
      * lia.
      * cbn [before caps]. rewrite descriptionEnd_end by reflexivity.
        cbn [before after caps]. rewrite captured_read. reflexivity.
  - reflexivity.
Qed.


(** *** A description the scan reads back as it is *)

(** Every white-space unit is one space between two other units. *)
Fixpoint singleSpaced (s : jsstring) : bool :=
  match s with
  | [] => true
  | c :: s' =>
      (if isWhiteSpace c
       then (c =? 32)%N
            && match s' with
               | [] => true
               | c' :: _ => negb (isWhiteSpace c')
               end
       else true)
      && singleSpaced s'
  end.

Definition cleanText (d : jsstring) : bool :=
  match d with
  | [] => false
  | c :: _ => negb (colonOrSpace c)
  end
  && negb (isWhiteSpace (last d 0%N))
  && singleSpaced d
  && (length d <=? 300)
  && negb (mentions (js "Product ID") d).

Lemma singleSpaced_no_break d :
  singleSpaced d = true -> Forall (fun x => (x =? 10)%N = false) d.
Proof.
  induction d as [|c d IH]; [constructor|]. cbn [singleSpaced]. intros H.
  apply andb_true_iff in H as [Hc Hd]. constructor; [|now apply IH].
  destruct (N.eqb_spec c 10) as [->|]; [|reflexivity].
  now vm_compute in Hc.
Qed.

Lemma singleSpaced_split d :
  singleSpaced d = true ->
  Forall (fun c => isWhiteSpace c = false) d
  \/ exists x y,
       d = x ++ 32%N :: y
       /\ Forall (fun c => isWhiteSpace c = false) x
       /\ startsBlack y /\ singleSpaced y = true.
Proof.
  induction d as [|c d IH]; [now left|]. cbn [singleSpaced]. intros H.
  apply andb_true_iff in H as [Hc Hd].
  destruct (isWhiteSpace c) eqn:Ec.
  - right. apply andb_true_iff in Hc as [Hc Hn]. apply N.eqb_eq in Hc.
    subst c. exists [], d. repeat split; [constructor| |exact Hd].
    destruct d; [exact I|]. now apply negb_true_iff in Hn.
  - destruct (IH Hd) as [Hall|(x & y & -> & Hx & Hy & Hs)].
    + left. now constructor.
    + right. exists (c :: x), y. repeat split; try assumption.
      now constructor.
Qed.

Lemma lineBreak_none d :
  Forall (fun x => (x =? 10)%N = false) d ->
  search plain lineBreak [] d = None.
Proof.
  intros Hd. apply search_none. intros x1 x2 ->.
  apply Forall_app in Hd as [_ Hd].
  destruct (rx plain lineBreak (start_state (rev x1 ++ []) x2)
              (fun s1 => Some s1)) as [res|] eqn:E; [exfalso|reflexivity].
  unfold lineBreak in E. cbn [RSeqs] in E. rewrite rx_seq in E.
  apply spaces_inv in E as (ws & rest & Hs & _ & Hk).
  cbn [after start_state] in Hs. subst x2.
  apply Forall_app in Hd as [_ Hd].
  rewrite rx_seq in Hk. cbn [rx] in Hk. unfold step_unit in Hk.
  cbn [after] in Hk. destruct rest as [|c rest]; [discriminate|].
  inversion Hd as [|? ? Hc _]; subst.
  unfold unit_matches in Hk. cbn [ignoreCase plain] in Hk.
  unfold NL in Hk. rewrite N.eqb_sym, Hc in Hk. discriminate.
Qed.

Lemma whiteRun_not_at fl bef aft k :
  startsBlack aft -> rx fl whiteRun (start_state bef aft) k = None.
Proof.
  intros H. unfold whiteRun, RPlus. rewrite rx_seq. cbn [rx].
  unfold step_unit. cbn [after start_state].
  destruct aft as [|c aft]; [reflexivity|]. cbn in H.
  now rewrite white_unit, H.
Qed.

Lemma whiteRun_none : forall d bef,
  Forall (fun c => isWhiteSpace c = false) d ->
  search plain whiteRun bef d = None.
Proof.
  intros d bef Hd. apply search_none. intros x1 x2 ->.
  apply Forall_app in Hd as [_ Hd]. apply whiteRun_not_at.
  destruct x2; [exact I|]. now inversion Hd.
Qed.

(** Replacing each white-space run by a space leaves a single-spaced
    text as it is. *)
Lemma whiteRun_single : forall n d,
  length d <= n -> singleSpaced d = true ->
  forall bef fuel, length d < fuel ->
    replaceAll_from (rev bef ++ d) (js " ")
      (matchAll_from plain whiteRun fuel bef d) (length bef)
    = d.
Proof.
  induction n as [|n IH]; intros d Hn Hd bef fuel Hfuel.
  - destruct d; [|cbn in Hn; lia]. destruct fuel; [lia|].
    cbn [matchAll_from search]. rewrite whiteRun_not_at by exact I.
    cbn [replaceAll_from]. rewrite <- length_rev, skipn_app, skipn_all.
    now rewrite Nat.sub_diag.
  - destruct fuel as [|fuel]; [lia|].
    destruct (singleSpaced_split _ Hd) as [Hall|(x & y & -> & Hx & Hy & Hs)].
    + cbn [matchAll_from]. rewrite whiteRun_none by exact Hall.
      cbn [replaceAll_from]. rewrite <- length_rev, skipn_app, skipn_all.
      now rewrite Nat.sub_diag.
    + cbn [matchAll_from]. rewrite search_skip.
      2:{ intros x1 x2 -> Hx2. apply whiteRun_not_at.
          apply Forall_app in Hx as [_ Hx]. destruct x2; [contradiction|].
          now inversion Hx. }
      erewrite search_hit.
      2:{ apply (@whiteRun_run plain [32%N] y); try reflexivity;
            [repeat constructor|discriminate|exact Hy]. }
      cbn [start_state before after caps rev app].
      unfold advance, to_rmatch, start_state.
      cbn [before after lastIndex index length].
      assert (En : Nat.eqb (S (length (rev x ++ bef))) (length (rev x ++ bef))
                   = false) by (apply Nat.eqb_neq; lia).
      rewrite En. cbn [replaceAll_from index lastIndex].
      rewrite length_app in Hn, Hfuel. cbn [length] in Hn, Hfuel.
      assert (E1 : substring (rev bef ++ x ++ 32%N :: y) (length bef)
                     (length (rev x ++ bef)) = x).
      { unfold substring. rewrite length_app, length_rev.
        replace (Nat.max (length bef) (length x + length bef)
                 - Nat.min (length bef) (length x + length bef))
          with (length x) by lia.
        replace (Nat.min (length bef) (length x + length bef))
          with (length (rev bef)) by (rewrite length_rev; lia).
        rewrite skipn_app, skipn_all, Nat.sub_diag. cbn [skipn app].
        now rewrite firstn_app, Nat.sub_diag, firstn_all, app_nil_r. }
      rewrite E1.
      specialize (IH y ltac:(lia) Hs (32%N :: rev x ++ bef) fuel ltac:(lia)).
      cbn [rev length] in IH.
      rewrite rev_app_distr, rev_involutive, <- !app_assoc in IH.
      cbn [app] in IH. rewrite IH. reflexivity.
Qed.

Lemma collapseWhitespace_single d :
  singleSpaced d = true -> collapseWhitespace d = d.
Proof.
  intros Hd. unfold collapseWhitespace.
  rewrite (@replaceAll_none plain lineBreak d (js " "))
    by (apply lineBreak_none, singleSpaced_no_break, Hd).
  unfold replaceAll, matchAll.
  apply (@whiteRun_single (length d) d (le_n _) Hd [] (S (length d))). lia.
Qed.

Record CleanText (d : jsstring) : Prop := mkCleanText {
  ct_head : exists c t, d = c :: t /\ colonOrSpace c = false;
  ct_last : isWhiteSpace (last d 0%N) = false;
  ct_spaced : singleSpaced d = true;
  ct_length : length d <= 300;
  ct_marker : mentions (js "Product ID") d = false
}.

Lemma cleanText_spec d : cleanText d = true -> CleanText d.
Proof.
  unfold cleanText. intros H.
  apply andb_true_iff in H as [H Hm]. apply andb_true_iff in H as [H Hl].
  apply andb_true_iff in H as [H Hs]. apply andb_true_iff in H as [Hh Hlast].
  apply negb_true_iff in Hm, Hlast. apply Nat.leb_le in Hl.
  constructor; try assumption.
  destruct d as [|c t]; [discriminate|]. exists c, t.
  apply negb_true_iff in Hh. now split.
Qed.

(** The text after a marker that is a description label and a clean
    text gives that text. *)
Lemma descriptionAfter_clean d :
  CleanText d -> descriptionAfter (NL :: js "Description: " ++ d) = d.
Proof.
  intros [(c & t & Hd & Hc) Hlast Hs Hl Hm].
  assert (Hw : isWhiteSpace c = false)
    by (unfold colonOrSpace in Hc; now apply orb_false_iff in Hc as [_ Hc]).
  destruct (@description_at [NL] d c t Hd Hc (singleSpaced_no_break _ Hs))
    as (s1 & Hrx & Hcaps).
  unfold descriptionAfter. cbv zeta. unfold rx_match.
  rewrite search_step.
  2:{ unfold descriptionLabel. cbn [RSeqs]. rewrite rx_seq. unfold RLit.
      rewrite rx_RLit. reflexivity. }
  rewrite (@search_hit _ _ _ _ _ Hrx). cbn [option_map fst].
  rewrite (@group_of_caps _ _ _ _ _ _ Hcaps), (@trim_clean _ _ _ Hd Hw Hlast).
  rewrite Hd at 1. rewrite (@collapseWhitespace_single _ Hs).
  unfold substring. cbn [Nat.max Nat.min Nat.sub skipn].
  rewrite firstn_all2 by exact Hl. apply (@trim_clean _ _ _ Hd Hw Hlast).
Qed.


(** *** The whole content *)

Lemma matchAll_from_none fl r fuel bef aft :
  search fl r bef aft = None -> matchAll_from fl r fuel bef aft = [].
Proof. intros H. destruct fuel; cbn [matchAll_from]; now rewrite ?H. Qed.

Lemma splitOn_line x : forall cur y,
  Forall (fun c => c <> 10%N) x ->
  splitOn 10 (x ++ 10%N :: y) cur = rev (rev x ++ cur) :: splitOn 10 y [].
Proof.
  induction x as [|c x IH]; intros cur y H; [reflexivity|].
  inversion H as [|? ? Hc Hx]; subst. cbn [app splitOn].
  apply N.eqb_neq in Hc. rewrite Hc, IH by exact Hx.
  cbn [rev]. now rewrite <- app_assoc.
Qed.

(** The content of a document in the format the marker scan reads: a
    name on a line of its own, the marker with the identifier on the
    next, the labelled description on the last. *)
Definition markerContent (name_ id_ description_ : jsstring) : jsstring :=
  name_ ++ NL :: js "Product ID: " ++ id_
        ++ NL :: js "Description: " ++ description_.

Lemma markerContent_matches name_ id_ d :
  CleanName name_ -> numeric id_ -> CleanText d ->
  matchAll caseless productIdMarker (markerContent name_ id_ d)
  = [mkRmatch (length name_ + 1) (length name_ + 1 + (12 + length id_))
       (js "Product ID: " ++ id_) [(1, id_)]].
Proof.
  intros Hn Hid Hd. unfold matchAll.
  set (rest := NL :: js "Description: " ++ d).
  assert (Ec : markerContent name_ id_ d
               = (name_ ++ [NL]) ++ js "Product ID: " ++ id_ ++ rest).
  { unfold markerContent, rest. rewrite <- !app_assoc. reflexivity. }
  rewrite Ec. cbn [matchAll_from].
  rewrite search_skip.
  2:{ intros x1 x2 E Hx2.
      apply (@marker_not_before name_ x1 x2 _ _ _ (cn_marker Hn) E Hx2). }
  rewrite (@search_hit _ _ _ _ _
             (@marker_at (rev (name_ ++ [NL]) ++ []) id_ rest Hid
                ltac:(exact (eq_refl : isDigit NL = false)))).
  unfold advance, to_rmatch, start_state.
  cbn [before after caps lastIndex index].
  rewrite captured_app, rev_involutive.
  rewrite !length_app, !length_rev, !length_app. cbn [length].
  assert (En : Nat.eqb (12 + length id_ + (length name_ + 1 + 0))
                 (length name_ + 1 + 0) = false)
    by (apply Nat.eqb_neq; lia).
  change (length (js "Product ID: ")) with 12. rewrite En.
  rewrite matchAll_from_none.
  2:{ apply search_none. intros x1 x2 E.
      apply (@marker_not_after d x1 x2 _ _ (ct_marker Hd) E). }
  f_equal. f_equal; lia.
Qed.

Lemma scanMarker_markerContent name_ id_ d :
  CleanName name_ -> numeric id_ -> CleanText d ->
  scanMarker (markerContent name_ id_ d) []
    (mkRmatch (length name_ + 1) (length name_ + 1 + (12 + length id_))
       (js "Product ID: " ++ id_) [(1, id_)])
  = [mkProduct name_ id_ d].
Proof.
  intros Hn Hid Hd.
  destruct (cn_head Hn) as (c & t & En & _ & Hw & _).
  destruct (ct_head Hd) as (c' & t' & Ed & _).
  unfold scanMarker. cbv zeta. cbn [index matched].
  change (group 1 {| index := length name_ + 1;
                     lastIndex := length name_ + 1 + (12 + length id_);
                     matched := js "Product ID: " ++ id_;
                     groups := [(1, id_)] |}) with id_.
  assert (E1 : substring (markerContent name_ id_ d) 0 (length name_ + 1)
               = name_ ++ [NL]).
  { unfold substring, markerContent. cbn [Nat.max Nat.min skipn].
    rewrite Nat.sub_0_r.
    change (name_ ++ NL :: js "Product ID: " ++ id_
            ++ NL :: js "Description: " ++ d)
      with (name_ ++ [NL] ++ js "Product ID: " ++ id_
            ++ NL :: js "Description: " ++ d).
    rewrite app_assoc.
    replace (length name_ + 1) with (length (name_ ++ [NL]))
      by (rewrite length_app; reflexivity).
    now rewrite firstn_app, Nat.sub_diag, firstn_all, app_nil_r. }
  rewrite E1.
  assert (E2 : splitLines (name_ ++ [NL]) = [name_; []]).
  { unfold splitLines, NL. rewrite splitOn_line.
    - cbn [splitOn rev app]. now rewrite app_nil_r, rev_involutive.
    - eapply Forall_impl; [|exact (cn_units Hn)]. now intros x (H10 & _). }
  rewrite E2. cbn [filter].
  rewrite (@trim_clean _ _ _ En Hw (cn_last Hn)).
  assert (Ene : name_ === [] = false) by (now rewrite En).
  rewrite Ene. change (trim []) with (@nil N). cbn [str_eqb negb last].
  rewrite (nameFromLine_clean Hn).
  assert (E3 : substringFrom (markerContent name_ id_ d)
                 (length name_ + 1 + length (js "Product ID: " ++ id_))
               = NL :: js "Description: " ++ d).
  { unfold substringFrom, markerContent.
    replace (name_ ++ NL :: js "Product ID: " ++ id_
             ++ NL :: js "Description: " ++ d)
      with (((name_ ++ [NL]) ++ js "Product ID: " ++ id_)
            ++ NL :: js "Description: " ++ d)
      by (rewrite <- !app_assoc; reflexivity).
    replace (length name_ + 1 + length (js "Product ID: " ++ id_))
      with (length ((name_ ++ [NL]) ++ js "Product ID: " ++ id_))
      by (rewrite !length_app; reflexivity).
    now rewrite skipn_app, skipn_all, Nat.sub_diag. }
  rewrite E3, (descriptionAfter_clean Hd).
  cbn [updateExisting app].
  assert (On : orDefault name_ (placeholderName id_) = name_)
    by (now rewrite En).
  assert (Od : orDefault d NO_DESCRIPTION = d) by (now rewrite Ed).
  now rewrite On, Od.
Qed.

(** X18. A document whose metadata step does not throw and gives no
    record, and whose content gives a clean name on one line,
    [Product ID: ] and a number on the next and [Description: ] and a
    clean single-spaced text on the last, is read back as exactly that one
    product: the name, the identifier and the description as they were
    written. *)
Theorem marker_content_round_trip (doc : SupabaseDocument)
    (name_ id_ description_ : jsstring) :
  cleanName name_ = true ->
  numeric id_ ->
  cleanText description_ = true ->
  metadataThrows (doc_metadata doc) = false ->
  fromMetadata (doc_metadata doc) = [] ->
  doc_content doc = markerContent name_ id_ description_ ->
  extractProductsFromDocuments [doc] = [mkProduct name_ id_ description_].
Proof.
  intros Hn Hid Hd Hthrows Hmeta Hcontent.
  apply cleanName_spec in Hn. apply cleanText_spec in Hd.
  unfold extractProductsFromDocuments. cbn [flat_map].
  unfold extractFromDocument. rewrite Hthrows. cbv zeta.
  rewrite Hmeta, Hcontent.
  rewrite (markerContent_matches Hn Hid Hd). cbn [fold_left].
  rewrite (scanMarker_markerContent Hn Hid Hd). cbn [app].
  unfold uniqueByProductId, filterIndexed, findIndex.
  cbn [filter_from findIndex_from productId].
  now rewrite str_eqb_refl.
Qed.

Definition catalogueDoc : SupabaseDocument :=
  mkDocument (js "d5")
    (markerContent (js "Blue Kettle") (js "42")
       (js "Boils a litre in two minutes."))
    (JObj [(js "source", JStr (js "catalogue"))]) (Real (js "0.91")).

Lemma marker_content_round_trip_witness :
  extractProductsFromDocuments [catalogueDoc]
  = [mkProduct (js "Blue Kettle") (js "42")
       (js "Boils a litre in two minutes.")].
Proof.
  apply (@marker_content_round_trip catalogueDoc (js "Blue Kettle")
           (js "42") (js "Boils a litre in two minutes."));
    try reflexivity.
  split; [discriminate | repeat constructor].
Defined.


(** ** An assistant text in the format the section extractor reads *)

(** *** Runs, literals and optional units *)

Lemma plus_run fl r p w rest s k res :
  unit_test fl r = Some p ->
  after s = w ++ rest -> w <> [] ->
  Forall (fun c => p c = true) w ->
  match rest with [] => True | c :: _ => p c = false end ->
  k (mkMstate (rev w ++ before s) rest (caps s)) = Some res ->
  rx fl (RPlus true r) s k = Some res.
Proof.
  intros Hr Hs Hne Hw Hrest Hk. destruct w as [|x w]; [contradiction|].
  inversion Hw as [|? ? Hx Hw']; subst.
  unfold RPlus. rewrite rx_seq, (@rx_unit fl r p _ _ Hr).
  unfold step_unit. rewrite Hs. cbn [app]. rewrite Hx, rx_star.
  apply (@star_greedy_run fl r p k res Hr w rest); try assumption.
  - reflexivity.
  - cbn [after]. rewrite length_app. lia.
  - cbn [before caps rev] in *. now rewrite <- app_assoc in Hk.
Qed.

Lemma group_plus_run fl n r p w rest s k res :
  unit_test fl r = Some p ->
  after s = w ++ rest -> w <> [] ->
  Forall (fun c => p c = true) w ->
  match rest with [] => True | c :: _ => p c = false end ->
  k (mkMstate (rev w ++ before s) rest ((n, w) :: caps s)) = Some res ->
  rx fl (RGroup n (RPlus true r)) s k = Some res.
Proof.
  intros Hr Hs Hne Hw Hrest Hk.
  change (rx fl (RGroup n (RPlus true r)) s k)
    with (rx fl (RPlus true r) s
            (fun s1 =>
               k (mkMstate (before s1) (after s1)
                    ((n, captured s s1) :: caps s1)))).
  apply (@plus_run fl r p w rest s _ res Hr Hs Hne Hw Hrest).
  cbn [before after caps]. now rewrite captured_read.
Qed.

Lemma digits_run fl w rest s k res :
  after s = w ++ rest -> numeric w -> startsNoDigit rest ->
  k (mkMstate (rev w ++ before s) rest (caps s)) = Some res ->
  rx fl digits s k = Some res.
Proof.
  intros Hs [Hne Hw] Hrest Hk. unfold digits.
  apply (@plus_run fl (RSet false [CDigit])
           (set_matches (ignoreCase fl) false [CDigit]) w rest s k res
           eq_refl Hs Hne).
  - eapply Forall_impl; [|exact Hw]. intros c Hc. now rewrite digit_unit.
  - destruct rest; [exact I|]. now rewrite digit_unit.
  - exact Hk.
Qed.

Lemma digits_inv fl s k res :
  rx fl digits s k = Some res ->
  exists w rest,
    after s = w ++ rest /\ numeric w
    /\ k (mkMstate (rev w ++ before s) rest (caps s)) = Some res.
Proof.
  unfold digits, RPlus.
  rewrite rx_seq, (@rx_unit fl (RSet false [CDigit])
                     (set_matches (ignoreCase fl) false [CDigit]) s _ eq_refl).
  unfold step_unit.
  destruct (after s) as [|x t] eqn:Ea; [discriminate|].
  rewrite digit_unit. destruct (isDigit x) eqn:Ex; [|discriminate].
  intros H. rewrite rx_star in H.
  apply (@star_units fl (RSet false [CDigit])
           (set_matches (ignoreCase fl) false [CDigit]) true k res eq_refl)
    in H as (w & rest & Hs & Hw & Hk).
  cbn [before after caps] in *. exists (x :: w), rest.
  split; [now rewrite Hs|]. split.
  - split; [discriminate|]. constructor; [exact Ex|].
    eapply Forall_impl; [|exact Hw]. intros c Hc.
    rewrite <- (digit_unit (ignoreCase fl)). exact Hc.
  - cbn [rev]. now rewrite <- app_assoc.
Qed.

Lemma unit_matches_self ic c : unit_matches ic c c = true.
Proof. unfold unit_matches. destruct ic; apply N.eqb_refl. Qed.

Lemma lit_matches_self ic L rest : lit_matches ic L (L ++ rest) = true.
Proof.
  induction L as [|c L IH]; [reflexivity|]. cbn [app lit_matches].
  now rewrite unit_matches_self, IH.
Qed.

(** A literal read where it stands, letter for letter. *)
Lemma lit_exact fl L rest s k :
  after s = js L ++ rest ->
  rx fl (RLit L) s k = k (mkMstate (rev (js L) ++ before s) rest (caps s)).
Proof.
  intros Hs. unfold RLit. rewrite rx_RLit, Hs, lit_matches_self.
  now rewrite (@advance_n_app (js L) rest s Hs).
Qed.

Lemma optionalStar_skip fl s k c t :
  after s = c :: t -> (c =? 42)%N = false ->
  rx fl optionalStar s k = k s.
Proof.
  intros Hs Hc. unfold optionalStar, ROpt. cbn [rx]. unfold step_unit.
  rewrite Hs.
  assert (Hu : unit_matches (ignoreCase fl) 42 c = false).
  { unfold unit_matches. destruct (ignoreCase fl).
    - change (canonicalize 42) with 42%N. rewrite canonicalize_low by lia.
      now rewrite N.eqb_sym.
    - now rewrite N.eqb_sym. }
  now rewrite Hu.
Qed.

Lemma char_step fl c rest s k :
  after s = c :: rest ->
  rx fl (RChar c) s k = k (mkMstate (c :: before s) rest (caps s)).
Proof.
  intros Hs. cbn [rx]. unfold step_unit. now rewrite Hs, unit_matches_self.
Qed.

(** At the end of the input a repetition that starts with a code unit
    iterates no more. *)
Lemma star_at_end fl g c r s k :
  after s = [] -> rx fl (RStar g (RSeq (RChar c) r)) s k = k s.
Proof.
  intros Hs. rewrite rx_star, Hs. cbn [length star_loop].
  rewrite rx_seq. cbn [rx]. unfold step_unit. rewrite Hs.
  destruct g; [reflexivity|]. now destruct (k s).
Qed.

(** *** Texts that do not mention a word *)

Lemma mentions_miss l L c b :
  unit_matches true l c = false ->
  mentions (l :: L) (c :: b) = mentions (l :: L) b.
Proof. intros H. cbn [mentions lit_matches]. now rewrite H. Qed.

Lemma mentions_join l L c : forall a b,
  Forall (fun u => unit_matches true u c = false) (l :: L) ->
  mentions (l :: L) a = false -> mentions (l :: L) b = false ->
  mentions (l :: L) (a ++ c :: b) = false.
Proof.
  intros a b Hc. induction a as [|x a IH]; intros Ha Hb.
  - cbn [app]. rewrite mentions_miss; [exact Hb|]. now inversion Hc.
  - cbn [app]. change (mentions (l :: L) (x :: a ++ c :: b))
      with (lit_matches true (l :: L) ((x :: a) ++ c :: b)
            || mentions (l :: L) (a ++ c :: b)).
    rewrite lit_stops by exact Hc.
    change (mentions (l :: L) (x :: a))
      with (lit_matches true (l :: L) (x :: a) || mentions (l :: L) a) in Ha.
    apply orb_false_iff in Ha as [Ha1 Ha2].
    now rewrite Ha1, IH.
Qed.

Lemma digit_miss l x :
  isDigit x = true -> isDigit (canonicalize l) = false ->
  unit_matches true l x = false.
Proof.
  intros Hx Hl. unfold unit_matches. apply N.eqb_neq. intros E.
  assert (Ex : canonicalize x = x).
  { unfold canonicalize. unfold isDigit in Hx.
    apply andb_true_iff in Hx as [H1 H2]. apply N.leb_le in H1, H2.
    destruct ((97 <=? x) && (x <=? 122))%N eqn:E'; [|reflexivity].
    apply andb_true_iff in E' as [E1 _]. apply N.leb_le in E1. lia. }
  rewrite Ex in E. rewrite E in Hl. congruence.
Qed.

Lemma digits_no_mention l L w :
  isDigit (canonicalize l) = false ->
  Forall (fun c => isDigit c = true) w -> mentions (l :: L) w = false.
Proof.
  intros Hl. induction 1 as [|x w Hx Hw IH]; [reflexivity|].
  rewrite mentions_miss; [exact IH|]. now apply digit_miss.
Qed.

(** A literal is not found before the end of a text that does not
    mention it and is closed by a code unit the literal does not have. *)
Lemma lit_not_before L pre c x1 x2 rest :
  Forall (fun u => unit_matches true u c = false) L ->
  mentions L pre = false ->
  pre ++ [c] = x1 ++ x2 -> x2 <> [] ->
  lit_matches true L (x2 ++ rest) = false.
Proof.
  intros Hc Hm E Hx2.
  destruct (@exists_last _ x2 Hx2) as (x2' & c' & ->).
  rewrite app_assoc in E. apply app_inj_tail in E as [E <-].
  rewrite <- app_assoc. cbn [app]. rewrite lit_stops by exact Hc.
  subst pre. now apply (mentions_suffix _ _ _ Hm).
Qed.

Lemma last_app_nonempty (a l : list N) d :
  l <> [] -> last (a ++ l) d = last l d.
Proof.
  intros Hl. induction a as [|x a IH]; [reflexivity|].
  cbn [app].
  assert (Hne : a ++ l <> [])
    by (intros E; apply app_eq_nil in E as [_ E]; contradiction).
  destruct (a ++ l) as [|y r]; [contradiction|].
  change (last (x :: y :: r) d) with (last (y :: r) d). exact IH.
Qed.


(** *** Where a section starts *)

Lemma sectionStart_inv s k res :
  rx plain sectionStart s k = Some res ->
  exists w ws rest,
    after s = w ++ 46%N :: ws ++ 42%N :: 42%N :: rest
    /\ numeric w /\ blank ws.
Proof.
  unfold sectionStart. cbn [RSeqs].
  change (rx plain
            (RLook true
               (RSeq digits (RSeq (RChar 46) (RSeq spaces (RLit "**")))))
            s k)
    with (match rx plain
                  (RSeq digits (RSeq (RChar 46) (RSeq spaces (RLit "**"))))
                  s (fun s1 => Some s1) with
          | Some s1 => k (mkMstate (before s) (after s) (caps s1))
          | None => None
          end).
  destruct (rx plain _ s _) as [s1|] eqn:E; [intros _|discriminate].
  rewrite rx_seq in E.
  apply digits_inv in E as (w & rest & Hs & Hw & E).
  rewrite rx_seq in E. cbn [rx] in E. unfold step_unit in E.
  cbn [after before caps] in E.
  destruct rest as [|x rest]; [discriminate|].
  unfold unit_matches in E. cbn [ignoreCase plain] in E.
  destruct (N.eqb_spec 46 x) as [<-|]; [|discriminate].
  fold (rx plain (RLit "**")) in E.
  change (rx plain spaces ?s0 (fun s2 => rx plain (RLit "**") s2 ?k0))
    with (rx plain (RSeq spaces (RLit "**")) s0 k0) in E.
  rewrite rx_seq in E.
  apply spaces_inv in E as (ws & rest' & Hs' & Hws & E).
  cbn [after before caps] in Hs', E. unfold RLit in E.
  rewrite rx_RLit in E. cbn [after ignoreCase plain] in E.
  destruct (lit_matches false (js "**") rest') eqn:El; [|discriminate].
  change (js "**") with [42; 42]%N in El.
  destruct rest' as [|a [|b rest']]; cbn [lit_matches] in El;
    try discriminate; try (now rewrite andb_false_r in El).
  unfold unit_matches in El. apply andb_true_iff in El as [E1 E2].
  apply andb_true_iff in E2 as [E2 _].
  apply N.eqb_eq in E1, E2. subst a b.
  exists w, ws, rest'. subst rest. now rewrite Hs.
Qed.

Lemma sectionStart_at bef w rest :
  numeric w ->
  exists s1,
    rx plain sectionStart
      (start_state bef (w ++ 46%N :: 32%N :: 42%N :: 42%N :: rest))
      (fun s => Some s)
    = Some s1
    /\ before s1 = bef.
Proof.
  intros Hw. eexists. unfold sectionStart. cbn [RSeqs].
  match goal with
  | |- rx plain (RLook true ?r) ?s ?k = _ /\ _ =>
      change (rx plain (RLook true r) s k)
        with (match rx plain r s (fun s1 => Some s1) with
              | Some s1 => k (mkMstate (before s) (after s) (caps s1))
              | None => None
              end)
  end.
  rewrite rx_seq.
  erewrite (@digits_run plain w (46%N :: 32%N :: 42%N :: 42%N :: rest)).
  - split; reflexivity.
  - reflexivity.
  - exact Hw.
  - reflexivity.
  - cbn [before caps start_state]. rewrite rx_seq.
    rewrite (@char_step plain 46 (32%N :: 42%N :: 42%N :: rest))
      by reflexivity.
    rewrite rx_seq.
    apply (@spaces_run plain [32%N] (42%N :: 42%N :: rest));
      [reflexivity | repeat constructor | reflexivity |].
    cbn [before caps].
    rewrite (@lit_exact plain "**" rest) by reflexivity.
    reflexivity.
Qed.

Lemma first_star (a b r r' : list N) :
  Forall (fun c => c <> 42%N) a -> Forall (fun c => c <> 42%N) b ->
  a ++ 42%N :: r = b ++ 42%N :: r' -> a = b.
Proof.
  revert b. induction a as [|x a IH]; intros b Ha Hb E.
  - destruct b as [|y b]; [reflexivity|]. cbn in E. injection E as <- _.
    now inversion Hb.
  - destruct b as [|y b]; cbn in E.
    + injection E as -> _. now inversion Ha.
    + injection E as <- E. inversion Ha; inversion Hb; subst.
      f_equal. now apply IH.
Qed.

Lemma last_point_or_blank ws :
  blank ws ->
  last (46%N :: ws) 0%N = 46%N
  \/ isWhiteSpace (last (46%N :: ws) 0%N) = true.
Proof.
  intros H. destruct ws as [|x ws]; [now left|]. right.
  change (last (46%N :: x :: ws) 0%N) with (last (x :: ws) 0%N).
  revert x H. induction ws as [|y ws IH]; intros x H.
  - now inversion H.
  - change (last (x :: y :: ws) 0%N) with (last (y :: ws) 0%N).
    apply IH. now inversion H.
Qed.

(** A text that can stand between the bold markers. *)
Record BoldText (n : jsstring) : Prop := mkBoldText {
  bt_head : exists c t, n = c :: t /\ isWhiteSpace c = false;
  bt_last : isWhiteSpace (last n 0%N) = false;
  bt_point : last n 0%N <> 46%N;
  bt_stars : Forall (fun c => c <> 42%N) n;
  bt_marker : mentions (js "Product ID") n = false;
  bt_label : mentions (js "Description") n = false
}.

(** After the number no other section starts. *)
Lemma sectionStart_not_inside name_ tail x1 x2 bef k :
  BoldText name_ -> Forall (fun c => c <> 42%N) tail ->
  js ". **" ++ name_ ++ js "**" ++ tail = x1 ++ x2 ->
  rx plain sectionStart (start_state bef x2) k = None.
Proof.
  intros Hn Htail E.
  destruct (rx plain sectionStart (start_state bef x2) k) as [res|] eqn:Er;
    [exfalso|reflexivity].
  apply sectionStart_inv in Er as (w & ws & rest & Hs & [Hne Hw] & Hws).
  cbn [after start_state] in Hs. subst x2.
  destruct w as [|d w]; [contradiction|].
  inversion Hw as [|? ? Hd _]; subst.
  assert (Hstar : Forall (fun c => c <> 42%N) ((d :: w) ++ 46%N :: ws)).
  { apply Forall_app. split.
    - eapply Forall_impl; [|exact Hw]. intros c Hc ->. discriminate.
    - constructor; [discriminate|].
      eapply Forall_impl; [|exact Hws]. intros c Hc ->. discriminate. }
  change (js ". **" ++ name_ ++ js "**" ++ tail)
    with (46%N :: 32%N :: 42%N :: 42%N :: name_ ++ 42%N :: 42%N :: tail) in E.
  do 4 (destruct x1 as [|? x1];
        [cbn in E; injection E as Ed _; subst d; discriminate Hd
        |cbn in E; injection E as _ E]).
  assert (E' : name_ ++ 42%N :: 42%N :: tail
               = x1 ++ ((d :: w) ++ 46%N :: ws) ++ 42%N :: 42%N :: rest)
    by (rewrite E; cbn [app]; now rewrite <- app_assoc).
  clear E. apply app_eq_app in E' as (l & [[E1 E2]|[E1 E2]]).
  - (* the start lies inside the name *)
    apply first_star in E2; try assumption.
    2:{ rewrite E1 in Hn. destruct Hn as [_ _ _ Hs _ _].
        now apply Forall_app in Hs as [_ Hs]. }
    assert (Hl : l <> []) by (rewrite <- E2; discriminate).
    assert (El : last name_ 0%N = last (46%N :: ws) 0%N).
    { rewrite E1, last_app_nonempty by exact Hl.
      rewrite <- E2. now rewrite last_app_nonempty by discriminate. }
    destruct (last_point_or_blank Hws) as [H|H].
    + apply (bt_point Hn). now rewrite El.
    + rewrite <- El, (bt_last Hn) in H. discriminate.
  - (* the start lies after the name *)
    destruct l as [|a [|b l]]; cbn in E2.
    + injection E2 as Ed _. subst d. discriminate Hd.
    + injection E2 as _ Ed _. subst d. discriminate Hd.
    + injection E2 as _ _ E2. rewrite Forall_forall in Htail.
      apply (Htail 42%N); [|reflexivity]. rewrite E2.
      apply in_or_app. right.
      apply (in_or_app ((d :: w) ++ 46%N :: ws) (42%N :: 42%N :: rest)).
      right. now left.
Qed.

(** *** Cutting the text into sections *)

Lemma split_loop_none fl r : forall aft fuel piece bef,
  (forall x1 x2, aft = x1 ++ x2 ->
     rx fl r (start_state (rev x1 ++ bef) x2) (fun s1 => Some s1) = None) ->
  split_loop fl r fuel piece bef aft = [rev piece ++ aft].
Proof.
  induction aft as [|c aft IH]; intros fuel piece bef H.
  - destruct fuel; cbn [split_loop]; now rewrite ?app_nil_r.
  - destruct fuel as [|fuel]; [reflexivity|]. cbn [split_loop].
    pose proof (H [] (c :: aft) eq_refl) as H0. cbn [rev app] in H0.
    rewrite H0, IH.
    + cbn [rev]. now rewrite <- app_assoc.
    + intros x1 x2 ->. specialize (H (c :: x1) x2 eq_refl).
      cbn [rev] in H. now rewrite <- app_assoc in H.
Qed.

Lemma look_position fl r s s1 :
  rx fl (RLook true r) s (fun s => Some s) = Some s1 ->
  before s1 = before s.
Proof.
  cbn [rx]. destruct (rx fl r s _); [|discriminate]. now intros [= <-].
Qed.

(** At the start of a piece a lookahead cuts nothing. *)
Lemma split_loop_pass fl r fuel bef c aft :
  split_loop fl (RLook true r) (S fuel) [] bef (c :: aft)
  = split_loop fl (RLook true r) fuel [c] (c :: bef) aft.
Proof.
  cbn [split_loop].
  destruct (rx fl (RLook true r) (start_state bef (c :: aft)) _)
    as [s1|] eqn:E; [|reflexivity].
  apply look_position in E. rewrite E. cbn [before start_state length].
  now rewrite Nat.sub_0_r, Nat.eqb_refl.
Qed.

Lemma split_loop_digits rest :
  (forall x1 x2 bef, 46%N :: 32%N :: 42%N :: 42%N :: rest = x1 ++ x2 ->
     rx plain sectionStart (start_state bef x2) (fun s1 => Some s1) = None) ->
  forall w d bef fuel,
    Forall (fun c => isDigit c = true) w -> isDigit d = true ->
    2 * length w <= fuel ->
    split_loop plain sectionStart fuel [] bef
      (w ++ d :: 46%N :: 32%N :: 42%N :: 42%N :: rest)
    = List.map (fun c => [c]) w
      ++ [d :: 46%N :: 32%N :: 42%N :: 42%N :: rest].
Proof.
  intros Hin. induction w as [|c w IH]; intros d bef fuel Hw Hd Hfuel.
  - cbn [app List.map]. destruct fuel as [|fuel]; [reflexivity|].
    unfold sectionStart at 1. rewrite split_loop_pass.
    fold sectionStart. rewrite split_loop_none; [reflexivity|].
    intros x1 x2 E. now apply Hin with (x1 := x1).
  - inversion Hw as [|? ? Hc Hw']; subst.
    destruct fuel as [|[|fuel]]; [cbn in Hfuel; lia..|].
    cbn [app List.map]. unfold sectionStart at 1. rewrite split_loop_pass.
    fold sectionStart.
    destruct (@sectionStart_at (c :: bef) (w ++ [d]) rest) as (s1 & Hs1 & Hb).
    { split; [now destruct w|]. apply Forall_app. split; [exact Hw'|].
      now constructor. }
    rewrite <- app_assoc in Hs1. cbn [app] in Hs1.
    assert (Ea : after s1 = w ++ d :: 46%N :: 32%N :: 42%N :: 42%N :: rest).
    { unfold sectionStart in Hs1. cbn [rx] in Hs1.
      destruct (rx plain _ _ _) in Hs1; [|discriminate].
      now injection Hs1 as <-. }
    assert (Es : split_loop plain sectionStart (S fuel) [c] (c :: bef)
                   (w ++ d :: 46%N :: 32%N :: 42%N :: 42%N :: rest)
                 = [c] :: split_loop plain sectionStart fuel [] (c :: bef)
                            (w ++ d :: 46%N :: 32%N :: 42%N :: 42%N :: rest)).
    { destruct (w ++ d :: 46%N :: 32%N :: 42%N :: 42%N :: rest)
        as [|y aft] eqn:Ey; [now destruct w|].
      cbn [split_loop]. rewrite Hs1, Hb, Ea. cbn [length].
      replace (S (length bef) - 1) with (length bef) by lia.
      assert (En : Nat.eqb (S (length bef)) (length bef) = false)
        by (apply Nat.eqb_neq; lia).
      now rewrite En. }
    rewrite Es. f_equal. apply IH; try assumption. cbn in Hfuel. lia.
Qed.


(** *** The name, the identifier and the description of a section *)

Lemma no_star_units (l : jsstring) :
  forallb (fun c => negb (c =? 42)%N) l = true ->
  Forall (fun c => c <> 42%N) l.
Proof.
  intros H. rewrite forallb_forall in H. apply Forall_forall.
  intros c Hc. specialize (H c Hc). apply negb_true_iff in H.
  now apply N.eqb_neq.
Qed.

Definition boldText (n : jsstring) : bool :=
  match n with
  | [] => false
  | c :: _ => negb (isWhiteSpace c)
  end
  && negb (isWhiteSpace (last n 0%N))
  && negb (last n 0%N =? 46)%N
  && forallb (fun c => negb (c =? 42)%N) n
  && negb (mentions (js "Product ID") n)
  && negb (mentions (js "Description") n).

Lemma boldText_spec n : boldText n = true -> BoldText n.
Proof.
  unfold boldText. intros H.
  apply andb_true_iff in H as [H Hl]. apply andb_true_iff in H as [H Hm].
  apply andb_true_iff in H as [H Hs]. apply andb_true_iff in H as [H Hp].
  apply andb_true_iff in H as [Hh Hlast].
  apply negb_true_iff in Hl, Hm, Hp, Hlast. apply N.eqb_neq in Hp.
  constructor; try assumption.
  - destruct n as [|c t]; [discriminate|]. exists c, t.
    apply negb_true_iff in Hh. now split.
  - now apply no_star_units.
Qed.

(** A description the section extractor reads back as it is. *)
Definition plainText (d : jsstring) : bool :=
  match d with
  | [] => false
  | c :: _ => negb (isWhiteSpace c)
  end
  && negb (isWhiteSpace (last d 0%N))
  && singleSpaced d
  && forallb (fun c => negb ((c =? 42) || (c =? 45))%N) d.

Record PlainText (d : jsstring) : Prop := mkPlainText {
  pt_head : exists c t, d = c :: t /\ isWhiteSpace c = false;
  pt_last : isWhiteSpace (last d 0%N) = false;
  pt_spaced : singleSpaced d = true;
  pt_units : Forall (fun c => c <> 42%N /\ c <> 45%N) d
}.

Lemma plainText_spec d : plainText d = true -> PlainText d.
Proof.
  unfold plainText. intros H.
  apply andb_true_iff in H as [H Hu]. apply andb_true_iff in H as [H Hs].
  apply andb_true_iff in H as [Hh Hlast]. apply negb_true_iff in Hlast.
  constructor; try assumption.
  - destruct d as [|c t]; [discriminate|]. exists c, t.
    apply negb_true_iff in Hh. now split.
  - rewrite forallb_forall in Hu. apply Forall_forall. intros c Hc.
    specialize (Hu c Hc). apply negb_true_iff in Hu.
    apply orb_false_iff in Hu as [H1 H2]. apply N.eqb_neq in H1, H2.
    now split.
Qed.

Lemma not_star_unit c :
  c <> 42%N -> set_matches false true [CChar 42] c = true.
Proof.
  intros H. unfold set_matches. cbn [existsb citem_matches xorb].
  unfold unit_matches. apply N.eqb_neq in H.
  now rewrite (N.eqb_sym 42 c), H.
Qed.

Lemma line_unit c :
  c <> 45%N -> (c =? 10)%N = false ->
  set_matches true true [CChar 45; CChar NL] c = true.
Proof.
  intros H1 H2. unfold set_matches. cbn [existsb citem_matches xorb].
  unfold unit_matches, NL. change (canonicalize 45) with 45%N.
  change (canonicalize 10) with 10%N. rewrite !canonicalize_low by lia.
  apply N.eqb_neq in H1. now rewrite (N.eqb_sym 45 c), (N.eqb_sym 10 c), H1, H2.
Qed.

(** The name between the bold markers after the number. *)
Lemma boldName_at bef d0 name_ tail :
  isDigit d0 = true -> BoldText name_ ->
  exists s1,
    rx plain boldName
      (start_state bef (d0 :: js ". **" ++ name_ ++ js "**" ++ tail))
      (fun s => Some s)
    = Some s1
    /\ caps s1 = [(1, name_)].
Proof.
  intros Hd Hn. destruct (bt_head Hn) as (c & t & En & _).
  eexists. unfold boldName. cbn [RSeqs]. rewrite rx_seq. split.
  - apply (@digits_run plain [d0] (js ". **" ++ name_ ++ js "**" ++ tail));
      [reflexivity | split; [discriminate | now constructor] | reflexivity |].
    cbn [before caps start_state].
    rewrite rx_seq, (@char_step plain 46 (js " **" ++ name_ ++ js "**" ++ tail))
      by reflexivity.
    rewrite rx_seq.
    apply (@spaces_run plain [32%N] (js "**" ++ name_ ++ js "**" ++ tail));
      [reflexivity | repeat constructor | reflexivity |].
    cbn [before caps].
    rewrite rx_seq, (@lit_exact plain "**" (name_ ++ js "**" ++ tail))
      by reflexivity.
    rewrite rx_seq.
    apply (@group_plus_run plain 1 (RSet true [CChar 42])
             (set_matches false true [CChar 42]) name_ (js "**" ++ tail)
             _ _ _ eq_refl).
    + reflexivity.
    + rewrite En. discriminate.
    + eapply Forall_impl; [|exact (bt_stars Hn)]. apply not_star_unit.
    + reflexivity.
    + cbn [before caps].
      rewrite (@lit_exact plain "**" tail) by reflexivity. reflexivity.
  - reflexivity.
Qed.

Lemma sectionName_at d0 name_ tail :
  isDigit d0 = true -> BoldText name_ ->
  sectionName (d0 :: js ". **" ++ name_ ++ js "**" ++ tail) = name_.
Proof.
  intros Hd Hn. destruct (bt_head Hn) as (c & t & En & Hw).
  destruct (@boldName_at [] d0 name_ tail Hd Hn) as (s1 & Hrx & Hcaps).
  unfold sectionName, rx_match. rewrite (@search_hit _ _ _ _ _ Hrx).
  cbn [option_map fst]. rewrite (@group_of_caps _ _ _ _ _ _ Hcaps).
  apply (@trim_clean _ _ _ En Hw (bt_last Hn)).
Qed.

(** The marker of the assistant's text, read where it stands. *)
Lemma assistantProductId_at bef id_ rest :
  numeric id_ -> startsNoDigit rest ->
  rx caseless assistantProductId
    (start_state bef (js "Product ID: " ++ id_ ++ rest)) (fun s => Some s)
  = Some (mkMstate (rev (js "Product ID: " ++ id_) ++ bef) rest [(1, id_)]).
Proof.
  intros Hid Hrest. unfold assistantProductId. cbn [RSeqs].
  rewrite rx_seq, (@lit_exact caseless "Product ID" (js ": " ++ id_ ++ rest))
    by reflexivity.
  rewrite rx_seq, (@optionalStar_skip caseless _ _ 58%N (32%N :: id_ ++ rest))
    by reflexivity.
  rewrite rx_seq, (@optionalStar_skip caseless _ _ 58%N (32%N :: id_ ++ rest))
    by reflexivity.
  rewrite rx_seq, (@char_step caseless 58 (32%N :: id_ ++ rest))
    by reflexivity.
  rewrite rx_seq.
  apply (@spaces_run caseless [32%N] (id_ ++ rest));
    [reflexivity | repeat constructor | |].
  - destruct Hid as [Hne Hd]. destruct id_ as [|x id']; [contradiction|].
    inversion Hd; subst. now apply digit_not_space.
  - cbn [before caps start_state].
    apply (@group_digits_run caseless 1 id_ rest); try assumption;
      [reflexivity|].
    cbn [before caps]. f_equal. f_equal.
    rewrite !rev_app_distr, <- !app_assoc. reflexivity.
Qed.

Lemma marker_not_in_heading d0 name_ :
  isDigit d0 = true -> BoldText name_ ->
  mentions (js "Product ID") (d0 :: js ". **" ++ name_ ++ js "**") = false.
Proof.
  intros Hd Hn.
  change (js "Product ID") with (80%N :: js "roduct ID").
  rewrite mentions_miss by (now apply digit_miss).
  change (js ". **" ++ name_ ++ js "**")
    with (46%N :: 32%N :: 42%N :: 42%N :: name_ ++ 42%N :: [42%N]).
  rewrite !mentions_miss by reflexivity.
  apply mentions_join;
    [vm_compute; repeat constructor | exact (bt_marker Hn) | reflexivity].
Qed.

Lemma sectionId_at d0 name_ id_ rest :
  isDigit d0 = true -> BoldText name_ -> numeric id_ ->
  sectionId (d0 :: js ". **" ++ name_ ++ js "**"
                ++ NL :: js "Product ID: " ++ id_ ++ NL :: rest)
  = Some id_.
Proof.
  intros Hd Hn Hid. unfold sectionId, rx_match.
  assert (E : d0 :: js ". **" ++ name_ ++ js "**"
                 ++ NL :: js "Product ID: " ++ id_ ++ NL :: rest
              = ((d0 :: js ". **" ++ name_ ++ js "**") ++ [NL])
                ++ js "Product ID: " ++ id_ ++ NL :: rest).
  { cbn [app]. rewrite <- !app_assoc. reflexivity. }
  rewrite E, search_skip.
  2:{ intros x1 x2 Ex Hx2. unfold assistantProductId. cbn [RSeqs].
      rewrite rx_seq. unfold RLit. rewrite rx_RLit.
      cbn [ignoreCase caseless after start_state].
      rewrite (@lit_not_before (js "Product ID")
                 (d0 :: js ". **" ++ name_ ++ js "**") NL x1 x2 _
                 ltac:(vm_compute; repeat constructor)
                 (@marker_not_in_heading d0 name_ Hd Hn) Ex Hx2).
      reflexivity. }
  rewrite (@search_hit _ _ _ _ _
             (@assistantProductId_at _ id_ (NL :: rest) Hid eq_refl)).
  reflexivity.
Qed.

(** The labelled description at the end of a section. *)
Lemma assistantDescription_at bef d :
  PlainText d ->
  exists s1,
    rx caseless assistantDescription
      (start_state bef (js "Description: " ++ d)) (fun s => Some s)
    = Some s1
    /\ caps s1 = [(1, d)].
Proof.
  intros Hd. destruct (pt_head Hd) as (c & t & Ed & Hw).
  eexists. unfold assistantDescription. cbn [RSeqs].
  rewrite rx_seq, (@lit_exact caseless "Description" (js ": " ++ d))
    by reflexivity.
  rewrite rx_seq, (@optionalStar_skip caseless _ _ 58%N (32%N :: d))
    by reflexivity.
  rewrite rx_seq, (@optionalStar_skip caseless _ _ 58%N (32%N :: d))
    by reflexivity.
  rewrite rx_seq, (@char_step caseless 58 (32%N :: d)) by reflexivity.
  rewrite rx_seq. split.
  - apply (@spaces_run caseless [32%N] d);
      [reflexivity | repeat constructor | now rewrite Ed |].
    cbn [before caps start_state].
    match goal with
    | |- rx caseless (RGroup 1 (RSeq ?a ?b)) ?s ?k = _ =>
        change (rx caseless (RGroup 1 (RSeq a b)) s k)
          with (rx caseless a s
                  (fun s1 =>
                     rx caseless b s1
                       (fun s2 =>
                          k (mkMstate (before s2) (after s2)
                               ((1, captured s s2) :: caps s2)))))
    end.
    apply (@plus_run caseless (RSet true [CChar 45; CChar NL])
             (set_matches true true [CChar 45; CChar NL]) d []
             _ _ _ eq_refl).
    + cbn [after]. now rewrite app_nil_r.
    + rewrite Ed. discriminate.
    + pose proof (singleSpaced_no_break _ (pt_spaced Hd)) as Hnl.
      pose proof (pt_units Hd) as Hu.
      rewrite Forall_forall in *. intros x Hx.
      apply line_unit; [now destruct (Hu x Hx) | now apply Hnl].
    + exact I.
    + cbv beta. rewrite star_at_end by reflexivity.
      cbn [before after caps]. rewrite captured_read. reflexivity.
  - reflexivity.
Qed.

Lemma mentions_after L b : forall pre,
  mentions L b = false ->
  (forall x1 x2, pre = x1 ++ x2 -> x2 <> [] ->
     lit_matches true L (x2 ++ b) = false) ->
  mentions L (pre ++ b) = false.
Proof.
  induction pre as [|x pre IH]; intros Hb H; [exact Hb|].
  cbn [app]. change (mentions L (x :: pre ++ b))
    with (lit_matches true L ((x :: pre) ++ b) || mentions L (pre ++ b)).
  rewrite (H [] (x :: pre) eq_refl ltac:(discriminate)).
  apply IH; [exact Hb|]. intros x1 x2 -> Hx2.
  now apply (H (x :: x1) x2).
Qed.

Lemma label_not_in_heading d0 name_ id_ :
  isDigit d0 = true -> BoldText name_ -> numeric id_ ->
  mentions (js "Description")
    (d0 :: js ". **" ++ name_ ++ js "**" ++ NL :: js "Product ID: " ++ id_)
  = false.
Proof.
  intros Hd Hn [_ Hid].
  change (js "Description") with (68%N :: js "escription").
  rewrite mentions_miss by (now apply digit_miss).
  change (js ". **" ++ name_ ++ js "**" ++ NL :: js "Product ID: " ++ id_)
    with (46%N :: 32%N :: 42%N :: 42%N
          :: name_ ++ 42%N :: (42%N :: NL :: js "Product ID: ") ++ id_).
  rewrite !mentions_miss by reflexivity.
  apply mentions_join;
    [vm_compute; repeat constructor | exact (bt_label Hn) |].
  apply mentions_after; [now apply digits_no_mention|].
  intros x1 x2 E Hx2.
  do 14 (destruct x1 as [|? x1];
         [cbn in E; subst x2; vm_compute; reflexivity
         |cbn in E; injection E as _ E]).
  destruct x1; cbn in E; [now subst x2 | discriminate].
Qed.

Lemma sectionDescription_at d0 name_ id_ d :
  isDigit d0 = true -> BoldText name_ -> numeric id_ -> PlainText d ->
  sectionDescription
    (d0 :: js ". **" ++ name_ ++ js "**"
        ++ NL :: js "Product ID: " ++ id_ ++ NL :: js "Description: " ++ d)
  = d.
Proof.
  intros Hd0 Hn Hid Hd. destruct (pt_head Hd) as (c & t & Ed & Hw).
  pose proof (@trim_clean _ _ _ Ed Hw (pt_last Hd)) as Htrim.
  unfold sectionDescription. cbv zeta.
  assert (E0 : match rx_match caseless assistantDescription
                       (d0 :: js ". **" ++ name_ ++ js "**"
                           ++ NL :: js "Product ID: " ++ id_
                           ++ NL :: js "Description: " ++ d) with
               | Some descMatch => trim (group 1 descMatch)
               | None => []
               end = d).
  { unfold rx_match.
    assert (E : d0 :: js ". **" ++ name_ ++ js "**"
                   ++ NL :: js "Product ID: " ++ id_
                   ++ NL :: js "Description: " ++ d
                = ((d0 :: js ". **" ++ name_ ++ js "**"
                       ++ NL :: js "Product ID: " ++ id_) ++ [NL])
                  ++ js "Description: " ++ d).
    { cbn [app]. rewrite <- !app_assoc. cbn [app].
      rewrite <- !app_assoc. reflexivity. }
    rewrite E, search_skip.
    2:{ intros x1 x2 Ex Hx2. unfold assistantDescription. cbn [RSeqs].
        rewrite rx_seq. unfold RLit. rewrite rx_RLit.
        cbn [ignoreCase caseless after start_state].
        rewrite (@lit_not_before (js "Description")
                   (d0 :: js ". **" ++ name_ ++ js "**"
                       ++ NL :: js "Product ID: " ++ id_) NL x1 x2 _
                   ltac:(vm_compute; repeat constructor)
                   (@label_not_in_heading d0 name_ id_ Hd0 Hn Hid) Ex Hx2).
        reflexivity. }
    destruct (@assistantDescription_at
                (rev ((d0 :: js ". **" ++ name_ ++ js "**"
                          ++ NL :: js "Product ID: " ++ id_) ++ [NL]) ++ [])
                d Hd) as (s1 & Hrx & Hcaps).
    rewrite (@search_hit _ _ _ _ _ Hrx). cbn [option_map fst].
    now rewrite (@group_of_caps _ _ _ _ _ _ Hcaps). }
  rewrite E0.
  assert (E1 : match rx_match caseless assistantDetails
                       (d0 :: js ". **" ++ name_ ++ js "**"
                           ++ NL :: js "Product ID: " ++ id_
                           ++ NL :: js "Description: " ++ d) with
               | Some detailsMatch =>
                   match d with
                   | [] => trim (group 1 detailsMatch)
                   | _ :: _ => d
                   end
               | None => d
               end = d).
  { destruct (rx_match caseless assistantDetails _); [|reflexivity].
    now rewrite Ed. }
  rewrite E1, (@collapseWhitespace_single d (pt_spaced Hd)). exact Htrim.
Qed.


(** *** The whole text *)

Lemma rx_split_nonempty fl r s :
  s <> [] -> rx_split fl r s = split_loop fl r (2 * length s + 1) [] [] s.
Proof. intros H. destruct s; [contradiction | reflexivity]. Qed.

Lemma collect_app {A} (a b : list (option A)) :
  collect (a ++ b) = collect a ++ collect b.
Proof.
  induction a as [|[x|] a IH]; cbn [app collect]; [reflexivity| |exact IH].
  now rewrite IH.
Qed.

(** A section that is one digit has no marker. *)
Lemma digit_section c : isDigit c = true -> extractFromSection [c] = None.
Proof.
  intros Hc. unfold extractFromSection.
  rewrite (@trim_clean [c] c [] eq_refl (digit_not_space _ Hc)
             (digit_not_space _ Hc)).
  cbn [str_eqb]. unfold sectionId, rx_match.
  rewrite search_none; [reflexivity|].
  intros x1 x2 E. unfold assistantProductId. cbn [RSeqs].
  rewrite rx_seq. unfold RLit. rewrite rx_RLit.
  cbn [ignoreCase caseless after start_state].
  assert (Hm : mentions (js "Product ID") (x1 ++ x2) = false).
  { rewrite <- E. change (js "Product ID") with (80%N :: js "roduct ID").
    apply digits_no_mention; [reflexivity | now constructor]. }
  now rewrite (mentions_suffix _ _ _ Hm).
Qed.

Lemma digit_sections w :
  Forall (fun c => isDigit c = true) w ->
  collect (List.map extractFromSection (List.map (fun c => [c]) w)) = [].
Proof.
  induction 1 as [|c w Hc Hw IH]; [reflexivity|].
  cbn [List.map collect]. now rewrite (@digit_section c Hc).
Qed.

(** A numbered section as the assistant writes it: the number, the name
    in bold, the marker with the identifier on the next line, the
    labelled description on the last. *)
Definition numberedSection (num name_ id_ description_ : jsstring)
  : jsstring :=
  num ++ js ". **" ++ name_ ++ js "**"
      ++ NL :: js "Product ID: " ++ id_
      ++ NL :: js "Description: " ++ description_.

Lemma extractFromSection_numbered d0 name_ id_ d :
  isDigit d0 = true -> BoldText name_ -> numeric id_ -> PlainText d ->
  extractFromSection (numberedSection [d0] name_ id_ d)
  = Some (mkProduct name_ id_ d).
Proof.
  intros Hd0 Hn Hid Hd.
  destruct (bt_head Hn) as (c & t & En & _).
  destruct (pt_head Hd) as (c' & t' & Ed & _).
  unfold extractFromSection, numberedSection. cbn [app].
  assert (Elast : last (d0 :: js ". **" ++ name_ ++ js "**"
                           ++ NL :: js "Product ID: " ++ id_
                           ++ NL :: js "Description: " ++ d) 0%N
                  = last d 0%N).
  { change (d0 :: js ". **" ++ name_ ++ js "**"
               ++ NL :: js "Product ID: " ++ id_
               ++ NL :: js "Description: " ++ d)
      with ((d0 :: js ". **") ++ name_ ++ js "**"
            ++ (NL :: js "Product ID: ") ++ id_
            ++ (NL :: js "Description: ") ++ d).
    rewrite !app_assoc. apply last_app_nonempty. rewrite Ed. discriminate. }
  rewrite (@trim_clean _ d0 _ eq_refl (digit_not_space _ Hd0)).
  2:{ rewrite Elast. exact (pt_last Hd). }
  cbn [str_eqb].
  rewrite (@sectionId_at d0 name_ id_ (js "Description: " ++ d) Hd0 Hn Hid).
  rewrite (@sectionName_at d0 name_ _ Hd0 Hn).
  rewrite (@sectionDescription_at d0 name_ id_ d Hd0 Hn Hid Hd).
  assert (On : forall b, orDefault name_ b = name_)
    by (intros b; now rewrite En).
  assert (Od : forall b, orDefault d b = d) by (intros b; now rewrite Ed).
  destruct Hid as [Hne _]. destruct id_ as [|x id']; [contradiction|].
  now rewrite On, Od.
Qed.

(** X19. An assistant text that is one numbered section (a number, the
    name in bold, [Product ID: ] and a number on the next line,
    [Description: ] and a one-line single-spaced text on the last) is
    read back as exactly that one product. The digits of the number
    before the last are cut off as sections of their own and give
    nothing. *)
Theorem numbered_section_round_trip (num name_ id_ description_ : jsstring) :
  numeric num ->
  boldText name_ = true ->
  numeric id_ ->
  plainText description_ = true ->
  extractProductsFromAssistantMessage
    (numberedSection num name_ id_ description_)
  = [mkProduct name_ id_ description_].
Proof.
  intros [Hne Hnum] Hn Hid Hd.
  apply boldText_spec in Hn. apply plainText_spec in Hd.
  destruct (@exists_last _ num Hne) as (w & d0 & ->).
  apply Forall_app in Hnum as [Hw Hd0]. inversion Hd0 as [|? ? Hd0' _]; subst.
  unfold extractProductsFromAssistantMessage.
  assert (Etail : Forall (fun c => c <> 42%N)
                    (NL :: js "Product ID: " ++ id_
                        ++ NL :: js "Description: " ++ description_)).
  { change (NL :: js "Product ID: " ++ id_
               ++ NL :: js "Description: " ++ description_)
      with ((NL :: js "Product ID: ") ++ id_
            ++ (NL :: js "Description: ") ++ description_).
    repeat (apply Forall_app; split).
    - now apply no_star_units.
    - destruct Hid as [_ Hid]. eapply Forall_impl; [|exact Hid].
      intros c Hc ->. discriminate.
    - now apply no_star_units.
    - eapply Forall_impl; [|exact (pt_units Hd)]. now intros c [H _]. }
  assert (Emsg : numberedSection (w ++ [d0]) name_ id_ description_
                 = w ++ d0 :: 46%N :: 32%N :: 42%N :: 42%N
                      :: name_ ++ js "**"
                         ++ NL :: js "Product ID: " ++ id_
                         ++ NL :: js "Description: " ++ description_).
  { unfold numberedSection. rewrite <- app_assoc. reflexivity. }
  rewrite Emsg, rx_split_nonempty by (now destruct w).
  rewrite split_loop_digits; try assumption.
  - rewrite List.map_app, collect_app.
    change [mkProduct name_ id_ description_]
      with ([] ++ [mkProduct name_ id_ description_]).
    f_equal; [exact (@digit_sections w Hw)|].
    transitivity (collect [Some (mkProduct name_ id_ description_)]);
      [|reflexivity].
    cbn [List.map]. do 2 f_equal.
    exact (@extractFromSection_numbered d0 name_ id_ description_
             Hd0' Hn Hid Hd).
  - intros x1 x2 bef E.
    apply (@sectionStart_not_inside name_ _ x1 x2 bef _ Hn Etail E).
  - rewrite length_app. lia.
Qed.

Lemma numbered_section_round_trip_witness :
  extractProductsFromAssistantMessage
    (numberedSection (js "12") (js "Blue Kettle") (js "42")
       (js "Boils a litre in two minutes."))
  = [mkProduct (js "Blue Kettle") (js "42")
       (js "Boils a litre in two minutes.")].
Proof.
  apply numbered_section_round_trip; try reflexivity;
    (split; [discriminate | repeat constructor]).
Defined.

(* ================================================================= *)
(** * The assistant's text with two blocks *)

(** ** Two numbered blocks in the assistant's text *)








(** *** Where the sections start *)






(** *** The record of a block *)

















(** *** The sections of the text *)

















